(** * eth-lsd-relay: a shallow embedding of the relay's core and its properties

    The development follows the three Go sources of the relay:
    - [pkg/utils/eth2.go]: epoch/slot arithmetic, proposal identifiers,
      [WaitTxOkCommon], the reward split [GetUserNodePlatformReward];
    - [pkg/utils/utils.go]: retry constants, [ReadLastLine], [Min]/[Max];
    - [service/service_manager.go] (with the merkle-root task):
      [syncEntrustedLsdTokens], [newAndStartServiceFor], [setMerkleRoot],
      [buildMerkleTree], [checkStateForSetMerkleRoot], [sendSetMerkleRootTx].

    Part I holds the embedding, Part II the properties. *)

From Stdlib Require Import ZArith List String Ascii Bool Lia.
From Stdlib.Strings Require Import Byte.
From Stdlib Require OrderedTypeEx Sorted.
From stdpp Require Import gmap strings list fin_maps.

Import ListNotations.

(* ===================================================================== *)
(** * Part I. The embedding                                               *)
(* ===================================================================== *)

(** ** Go primitives *)

Module Go.
Local Open Scope Z_scope.

(** [uint64] values are integers in [0, 2^64); arithmetic wraps around. *)
Definition two64 : Z := 2 ^ 64.
Definition is_u64 (z : Z) : Prop := 0 <= z < two64.
Definition wrap64 (z : Z) : Z := z mod two64.

Definition add64 (a b : Z) : Z := wrap64 (a + b).
Definition sub64 (a b : Z) : Z := wrap64 (a - b).
Definition mul64 (a b : Z) : Z := wrap64 (a * b).

(** Integer division panics on a zero divisor: [None] is the panic. *)
Definition div64 (a b : Z) : option Z :=
  if b =? 0 then None else Some (a / b).

(** [int64(x)] of a [uint64]: two's complement reinterpretation. *)
Definition int64_of_u64 (z : Z) : Z :=
  if z <? 2 ^ 63 then z else z - two64.

(** Go's [error] values.  [Errorf] keeps the format string of the site that
    built the error, [ErrExternal] is an error handed back by a collaborator
    (RPC client, beacon client, storage, JSON codec), [ErrWrapped] is the
    result of [errors.Wrap] on a non-nil error. *)
Inductive error : Type :=
| ErrExternal (code : nat)
| Errorf (format : string)
| ErrWrapped (cause : error) (message : string).

(** A Go [error] result is [option error]: [None] is [nil]. *)
Definition nil_error : option error := None.

(** [errors.Wrap(err, msg)] of github.com/pkg/errors: "If err is nil, Wrap
    returns nil." *)
Definition errors_Wrap (err : option error) (message : string) : option error :=
  match err with
  | None => None
  | Some e => Some (ErrWrapped e message)
  end.

(** A call returning [(T, error)]. *)
Inductive result (T : Type) : Type :=
| Ok (v : T)
| Err (e : error).
Arguments Ok {T} v.
Arguments Err {T} e.

End Go.

(** ** pkg/utils/eth2.go: epoch and slot arithmetic *)

Module Eth2.
Import Go.
Local Open Scope Z_scope.

(** [beacon.Eth2Config]: five [uint64] fields. *)
Record Eth2Config : Type := mkEth2Config {
  GenesisEpoch : Z;
  GenesisTime : Z;
  SecondsPerSlot : Z;
  SlotsPerEpoch : Z;
  SecondsPerEpoch : Z
}.

Definition wf_config (c : Eth2Config) : Prop :=
  is_u64 (GenesisEpoch c) /\ is_u64 (GenesisTime c) /\
  is_u64 (SecondsPerSlot c) /\ is_u64 (SlotsPerEpoch c) /\
  is_u64 (SecondsPerEpoch c).

(** [config.GenesisEpoch + (time-config.GenesisTime)/config.SecondsPerEpoch] *)
Definition EpochAtTimestamp (config : Eth2Config) (time : Z) : option Z :=
  match div64 (sub64 time (GenesisTime config)) (SecondsPerEpoch config) with
  | None => None
  | Some q => Some (add64 (GenesisEpoch config) q)
  end.

(** [(time - config.GenesisTime) / config.SecondsPerSlot] *)
Definition SlotAtTimestamp (config : Eth2Config) (time : Z) : option Z :=
  div64 (sub64 time (GenesisTime config)) (SecondsPerSlot config).

(** [(epoch-config.GenesisEpoch)*config.SecondsPerEpoch + config.GenesisTime] *)
Definition StartTimestampOfEpoch (config : Eth2Config) (epoch : Z) : Z :=
  add64 (mul64 (sub64 epoch (GenesisEpoch config)) (SecondsPerEpoch config))
        (GenesisTime config).

(** [slot*config.SecondsPerSlot + config.GenesisTime] *)
Definition TimestampOfSlot (config : Eth2Config) (slot : Z) : Z :=
  add64 (mul64 slot (SecondsPerSlot config)) (GenesisTime config).

(** [config.SlotsPerEpoch * epoch] *)
Definition StartSlotOfEpoch (config : Eth2Config) (epoch : Z) : Z :=
  mul64 (SlotsPerEpoch config) epoch.

(** [config.SlotsPerEpoch*(epoch+1) - 1] *)
Definition EndSlotOfEpoch (config : Eth2Config) (epoch : Z) : Z :=
  sub64 (mul64 (SlotsPerEpoch config) (add64 epoch 1)) 1.

(** The round trip epoch -> first slot -> timestamp -> epoch. *)
Definition epoch_roundtrip (config : Eth2Config) (e : Z) : option Z :=
  EpochAtTimestamp config (TimestampOfSlot config (StartSlotOfEpoch config e)).

(** Beacon mainnet parameters, and the same chain with a genesis epoch of 1. *)
Definition mainnet : Eth2Config := mkEth2Config 0 1606824023 12 32 384.
Definition genesis1 : Eth2Config := mkEth2Config 1 1606824023 12 32 384.

End Eth2.

(** ** github.com/shopspring/decimal, as far as the reward split uses it

    A [decimal.Decimal] is a coefficient and a base-10 exponent, denoting
    [value * 10^exp].  The operations below follow the library's algorithms
    (rescale to the smaller exponent for [Add], [Sub] and [Cmp]; exact
    [Mul]; [Div] = [DivRound] to [DivisionPrecision] = 16 places, rounding
    half away from zero).  Exponents are kept as unbounded integers: the
    library stores them in an [int32]. *)

Module Decimal.
Local Open Scope Z_scope.

Record Decimal : Type := mkDecimal { value : Z; exp : Z }.

Definition New (v e : Z) : Decimal := mkDecimal v e.
Definition NewFromInt (v : Z) : Decimal := mkDecimal v 0.
Definition NewFromBigInt (v e : Z) : Decimal := mkDecimal v e.

(** [decimal.Zero = New(0, 1)] *)
Definition Zero : Decimal := New 0 1.

Definition DivisionPrecision : Z := 16.

(** [rescale]: to a larger exponent the coefficient is truncated
    ([big.Int.Quo]), to a smaller one it is multiplied. *)
Definition rescale (d : Decimal) (e : Z) : Decimal :=
  if exp d =? e then d
  else
    let diff := Z.abs (e - exp d) in
    let expScale := 10 ^ diff in
    if exp d <? e then mkDecimal (Z.quot (value d) expScale) e
    else mkDecimal (value d * expScale) e.

Definition RescalePair (d1 d2 : Decimal) : Decimal * Decimal :=
  if exp d1 =? exp d2 then (d1, d2)
  else
    let baseScale := Z.min (exp d1) (exp d2) in
    if negb (baseScale =? exp d1) then (rescale d1 baseScale, d2)
    else (d1, rescale d2 baseScale).

Definition Add (d d2 : Decimal) : Decimal :=
  let '(rd, rd2) := RescalePair d d2 in
  mkDecimal (value rd + value rd2) (exp rd).

Definition Sub (d d2 : Decimal) : Decimal :=
  let '(rd, rd2) := RescalePair d d2 in
  mkDecimal (value rd - value rd2) (exp rd).

Definition Neg (d : Decimal) : Decimal := mkDecimal (- value d) (exp d).
Definition Abs (d : Decimal) : Decimal := mkDecimal (Z.abs (value d)) (exp d).

Definition Mul (d d2 : Decimal) : Decimal :=
  mkDecimal (value d * value d2) (exp d + exp d2).

(** [big.Int.Cmp]: -1, 0 or +1. *)
Definition cmpZ (a b : Z) : Z :=
  match a ?= b with
  | Lt => -1
  | Eq => 0
  | Gt => 1
  end.

Definition Cmp (d d2 : Decimal) : Z :=
  if exp d =? exp d2 then cmpZ (value d) (value d2)
  else
    let '(rd, rd2) := RescalePair d d2 in
    cmpZ (value rd) (value rd2).

Definition Sign (d : Decimal) : Z := Z.sgn (value d).
Definition IsPositive (d : Decimal) : bool := Sign d =? 1.
Definition IsNegative (d : Decimal) : bool := Sign d =? -1.
Definition IsZero (d : Decimal) : bool := Sign d =? 0.
Definition Equal (d d2 : Decimal) : bool := Cmp d d2 =? 0.
Definition GreaterThan (d d2 : Decimal) : bool := Cmp d d2 =? 1.
Definition LessThanOrEqual (d d2 : Decimal) : bool :=
  let c := Cmp d d2 in (c =? -1) || (c =? 0).

(** [BigInt()]: the coefficient after rescaling to exponent 0. *)
Definition BigInt (d : Decimal) : Z := value (rescale d 0).

(** [QuoRem(d2, precision)]: quotient with [precision] places and the
    remainder, by truncated integer division ([big.Int.QuoRem]). *)
Definition QuoRem (d d2 : Decimal) (precision : Z) : Decimal * Decimal :=
  let scale := - precision in
  let e := exp d - exp d2 - scale in
  let '(aa, bb, scalerest) :=
    if e <? 0
    then (value d, value d2 * 10 ^ (- e), exp d)
    else (value d * 10 ^ e, value d2, scale + exp d2) in
  (mkDecimal (Z.quot aa bb) scale, mkDecimal (Z.rem aa bb) scalerest).

(** [DivRound]: the quotient is moved one unit of the last place away from
    zero when twice the remainder reaches the divisor. *)
Definition DivRound (d d2 : Decimal) (precision : Z) : Decimal :=
  let '(q, r) := QuoRem d d2 precision in
  let r2 := mkDecimal (Z.abs (value r) * 2) (exp r + precision) in
  let c := Cmp r2 (Abs d2) in
  if c <? 0 then q
  else if Z.sgn (value d) * Z.sgn (value d2) <? 0
       then Sub q (New 1 (- precision))
       else Add q (New 1 (- precision)).

Definition Div (d d2 : Decimal) : Decimal := DivRound d d2 DivisionPrecision.

End Decimal.

(** ** pkg/utils/eth2.go: the reward split *)

Module Reward.
Import Decimal.
Local Open Scope Z_scope.

(** [decimal.NewFromFloat(0.05)], [decimal.NewFromFloat(0.9)] *)
Definition Percent5Deci : Decimal := New 5 (-2).
Definition Percent90Deci : Decimal := New 9 (-1).

(** [decimal.NewFromBigInt(big.NewInt(32), 18)] *)
Definition StandardEffectiveBalanceDeci : Decimal := NewFromBigInt 32 18.

(** Returns (user reward, node reward, platform fee). *)
Definition GetUserNodePlatformReward (nodeDepositAmount rewardDeci : Decimal)
  : Decimal * Decimal * Decimal :=
  if negb (IsPositive rewardDeci)
     || GreaterThan nodeDepositAmount StandardEffectiveBalanceDeci
  then (Zero, Zero, Zero)
  else
    let nodeDepositAmountDeci := nodeDepositAmount in
    let standEffectiveBalanceDeci := StandardEffectiveBalanceDeci in
    let platformFeeDeci := Mul rewardDeci Percent5Deci in
    let nodeRewardDeci :=
      Add platformFeeDeci
          (Div (Mul (Mul rewardDeci Percent90Deci) nodeDepositAmountDeci)
               standEffectiveBalanceDeci) in
    let userRewardDeci := Sub (Sub rewardDeci platformFeeDeci) nodeRewardDeci in
    let userRewardDeci :=
      if IsNegative userRewardDeci then Zero else userRewardDeci in
    (userRewardDeci, nodeRewardDeci, platformFeeDeci).

(** Amounts in wei used by the examples. *)
Definition wei (n : Z) : Decimal := NewFromInt n.
Definition ether : Z := 10 ^ 18.

End Reward.

(** ** Observable effects

    Calls that leave the process (RPC queries that a property speaks about,
    uploads, transactions, sleeps, the shutdown request, service start and
    stop) are recorded, oldest first, in a trace. *)

Module Effects.
Import Go.

Inductive Event : Type :=
| EvTransactionByHash (txHash : string)
| EvTransactionReceipt (txHash : string)
| EvSleep (seconds : Z)
| EvShutdownRequest                       (* [ShutdownRequestChannel <- struct{}{}] *)
| EvUploadFile (content : list byte) (filePath : string)
| EvHasVoted (proposalId : list byte) (voter : N)
| EvLockTxOpts
| EvUnlockTxOpts
(* the contract call [SetMerkleRoot(opts, epoch, rootHash, cid)] and the hash
   of the transaction it submitted, [None] when the call returned an error *)
| EvSetMerkleRootTx (epoch : Z) (rootHash : list byte) (cid : string)
                    (txHash : option string)
| EvServiceStart (srv : nat)
| EvServiceStop (srv : nat).

Definition Trace : Type := list Event.

Definition is_sleep (e : Event) : bool :=
  match e with EvSleep _ => true | _ => false end.
Definition is_shutdown (e : Event) : bool :=
  match e with EvShutdownRequest => true | _ => false end.
Definition is_by_hash (e : Event) : bool :=
  match e with EvTransactionByHash _ => true | _ => false end.
Definition is_receipt (e : Event) : bool :=
  match e with EvTransactionReceipt _ => true | _ => false end.
Definition is_tx (e : Event) : bool :=
  match e with EvSetMerkleRootTx _ _ _ _ => true | _ => false end.
Definition is_submitted (e : Event) : bool :=
  match e with EvSetMerkleRootTx _ _ _ (Some _) => true | _ => false end.
Definition is_lock (e : Event) : bool :=
  match e with EvLockTxOpts => true | _ => false end.
Definition is_has_voted (e : Event) : bool :=
  match e with EvHasVoted _ _ => true | _ => false end.
Definition is_upload (e : Event) : bool :=
  match e with EvUploadFile _ _ => true | _ => false end.

Definition count (p : Event -> bool) (t : Trace) : nat :=
  List.length (List.filter p t).

End Effects.

(** ** pkg/utils/utils.go *)

Module Utils.
Import Go.
Local Open Scope Z_scope.

Definition RetryLimit : nat := 600.
(** [RetryInterval = 6 * time.Second], in seconds. *)
Definition RetryInterval : Z := 6.

(** [Min(n1, nums...)] *)
Definition Min (n1 : Z) (nums : list Z) : Z :=
  fold_left (fun min n => if n <? min then n else min) nums n1.

(** [Max(a, b)] *)
Definition Max (a b : Z) : Z := if b <? a then a else b.

(** *** ReadLastLine

    What the file system answers to one call: the outcome of [os.MkdirAll],
    of [os.OpenFile] with [O_CREATE|O_RDONLY] (the bytes of the file, none
    when it has just been created) and of [f.Stat]. *)
Record FileView : Type := mkFileView {
  mkdirAll : option error;
  openFile : result (list byte);
  stat : option error
}.

(** [f.Seek(cursor, io.SeekEnd)]: the new offset; a negative one is refused. *)
Definition seekEnd (content : list byte) (cursor : Z) : result Z :=
  let pos := Z.of_nat (List.length content) + cursor in
  if pos <? 0 then Err (ErrExternal 22) else Ok pos.

(** [f.Read(char)] with a one-byte buffer at offset [pos]: [io.EOF] at or
    past the end. *)
Definition readAt (content : list byte) (pos : Z) : result byte :=
  match nth_error content (Z.to_nat pos) with
  | Some b => Ok b
  | None => Err (ErrExternal 0)
  end.

Definition byteZ (b : byte) : Z := Z.of_N (Byte.to_N b).

(** The [for] loop of [ReadLastLine]; [None] when [fuel] iterations did not
    reach a [break] or a [return]. *)
Fixpoint readLastLineLoop (fuel : nat) (content : list byte) (filesize : Z)
         (cursor : Z) (line : string) : option (result string) :=
  match fuel with
  | O => None
  | S fuel' =>
      let cursor := cursor - 1 in
      match seekEnd content cursor with
      | Err _ => Some (Err (Errorf "seek file err: %s"))
      | Ok pos =>
          match readAt content pos with
          | Err _ => Some (Err (Errorf "read file err: %s"))
          | Ok char =>
              if negb (cursor =? -1) && ((byteZ char =? 10) || (byteZ char =? 13))
              then Some (Ok line)
              else
                let line := String (ascii_of_byte char) line in
                if cursor =? - filesize
                then Some (Ok line)
                else readLastLineLoop fuel' content filesize cursor line
          end
      end
  end.

Definition ReadLastLine (fuel : nat) (fs : FileView) : option (result string) :=
  match mkdirAll fs with
  | Some _ => Some (Err (Errorf "failed to create directory %s"))
  | None =>
      match openFile fs with
      | Err _ => Some (Err (Errorf "failed to open file %s: %s"))
      | Ok content =>
          match stat fs with
          | Some _ => Some (Err (Errorf "f.stat err: %s"))
          | None =>
              let filesize := Z.of_nat (List.length content) in
              if filesize =? 0 then Some (Ok EmptyString)
              else readLastLineLoop fuel content filesize 0 EmptyString
          end
      end
  end.

(** A readable file with the given bytes. *)
Definition fileOf (content : list byte) : FileView :=
  mkFileView None (Ok content) None.

(** The last textual line of a byte sequence: its longest suffix without a
    line feed (10) or a carriage return (13). *)
Definition isNewline (b : byte) : bool := (byteZ b =? 10) || (byteZ b =? 13).

Fixpoint takeWhileNot (p : byte -> bool) (l : list byte) : list byte :=
  match l with
  | [] => []
  | b :: l' => if p b then [] else b :: takeWhileNot p l'
  end.

Definition lastTextLine (content : list byte) : list byte :=
  rev (takeWhileNot isNewline (rev content)).

Definition LF : byte := Byte.x0a.

End Utils.

(** ** pkg/utils/eth2.go: WaitTxOkCommon *)

Module WaitTx.
Import Go Effects Utils.
Local Open Scope Z_scope.

(** [types.Receipt], the two fields the code reads. *)
Record Receipt : Type := mkReceipt {
  Status : Z;
  BlockNumber : Z
}.

(** The execution client, as the answers it gives to the [i]-th call
    (counting from 0) of each method during one wait. *)
Record EthClient : Type := mkEthClient {
  (** [TransactionByHash]: an error, or the [pending] flag. *)
  TransactionByHash : nat -> result bool;
  (** [TransactionReceipt]: an error (also "not found"), or the receipt. *)
  TransactionReceipt : nat -> result Receipt
}.

(** The inner [for] loop: poll the receipt. *)
Fixpoint receiptLoop (fuel : nat) (client : EthClient) (txHash : string)
         (subRetry : nat) (t : Trace) : option (result Receipt * Trace) :=
  match fuel with
  | O => None
  | S fuel' =>
      if (RetryLimit <? subRetry)%nat
      then Some (Err (Errorf "TransactionReceipt %s reach retry limit"), t)
      else
        let t := t ++ [EvTransactionReceipt txHash] in
        match TransactionReceipt client subRetry with
        | Err _ =>
            receiptLoop fuel' client txHash (S subRetry) (t ++ [EvSleep RetryInterval])
        | Ok receipt => Some (Ok receipt, t)
        end
  end.

(** The outer [for] loop; the result is the pair [(blockNumber, err)] of the
    [return] that ends it. *)
Fixpoint waitLoop (fuel : nat) (client : EthClient) (txHash : string)
         (retry : nat) (t : Trace) : option (Z * option error * Trace) :=
  match fuel with
  | O => None
  | S fuel' =>
      if (RetryLimit <? retry)%nat
      then Some (0, Some (Errorf "waitTx %s reach retry limit"), t)
      else
        let t := t ++ [EvTransactionByHash txHash] in
        match TransactionByHash client retry with
        | Err _ =>
            waitLoop fuel' client txHash (S retry) (t ++ [EvSleep RetryInterval])
        | Ok true =>
            waitLoop fuel' client txHash (S retry) (t ++ [EvSleep RetryInterval])
        | Ok false =>
            match receiptLoop (S (S RetryLimit)) client txHash 0 t with
            | None => None
            | Some (Err e, t) => Some (0, Some e, t)
            | Some (Ok receipt, t) =>
                if Status receipt =? 1
                then Some (wrap64 (BlockNumber receipt), None, t)
                else Some (0, Some (Errorf "tx %s failed"), t)
            end
        end
  end.

(** [WaitTxOkCommon]: the loop, then the deferred function, which sends on
    the shutdown channel when the returned [err] is not nil. *)
Definition WaitTxOkCommon (fuel : nat) (client : EthClient) (txHash : string)
           (t : Trace) : option (Z * option error * Trace) :=
  match waitLoop fuel client txHash 0 t with
  | None => None
  | Some (blockNumber, err, t) =>
      match err with
      | Some _ => Some (blockNumber, err, t ++ [EvShutdownRequest])
      | None => Some (blockNumber, err, t)
      end
  end.

(** Fuel that always suffices (see [WaitTxOkCommon_total] in Part II). *)
Definition waitFuel : nat := S (S RetryLimit).

End WaitTx.

(** ** service/service_manager.go: the service manager *)

Module Manager.
Import Go Effects.

(** Modelled from the spec: the declarations of [config.Config] (package
    pkg/config, section 6 "Environment/CLI" lists its options).  [Contracts]
    is a struct field held by value. *)
Record ContractsConfig : Type := mkContracts {
  LsdTokenAddress : string;
  LsdFactoryAddress : string
}.

Record Config : Type := mkConfig {
  Eth1Endpoint : string;
  Eth2Endpoint : string;
  GasLimit : string;
  MaxGasPrice : string;
  RunForEntrustedLsdNetwork : bool;
  Contracts : ContractsConfig
}.

(** [srvConfig.Contracts.LsdTokenAddress = lsdToken] on a struct value. *)
Definition setLsdTokenAddress (c : Config) (lsdToken : string) : Config :=
  mkConfig (Eth1Endpoint c) (Eth2Endpoint c) (GasLimit c) (MaxGasPrice c)
           (RunForEntrustedLsdNetwork c)
           (mkContracts lsdToken (LsdFactoryAddress (Contracts c))).

(** A [*Service]: its identity and the [*config.Config] it was built from. *)
Record Service : Type := mkService {
  srvId : nat;
  srvCfg : nat
}.

(** The manager and the memory it works on: [cfg] is the pointer [m.cfg],
    [heap] holds the [config.Config] values that pointers refer to, [srvs]
    is the map [m.srvs]. *)
Record State : Type := mkState {
  cfg : nat;
  heap : gmap nat Config;
  srvs : gmap string Service;
  nextSrv : nat;
  trace : Trace
}.

(** What the collaborators answer during one call. *)
Record Env : Type := mkEnv {
  (** [lsd_network_factory.NewLsdNetworkFactory] *)
  NewLsdNetworkFactory : option error;
  (** [GetEntrustedLsdTokens(nil)] *)
  GetEntrustedLsdTokens : result (list N);
  (** [common.Address.String] *)
  addressString : N -> string;
  (** [NewService(&srvConfig, m.connection, m.localStore)], by the
      configuration it is given *)
  NewService : Config -> option error;
  (** [srv.Start()] *)
  Start : Config -> option error
}.

(** [newAndStartServiceFor]; [None] is the panic of dereferencing a [m.cfg]
    that points nowhere. *)
Definition newAndStartServiceFor (env : Env) (st : State) (lsdToken : string)
  : option (result Service * State) :=
  match heap st !! cfg st with
  | None => None
  | Some c =>
      (* srvConfig := *m.cfg *)
      let srvConfig := c in
      let srvConfig := setLsdTokenAddress srvConfig lsdToken in
      (* &srvConfig: the copy gets a location of its own *)
      let p := fresh (dom (heap st)) in
      let st := mkState (cfg st) (<[p := srvConfig]> (heap st)) (srvs st)
                        (nextSrv st) (trace st) in
      match NewService env srvConfig with
      | Some _ => Some (Err (Errorf "new service for lsd token %s err %s"), st)
      | None =>
          let srv := mkService (nextSrv st) p in
          let st := mkState (cfg st) (heap st) (srvs st) (S (nextSrv st)) (trace st) in
          match Start env srvConfig with
          | Some _ => Some (Err (Errorf "start service for lsd token %s err %s"), st)
          | None =>
              let st := mkState (cfg st) (heap st) (<[lsdToken := srv]> (srvs st))
                                (nextSrv st) (trace st ++ [EvServiceStart (srvId srv)]) in
              Some (Ok srv, st)
          end
      end
  end.

(** [lo.Contains(tokenList, token)] *)
Definition Contains (tokenList : list string) (token : string) : bool :=
  existsb (String.eqb token) tokenList.

(** First loop of [syncEntrustedLsdTokens]: start what is missing. *)
Fixpoint startMissing (env : Env) (tokenList : list string) (st : State)
  : option (option error * State) :=
  match tokenList with
  | [] => Some (None, st)
  | token :: rest =>
      match srvs st !! token with
      | Some _ => startMissing env rest st
      | None =>
          match newAndStartServiceFor env st token with
          | None => None
          | Some (Err e, st) => Some (Some e, st)
          | Some (Ok _, st) => startMissing env rest st
          end
      end
  end.

(** Body of the [Range] callback: stop and delete a service whose token is
    not listed. *)
Definition stopUnlisted (tokenList : list string) (st : State)
           (entry : string * Service) : State :=
  let '(token, srv) := entry in
  if negb (Contains tokenList token)
  then mkState (cfg st) (heap st) (delete token (srvs st)) (nextSrv st)
               (trace st ++ [EvServiceStop (srvId srv)])
  else st.

(** [m.srvs.Range]: the callback runs once for every entry of the map. *)
Definition rangeStop (tokenList : list string) (st : State) : State :=
  fold_left (stopUnlisted tokenList) (map_to_list (srvs st)) st.

Definition syncEntrustedLsdTokens (env : Env) (st : State)
  : option (option error * State) :=
  match NewLsdNetworkFactory env with
  | Some e => Some (Some e, st)
  | None =>
      match GetEntrustedLsdTokens env with
      | Err e => Some (Some e, st)
      | Ok tokens =>
          let tokenList := List.map (addressString env) tokens in
          match startMissing env tokenList st with
          | None => None
          | Some (Some e, st) => Some (Some e, st)
          | Some (None, st) => Some (None, rangeStop tokenList st)
          end
      end
  end.

End Manager.

(** ** service: the set-merkle-root task *)

Module MerkleRoot.
Import Go Effects Decimal.
Local Open Scope Z_scope.

(** [common.Address] (20 bytes) as a number, [utils.NodeHash] as bytes. *)
Definition Address : Type := N.
Definition NodeHash : Type := list byte.

Record NodeReward : Type := mkNodeReward {
  nrAddress : string;                 (* Address, hex with 0x *)
  nrIndex : Z;                        (* Index, uint32 *)
  nrTotalRewardAmount : Decimal;
  nrTotalExitDepositAmount : Decimal;
  nrProof : string
}.

Record NodeNewReward : Type := mkNodeNewReward {
  nnAddress : string;
  nnTotalRewardAmount : Decimal;
  nnTotalExitDepositAmount : Decimal
}.

(** Library and codec functions the task calls.  A [utils.MerkleTree] is
    kept as the list of leaves given to [NewMerkleTree]; what the tree
    answers is a function of them. *)
Record Lib : Type := mkLib {
  HexToAddress : string -> Address;                   (* common.HexToAddress *)
  Keccak256Hash : list (list byte) -> list byte;      (* crypto.Keccak256Hash *)
  GetNodeHash : Z -> Address -> Z -> Z -> NodeHash;   (* utils.GetNodeHash *)
  GetRootHash : list NodeHash -> result NodeHash;     (* tree.GetRootHash *)
  GetProof : list NodeHash -> NodeHash -> result (list NodeHash);
  NodeHashString : NodeHash -> string;                (* NodeHash.String *)
  jsonUnmarshal : list byte -> result (list NodeReward);
  jsonMarshal : list NodeReward -> result (list byte);
  NodeRewardsFileNameAtEpoch : Z -> string;
  pathJoin : string -> string -> string
}.

(** The fields of [Service] that the task reads. *)
Record Service : Type := mkService {
  merkleRootDuEpochs : Z;
  latestBlockOfSyncBlock : Z;
  networkCreateBlock : Z;
  nodeRewardsFilePath : string;
  selfAddress : Address                (* s.keyPair.CommonAddress() *)
}.

(** What the chain, the beacon node and the storage answer during one run. *)
Record Env : Type := mkEnv {
  (** [s.connection.Eth2BeaconHead()]: the finalized epoch *)
  Eth2BeaconHead : result Z;
  (** [networkWithdrawContract.LatestMerkleRootEpoch(nil)] *)
  LatestMerkleRootEpoch : result Z;
  (** [s.getEpochStartBlocknumberWithCheck(epoch)] *)
  getEpochStartBlocknumberWithCheck : Z -> result Z;
  (** [FilterSetMerkleRoot(nil, [epoch])]: the [NodeRewardsFileCid] of the
      events the iterator yields *)
  FilterSetMerkleRoot : Z -> result (list string);
  (** [utils.DownloadWeb3File(cid, fileName)] *)
  DownloadWeb3File : string -> string -> result (list byte);
  (** [s.getNodeNewRewardsBetween(from, to)] *)
  getNodeNewRewardsBetween : Z -> Z -> result (gmap N NodeNewReward);
  (** [utils.UploadFileToWeb3Storage(client, bytes, path)]: the cid *)
  UploadFileToWeb3Storage : list byte -> string -> result string;
  (** [networkProposalContract.HasVoted(nil, proposalId, voter)] *)
  HasVoted : list byte -> Address -> result bool;
  (** [s.connection.LockAndUpdateTxOpts()] *)
  LockAndUpdateTxOpts : option error;
  (** [networkWithdrawContract.SetMerkleRoot(opts, epoch, root, cid)]: the
      hash of the submitted transaction *)
  SetMerkleRoot : Z -> list byte -> string -> result string;
  (** the execution client polled by [waitTxOk] *)
  client : WaitTx.EthClient
}.

(** *** A function body: it goes on with a value, returns, or panics *)

Inductive step (A : Type) : Type :=
| Next (a : A)
| Return (err : option error)
| Panic.
Arguments Next {A} a.
Arguments Return {A} err.
Arguments Panic {A}.

Definition M (A : Type) : Type := Trace -> step A * Trace.

Definition ret {A} (a : A) : M A := fun t => (Next a, t).

Definition bind {A B} (m : M A) (k : A -> M B) : M B :=
  fun t =>
    match m t with
    | (Next a, t') => k a t'
    | (Return e, t') => (Return e, t')
    | (Panic, t') => (Panic, t')
    end.

Definition returnWith {A} (err : option error) : M A := fun t => (Return err, t).
Definition lift {A} (s : step A) : M A := fun t => (s, t).
Definition emit (ev : Event) : M unit := fun t => (Next tt, t ++ [ev]).

(** [v, err := call; if err != nil { return err }] *)
Definition orReturn {A} (r : result A) : M A :=
  match r with
  | Ok v => ret v
  | Err e => returnWith (Some e)
  end.

(** The result of a call to a function: [None] when it panicked. *)
Definition finish (r : step (option error) * Trace) : option (option error) * Trace :=
  match r with
  | (Next e, t) => (Some e, t)
  | (Return e, t) => (Some e, t)
  | (Panic, t) => (None, t)
  end.

Notation "'doM' x <- c1 ;; c2" := (bind c1 (fun x => c2))
  (at level 10, x name, c1 at level 99, c2 at level 200, only parsing).
Notation "'doM' ' pat <- c1 ;; c2" :=
  (bind c1 (fun x => match x with pat => c2 end))
  (at level 10, pat pattern, c1 at level 99, c2 at level 200, only parsing).

(** *** pkg/utils/eth2.go: VoteMerkleRootProposalId *)

Definition byteOfN (n : N) : byte :=
  match Byte.of_N n with
  | Some b => b
  | None => Byte.x00
  end.

Fixpoint beBytes (fuel : nat) (n : N) (acc : list byte) : list byte :=
  match fuel with
  | O => acc
  | S fuel' =>
      if (n =? 0)%N then acc
      else beBytes fuel' (n / 256)%N (byteOfN (n mod 256)%N :: acc)
  end.

(** [big.Int.Bytes]: the absolute value, big-endian, no leading zero. *)
Definition BigIntBytes (z : Z) : list byte :=
  let n := Z.to_N (Z.abs z) in
  beBytes (N.to_nat (N.size n)) n [].

(** [common.LeftPadBytes(slice, l)] *)
Definition LeftPadBytes (slice : list byte) (l : nat) : list byte :=
  if (l <=? List.length slice)%nat then slice
  else List.repeat Byte.x00 (l - List.length slice) ++ slice.

(** [abi.encodePacked("setMerkleRoot", _dealedEpoch, _merkleRoot, _nodeRewardsFileCid)] *)
Definition VoteMerkleRootProposalId (L : Lib) (dealedEpoch : Z)
           (merkleRoot : list byte) (cid : string) : list byte :=
  Keccak256Hash L
    [ list_byte_of_string "setMerkleRoot";
      LeftPadBytes (BigIntBytes dealedEpoch) 32;
      merkleRoot;
      list_byte_of_string cid ].

(** [var h [32]byte; copy(h[:], rootHash)] *)
Definition copy32 (rootHash : list byte) : list byte :=
  let src := firstn 32 rootHash in
  src ++ List.repeat Byte.x00 (32 - List.length src).

Definition zero32 : list byte := List.repeat Byte.x00 32.

(** *** checkStateForSetMerkleRoot

    Returns [(dealedEpoch, targetEpoch, targetEth1Blocknumber, shouldGoNext,
    err)]; the outer [None] is the panic of a division by zero. *)
Definition checkStateForSetMerkleRoot (env : Env) (s : Service)
  : option (option Z * Z * Z * bool * option error) :=
  match Eth2BeaconHead env with
  | Err e => Some (None, 0, 0, false, Some e)
  | Ok finalizedEpoch =>
      match div64 finalizedEpoch (merkleRootDuEpochs s) with
      | None => None
      | Some q =>
          let targetEpoch := mul64 q (merkleRootDuEpochs s) in
          match LatestMerkleRootEpoch env with
          | Err e => Some (None, 0, 0, false, Some e)
          | Ok dealedEpochOnchain =>
              if targetEpoch <=? wrap64 dealedEpochOnchain
              then Some (None, 0, 0, false, None)
              else
                match getEpochStartBlocknumberWithCheck env targetEpoch with
                | Err e => Some (None, 0, 0, false, Some e)
                | Ok targetEth1BlockHeight =>
                    (* wait sync block *)
                    if latestBlockOfSyncBlock s <? targetEth1BlockHeight
                    then Some (None, 0, 0, false, None)
                    else Some (Some dealedEpochOnchain, targetEpoch,
                               targetEth1BlockHeight, true, None)
                end
          end
      end
  end.

(** *** buildMerkleTree *)

Definition leafHash (L : Lib) (data : NodeReward) : NodeHash :=
  GetNodeHash L (nrIndex data) (HexToAddress L (nrAddress data))
              (BigInt (nrTotalRewardAmount data))
              (BigInt (nrTotalExitDepositAmount data)).

Definition buildMerkleTree (L : Lib) (nodelist : list NodeReward)
  : result (list NodeHash) :=
  if (List.length nodelist =? 0)%nat then Err (Errorf "proof list empty")
  else Ok (List.map (leafHash L) nodelist).

(** *** The blocks of setMerkleRoot *)

(** Lines 212-243: the previous list and the block it was dealt at. *)
Definition loadPrevious (L : Lib) (env : Env) (s : Service) (dealedEpochOnchain : Z)
  : M (Z * list NodeReward) :=
  if 0 <? wrap64 dealedEpochOnchain then
    doM events <- orReturn (FilterSetMerkleRoot env dealedEpochOnchain) ;;
    match events with
    | [] => returnWith (Some (Errorf "SetMerkleRoot event not exit on target epoch %d"))
    | preCid :: _ =>
        doM fileBytes <- orReturn (DownloadWeb3File env preCid
                           (NodeRewardsFileNameAtEpoch L (wrap64 dealedEpochOnchain))) ;;
        doM preNodeRewardList <- orReturn (jsonUnmarshal L fileBytes) ;;
        doM dealedEth1BlockHeight <-
          orReturn (getEpochStartBlocknumberWithCheck env (wrap64 dealedEpochOnchain)) ;;
        ret (dealedEth1BlockHeight, preNodeRewardList)
    end
  else
    (* init case *)
    ret (networkCreateBlock s, []).

(** Lines 245-252: index the previous list by address, refusing duplicates. *)
Fixpoint indexPrevious (L : Lib) (preNodeRewardList : list NodeReward)
         (preNodeRewardMap : gmap N NodeReward) : step (gmap N NodeReward) :=
  match preNodeRewardList with
  | [] => Next preNodeRewardMap
  | nodeReward :: rest =>
      let address := HexToAddress L (nrAddress nodeReward) in
      match preNodeRewardMap !! address with
      | Some _ => Return (Some (Errorf "duplicate node address: %s"))
      | None => indexPrevious L rest (<[address := nodeReward]> preNodeRewardMap)
      end
  end.

(** The body shared by the two merge loops (lines 260-273 and 275-288). *)
Definition mergeNode (L : Lib) (finalNodeRewardsMap : gmap N NodeReward)
           (nodeAddress : string) (reward exitDeposit : Decimal) : gmap N NodeReward :=
  let address := HexToAddress L nodeAddress in
  match finalNodeRewardsMap !! address with
  | Some f =>
      <[address := mkNodeReward (nrAddress f) (nrIndex f)
                     (Add (nrTotalRewardAmount f) reward)
                     (Add (nrTotalExitDepositAmount f) exitDeposit)
                     (nrProof f)]> finalNodeRewardsMap
  | None =>
      <[address := mkNodeReward nodeAddress 0 reward exitDeposit EmptyString]>
        finalNodeRewardsMap
  end.

Definition mergePrevious (L : Lib) (preNodeRewardMap : gmap N NodeReward)
  : gmap N NodeReward :=
  fold_left (fun final node =>
               mergeNode L final (nrAddress node) (nrTotalRewardAmount node)
                         (nrTotalExitDepositAmount node))
            (List.map snd (map_to_list preNodeRewardMap)) ∅.

Definition mergeNew (L : Lib) (final : gmap N NodeReward)
           (newNodeRewardsMap : gmap N NodeNewReward) : gmap N NodeReward :=
  fold_left (fun final node =>
               mergeNode L final (nnAddress node) (nnTotalRewardAmount node)
                         (nnTotalExitDepositAmount node))
            (List.map snd (map_to_list newNodeRewardsMap)) final.

(** [sort.SliceStable] by [Address <]: a stable insertion sort. *)
Fixpoint insertByAddress (x : NodeReward) (l : list NodeReward) : list NodeReward :=
  match l with
  | [] => [x]
  | y :: l' =>
      if String.ltb (nrAddress y) (nrAddress x)
      then y :: insertByAddress x l'
      else x :: y :: l'
  end.

Definition sortByAddress (l : list NodeReward) : list NodeReward :=
  fold_right insertByAddress [] l.

(** [for i, node := range list { node.Index = uint32(i) }] *)
Fixpoint assignIndexFrom (i : nat) (l : list NodeReward) : list NodeReward :=
  match l with
  | [] => []
  | node :: rest =>
      mkNodeReward (nrAddress node) (Z.of_nat i mod 2 ^ 32)
                   (nrTotalRewardAmount node) (nrTotalExitDepositAmount node)
                   (nrProof node)
        :: assignIndexFrom (S i) rest
  end.

(** Lines 259-300: the final list. *)
Definition finalList (L : Lib) (preNodeRewardMap : gmap N NodeReward)
           (newNodeRewardsMap : gmap N NodeNewReward) : list NodeReward :=
  let finalNodeRewardsMap :=
    mergeNew L (mergePrevious L preNodeRewardMap) newNodeRewardsMap in
  let finalNodeRewardsList := List.map snd (map_to_list finalNodeRewardsMap) in
  assignIndexFrom 0 (sortByAddress finalNodeRewardsList).

(** Lines 315-332: the proof of every leaf. *)
Fixpoint calcProofs (L : Lib) (tree : list NodeHash) (l : list NodeReward)
  : step (list NodeReward) :=
  match l with
  | [] => Next []
  | nodeReward :: rest =>
      let nodeHash := leafHash L nodeReward in
      match GetProof L tree nodeHash with
      | Err err => Return (errors_Wrap (Some err) "tree.GetProof failed")
      | Ok proofList =>
          let err : option error := None in
          if (List.length proofList =? 0)%nat
          then Return (errors_Wrap err "tree.GetProof result empty")
          else
            let proofStrList := List.map (NodeHashString L) proofList in
            let nodeReward :=
              mkNodeReward (nrAddress nodeReward) (nrIndex nodeReward)
                           (nrTotalRewardAmount nodeReward)
                           (nrTotalExitDepositAmount nodeReward)
                           (String.concat ":" proofStrList) in
            match calcProofs L tree rest with
            | Next rest' => Next (nodeReward :: rest')
            | Return e => Return e
            | Panic => Panic
            end
      end
  end.

(** Lines 302-333: root hash and proofs, skipped for an empty list. *)
Definition rootAndProofs (L : Lib) (finalNodeRewardsList : list NodeReward)
  : M (NodeHash * list NodeReward) :=
  let rootHash : NodeHash := [] in
  if (0 <? List.length finalNodeRewardsList)%nat then
    doM tree <- orReturn (buildMerkleTree L finalNodeRewardsList) ;;
    doM rootHash <- orReturn (GetRootHash L tree) ;;
    doM finalNodeRewardsList <- lift (calcProofs L tree finalNodeRewardsList) ;;
    ret (rootHash, finalNodeRewardsList)
  else ret (rootHash, finalNodeRewardsList).

(** *** sendSetMerkleRootTx *)

(** Modelled from the spec: [s.waitTxOk] (the service's wrapper is not in the
    sources), section 4.5 "Operation WaitTxOk(hash)": the wait of
    [WaitTxOkCommon] on the connection's execution client, of which the
    caller keeps the error. *)
Definition waitTxOk (env : Env) (txHash : string) (t : Trace)
  : option (option error) * Trace :=
  match WaitTx.WaitTxOkCommon WaitTx.waitFuel (client env) txHash t with
  | Some (_, err, t') => (Some err, t')
  | None => (None, t)
  end.

Definition sendSetMerkleRootTx (env : Env) (targetEpoch : Z)
           (rootHash : list byte) (cid : string) (t : Trace)
  : option (option error) * Trace :=
  match LockAndUpdateTxOpts env with
  | Some _ => (Some (Some (Errorf "LockAndUpdateTxOpts err: %s")), t)
  | None =>
      let t := t ++ [EvLockTxOpts] in
      let '(r, t) :=
        match SetMerkleRoot env targetEpoch rootHash cid with
        | Err e => (Some (Some e), t ++ [EvSetMerkleRootTx targetEpoch rootHash cid None])
        | Ok txHash =>
            waitTxOk env txHash
                     (t ++ [EvSetMerkleRootTx targetEpoch rootHash cid (Some txHash)])
        end in
      (* defer s.connection.UnlockTxOpts() *)
      (r, t ++ [EvUnlockTxOpts])
  end.

(** *** setMerkleRoot *)

(** Lines 203-300: the state check, the previous list, the new rewards and
    the final list; goes on with the target epoch and the final list. *)
Definition collectFinalList (L : Lib) (env : Env) (s : Service)
  : M (Z * list NodeReward) :=
  doM '(dealedEpochOnchain, targetEpoch, targetEth1BlockHeight, shouldGoNext, err) <-
    lift (match checkStateForSetMerkleRoot env s with
          | Some r => Next r
          | None => Panic
          end) ;;
  match err with
  | Some _ => returnWith (errors_Wrap err "setMerkleRoot checkSyncState failed")
  | None =>
  if negb shouldGoNext then returnWith None else
  doM dealedEpochOnchain <-
    lift (match dealedEpochOnchain with Some d => Next d | None => Panic end) ;;
  doM '(dealedEth1BlockHeight, preNodeRewardList) <-
    loadPrevious L env s dealedEpochOnchain ;;
  doM preNodeRewardMap <- lift (indexPrevious L preNodeRewardList ∅) ;;
  doM newNodeRewardsMap <-
    orReturn (getNodeNewRewardsBetween env dealedEth1BlockHeight targetEth1BlockHeight) ;;
  (* got final list *)
  ret (targetEpoch, finalList L preNodeRewardMap newNodeRewardsMap)
  end.

(** Lines 335-360: the upload, the vote check and the vote. *)
Definition uploadAndVote (L : Lib) (env : Env) (s : Service) (targetEpoch : Z)
           (rootHash : NodeHash) (finalNodeRewardsList : list NodeReward)
  : M (option error) :=
  (* upload file *)
  doM fileBts <- orReturn (jsonMarshal L finalNodeRewardsList) ;;
  let filePath := pathJoin L (nodeRewardsFilePath s)
                           (NodeRewardsFileNameAtEpoch L targetEpoch) in
  doM _ <- emit (EvUploadFile fileBts filePath) ;;
  doM cid <- orReturn (UploadFileToWeb3Storage env fileBts filePath) ;;
  let merkleTreeRootHash := copy32 rootHash in
  (* check voted *)
  let proposalId :=
    VoteMerkleRootProposalId L (int64_of_u64 targetEpoch) merkleTreeRootHash cid in
  doM _ <- emit (EvHasVoted proposalId (selfAddress s)) ;;
  match HasVoted env proposalId (selfAddress s) with
  | Err _ => returnWith (Some (Errorf "networkProposalContract.HasVoted err: %s"))
  | Ok hasVoted =>
      if hasVoted then returnWith None
      else
        fun t =>
          match sendSetMerkleRootTx env (int64_of_u64 targetEpoch)
                                    merkleTreeRootHash cid t with
          | (Some e, t') => (Return e, t')
          | (None, t') => (Panic, t')
          end
  end.

Definition setMerkleRootBody (L : Lib) (env : Env) (s : Service) : M (option error) :=
  doM '(targetEpoch, finalNodeRewardsList) <- collectFinalList L env s ;;
  doM '(rootHash, finalNodeRewardsList) <- rootAndProofs L finalNodeRewardsList ;;
  uploadAndVote L env s targetEpoch rootHash finalNodeRewardsList.

(** One call of [setMerkleRoot]: the returned error ([None] the panic) and
    the trace it leaves. *)
Definition setMerkleRoot (L : Lib) (env : Env) (s : Service) (t : Trace)
  : option (option error) * Trace :=
  finish (setMerkleRootBody L env s t).

End MerkleRoot.

(** ** pkg/utils: the Merkle tree

    pkg/utils/merkle.go is not in the sources.  The tree is the one of
    section 4.2 of the specification, over a hash function [keccak] given as
    a parameter. *)

Module Merkle.
Import Go MerkleRoot.

(** Numeric comparison and equality of two hashes of the same length. *)
Fixpoint bytesLtb (a b : list byte) : bool :=
  match a, b with
  | x :: a', y :: b' =>
      if (Byte.to_N x <? Byte.to_N y)%N then true
      else if (Byte.to_N y <? Byte.to_N x)%N then false
      else bytesLtb a' b'
  | _, _ => false
  end.

Fixpoint bytesEqb (a b : list byte) : bool :=
  match a, b with
  | [], [] => true
  | x :: a', y :: b' => Byte.eqb x y && bytesEqb a' b'
  | _, _ => false
  end.

(** Modelled from the spec: section 4.2, "Parent hash =
    keccak(min(l,r) ‖ max(l,r))". *)
Definition parentHash (keccak : list (list byte) -> list byte) (l r : NodeHash)
  : NodeHash :=
  if bytesLtb r l then keccak [r; l] else keccak [l; r].

(** Modelled from the spec: section 4.2, "build a balanced binary tree; if
    the node count at a level is odd, the last node is promoted unchanged". *)
Fixpoint nextLevel (keccak : list (list byte) -> list byte) (level : list NodeHash)
  : list NodeHash :=
  match level with
  | l :: r :: rest => parentHash keccak l r :: nextLevel keccak rest
  | promoted => promoted
  end.

(** Modelled from the spec: section 4.2, "GetRootHash on an empty tree is an
    error"; else the only node of the last level. *)
Fixpoint specGetRootHash (keccak : list (list byte) -> list byte) (fuel : nat)
         (level : list NodeHash) : result NodeHash :=
  match level with
  | [] => Err (Errorf "empty tree")
  | [root] => Ok root
  | _ =>
      match fuel with
      | O => Err (Errorf "empty tree")
      | S fuel' => specGetRootHash keccak fuel' (nextLevel keccak level)
      end
  end.

Fixpoint indexOfLeaf (leaf : NodeHash) (level : list NodeHash) (i : nat) : option nat :=
  match level with
  | [] => None
  | h :: rest => if bytesEqb h leaf then Some i else indexOfLeaf leaf rest (S i)
  end.

(** Modelled from the spec: section 4.2, "the sibling hash at each level from
    leaf to root"; a promoted node has no sibling at its level. *)
Fixpoint siblingsFrom (keccak : list (list byte) -> list byte) (fuel : nat)
         (level : list NodeHash) (idx : nat) : list NodeHash :=
  match fuel with
  | O => []
  | S fuel' =>
      if (length level <=? 1)%nat then []
      else
        let sibling :=
          if Nat.even idx then nth_error level (S idx) else nth_error level (idx - 1) in
        match sibling with
        | Some h => [h]
        | None => []
        end ++ siblingsFrom keccak fuel' (nextLevel keccak level) (idx / 2)
  end.

(** Modelled from the spec: section 4.2, "GetProof(leaf) returns the sibling
    hash at each level from leaf to root; empty input is an error; a leaf not
    found is an error". *)
Definition specGetProof (keccak : list (list byte) -> list byte)
           (leaves : list NodeHash) (leaf : NodeHash) : result (list NodeHash) :=
  match leaves with
  | [] => Err (Errorf "empty tree")
  | _ =>
      match indexOfLeaf leaf leaves 0 with
      | None => Err (Errorf "leaf not found")
      | Some i => Ok (siblingsFrom keccak (length leaves) leaves i)
      end
  end.

End Merkle.

(** ** pkg/utils/utils.go: the other helpers *)

Module UtilsMore.
Import Go Utils.
Local Open Scope Z_scope.

(** *** ExecuteFns

    A [func() error] acts on the state of the program: it returns its error
    and the state it leaves. *)
Fixpoint ExecuteFns {S : Type} (fns : list (S -> option error * S)) (st : S)
  : option error * S :=
  match fns with
  | [] => (None, st)
  | fn :: rest =>
      match fn st with
      | (Some err, st') => (Some err, st')
      | (None, st') => ExecuteFns rest st'
      end
  end.

(** *** EventTopics

    [a.Events] maps an event name to the event, of which the code reads the
    [ID] (a [common.Hash]).  The topics slice is allocated at full length,
    zeroed, and filled by index. *)
Definition zeroHash : list byte := List.repeat Byte.x00 32.

Fixpoint fillTopics (Events : gmap string (list byte)) (names : list string)
         (i : nat) (topics : list (list byte)) : result (list (list byte)) :=
  match names with
  | [] => Ok topics
  | name :: rest =>
      match Events !! name with
      | None => Err (Errorf "event %s not exist in abi")
      | Some ID => fillTopics Events rest (S i) (<[i := ID]> topics)
      end
  end.

Definition EventTopics (Events : gmap string (list byte)) (names : list string)
  : result (list (list byte)) :=
  fillTopics Events names 0 (List.repeat zeroHash (List.length names)).

(** *** Symbol tables

    Indexing a Go map with a missing key gives the zero value, [false]. *)
Definition SymbolDot : string := "DOT".
Definition SymbolKsm : string := "KSM".
Definition SymbolAtom : string := "ATOM".
Definition SymbolEth : string := "ETH".
Definition SymbolFis : string := "FIS".

Definition symbolMap : gmap string bool :=
  <[SymbolDot := true]> (<[SymbolKsm := true]> (<[SymbolAtom := true]>
    (<[SymbolEth := true]> ∅))).

Definition priceSymbolMap : gmap string bool :=
  <[SymbolDot := true]> (<[SymbolKsm := true]> (<[SymbolAtom := true]>
    (<[SymbolEth := true]> (<[SymbolFis := true]> ∅)))).

Definition SymbolValid (symbol : string) : bool :=
  default false (symbolMap !! symbol).

Definition PriceSymbolValid (symbol : string) : bool :=
  default false (priceSymbolMap !! symbol).

(** *** GetDropRate

    [time.Parse(dayLayout, s)] with the layout "20060102" answers an error or
    midnight UTC of a day; the day is kept as its number, counted from a
    fixed day.  [Time.Sub] saturates at the largest and smallest
    [time.Duration] (an [int64] of nanoseconds). *)
Definition DropRate10 : string := "10000000000000000000".
Definition DropRate7 : string := "7000000000000000000".
Definition DropRate4 : string := "4000000000000000000".

Definition maxDuration : Z := 2 ^ 63 - 1.
Definition minDuration : Z := - 2 ^ 63.

Definition timeSub (day1 day2 : Z) : Z :=
  let d := (day1 - day2) * (86400 * 10 ^ 9) in
  if maxDuration <? d then maxDuration
  else if d <? minDuration then minDuration
  else d.

(** [Duration.Milliseconds]: [int64(d) / 1e6] *)
Definition Milliseconds (d : Z) : Z := Z.quot d (10 ^ 6).

Definition GetDropRate (Parse : string -> result Z) (startDayStr nowDayStr : string)
  : result string :=
  if String.ltb nowDayStr startDayStr then Ok "0"%string
  else
    match Parse startDayStr with
    | Err e => Err e
    | Ok startDay =>
        match Parse nowDayStr with
        | Err e => Err e
        | Ok nowDay =>
            let interDays := Z.quot (Milliseconds (timeSub nowDay startDay))
                                    (24 * 60 * 60 * 1000) in
            let switchDay := Z.rem interDays 30 + 1 in
            if (1 <=? switchDay) && (switchDay <=? 5) then Ok DropRate10
            else if (6 <=? switchDay) && (switchDay <=? 20) then Ok DropRate7
            else if (21 <=? switchDay) && (switchDay <=? 30) then Ok DropRate4
            else Err (Errorf "switchDay err:%d")
        end
    end.

(** *** AppendToFile

    What the file system answers to one call: the outcome of [os.MkdirAll],
    of [os.OpenFile] with [O_CREATE|O_APPEND|O_WRONLY] (the bytes the file
    holds, none when it has just been created) and of the buffered write,
    whose error comes back from [WriteString] or from [Flush]. *)
Record AppendView : Type := mkAppendView {
  mkdirAllA : option error;
  openAppend : result (list byte);
  writeErr : option error
}.

(** The returned error, and on success the bytes the file holds afterwards. *)
Definition AppendToFile (fs : AppendView) (content : string) : result (list byte) :=
  match mkdirAllA fs with
  | Some e => Err (ErrWrapped e "failed to create directory %s")
  | None =>
      match openAppend fs with
      | Err _ => Err (Errorf "failed to open file %s: %s")
      | Ok old =>
          match writeErr fs with
          | Some e => Err e
          | None => Ok (old ++ list_byte_of_string content)
          end
      end
  end.

End UtilsMore.

(** ** service: pruneBlocks *)

Module Prune.
Import Go Eth2 Utils.
Local Open Scope Z_scope.

(** The fields of [Service] that [pruneBlocks] reads and writes. *)
Record Service : Type := mkService {
  latestMerkleRootEpoch : Z;
  latestDistributePriorityFeeHeight : Z;
  latestDistributeWithdrawalsHeight : Z;
  minExecutionBlockHeight : Z;
  eth2Config : Eth2Config
}.

(** What the service's helpers and the chain answer during one call. *)
Record Env : Type := mkEnv {
  (** [s.getEpochStartBlocknumberWithCheck(epoch)] *)
  getEpochStartBlocknumberWithCheck : Z -> result Z;
  (** [s.currentCycleAndStartTimestamp()]: the cycle and its start time *)
  currentCycleAndStartTimestamp : result (Z * Z);
  (** [networkWithdrawContract.LatestDistributeWithdrawalsHeight(targetCall)],
      by the block number of the call options *)
  LatestDistributeWithdrawalsHeight : Z -> result Z
}.



End Prune.

(** ** pkg/utils/eth2.go: the other proposal identifiers *)

Module ProposalId.
Import MerkleRoot.
Local Open Scope Z_scope.

Section Ids.
(** [crypto.Keccak256Hash], of the byte slices it is given. *)
Variable Keccak256Hash : list (list byte) -> list byte.

Definition SubmitBalancesProposalId (_block _totalEth _rethSupply : Z) : list byte :=
  Keccak256Hash
    [ list_byte_of_string "submitBalances";
      LeftPadBytes (BigIntBytes _block) 32;
      LeftPadBytes (BigIntBytes _totalEth) 32;
      LeftPadBytes (BigIntBytes _rethSupply) 32 ].

Definition VoteWithdrawCredentialsProposalId (pubkey : list byte) : list byte :=
  Keccak256Hash [ list_byte_of_string "voteWithdrawCredentials"; pubkey ].

(** [_distributeType] is a [uint8]; [big.NewInt(int64(_distributeType))]
    keeps its value. *)
Definition DistributeProposalId (_distributeType : Z)
           (_dealedHeight _userAmount _nodeAmount _platformAmount
              _maxClaimableWithdrawIndex : Z) : list byte :=
  Keccak256Hash
    [ list_byte_of_string "distribute";
      LeftPadBytes (BigIntBytes _distributeType) 32;
      LeftPadBytes (BigIntBytes _dealedHeight) 32;
      LeftPadBytes (BigIntBytes _userAmount) 32;
      LeftPadBytes (BigIntBytes _nodeAmount) 32;
      LeftPadBytes (BigIntBytes _platformAmount) 32;
      LeftPadBytes (BigIntBytes _maxClaimableWithdrawIndex) 32 ].

End Ids.

End ProposalId.

(* ===================================================================== *)
(** * Part II. Properties                                                 *)
(* ===================================================================== *)

(** ** Epoch and slot arithmetic *)

Module Eth2Facts.
Import Go Eth2.
Local Open Scope Z_scope.


Lemma wrap64_small z : is_u64 z -> wrap64 z = z.
Proof. intros Hz. unfold wrap64. apply Z.mod_small. exact Hz. Qed.


(** Adding and then subtracting the genesis time cancels, also across a
    wrap-around of the sum. *)
Lemma sub64_add64_cancel x g : is_u64 x -> sub64 (add64 x g) g = x.
Proof.
  intros Hx. unfold sub64, add64, wrap64.
  rewrite Zminus_mod_idemp_l.
  replace (x + g - g) with x by lia.
  apply Z.mod_small. exact Hx.
Qed.

(** Without overflow the first slot of epoch [e] starts [e] whole epochs
    after genesis. *)
Lemma TimestampOfSlot_StartSlotOfEpoch cfg e :
  wf_config cfg -> is_u64 e ->
  0 < SecondsPerSlot cfg -> 0 < SlotsPerEpoch cfg ->
  SlotsPerEpoch cfg * e * SecondsPerSlot cfg < two64 ->
  TimestampOfSlot cfg (StartSlotOfEpoch cfg e)
  = add64 (SlotsPerEpoch cfg * e * SecondsPerSlot cfg) (GenesisTime cfg).
Proof.
  intros Hwf He Hs Hp Hno.
  unfold TimestampOfSlot, StartSlotOfEpoch, mul64.
  assert (Hse : is_u64 (SlotsPerEpoch cfg * e)).
  { unfold is_u64 in *. split; [nia | nia]. }
  rewrite (wrap64_small _ Hse).
  rewrite wrap64_small; [reflexivity |].
  unfold is_u64 in *. split; [nia | lia].
Qed.

Lemma epoch_roundtrip_value cfg e :
  wf_config cfg -> is_u64 e ->
  SecondsPerEpoch cfg = SecondsPerSlot cfg * SlotsPerEpoch cfg ->
  0 < SecondsPerEpoch cfg ->
  SlotsPerEpoch cfg * e * SecondsPerSlot cfg < two64 ->
  epoch_roundtrip cfg e = Some (add64 (GenesisEpoch cfg) e).
Proof.
  intros Hwf He Heq Hpos Hno.
  assert (Hwf' := Hwf).
  destruct Hwf' as (_ & _ & Hsps & Hspe & _).
  assert (Hs : 0 < SecondsPerSlot cfg) by (unfold is_u64 in *; nia).
  assert (Hp : 0 < SlotsPerEpoch cfg) by (unfold is_u64 in *; nia).
  unfold epoch_roundtrip, EpochAtTimestamp.
  rewrite TimestampOfSlot_StartSlotOfEpoch by assumption.
  rewrite sub64_add64_cancel by (unfold is_u64 in *; split; [nia | lia]).
  unfold div64.
  destruct (SecondsPerEpoch cfg =? 0) eqn:Hz; [apply Z.eqb_eq in Hz; lia |].
  f_equal. f_equal.
  rewrite Heq.
  replace (SlotsPerEpoch cfg * e * SecondsPerSlot cfg)
    with (e * (SecondsPerSlot cfg * SlotsPerEpoch cfg)) by lia.
  apply Z.div_mul. lia.
Qed.

(** C3 (as amended). For a configuration with [secondsPerEpoch =
    secondsPerSlot * slotsPerEpoch > 0] and an epoch [e] whose start time
    [slotsPerEpoch * e * secondsPerSlot] fits a [uint64], the round trip
    [EpochAtTimestamp(TimestampOfSlot(StartSlotOfEpoch(e)))] returns
    [genesisEpoch + e] (in [uint64] arithmetic); it returns [e] itself when
    [genesisEpoch = 0]. *)
Theorem epoch_roundtrip_shifts_by_genesis (cfg : Eth2Config) (e : Z) :
  wf_config cfg -> is_u64 e ->
  SecondsPerEpoch cfg = SecondsPerSlot cfg * SlotsPerEpoch cfg ->
  0 < SecondsPerEpoch cfg ->
  SlotsPerEpoch cfg * e * SecondsPerSlot cfg < two64 ->
  epoch_roundtrip cfg e = Some (wrap64 (GenesisEpoch cfg + e))
  /\ (GenesisEpoch cfg = 0 -> epoch_roundtrip cfg e = Some e).
Proof.
  intros Hwf He Heq Hpos Hno.
  pose proof (epoch_roundtrip_value cfg e Hwf He Heq Hpos Hno) as H.
  split; [exact H |].
  intros Hg. rewrite H. unfold add64. rewrite Hg. simpl.
  f_equal. apply wrap64_small. exact He.
Qed.

Lemma epoch_roundtrip_shifts_by_genesis_witness :
  epoch_roundtrip mainnet 250000 = Some (wrap64 (GenesisEpoch mainnet + 250000))
  /\ (GenesisEpoch mainnet = 0 -> epoch_roundtrip mainnet 250000 = Some 250000).
Proof.
  apply (epoch_roundtrip_shifts_by_genesis mainnet 250000).
  - unfold wf_config, is_u64, two64; simpl; lia.
  - unfold is_u64, two64; lia.
  - reflexivity.
  - reflexivity.
  - reflexivity.
Defined.

(** C3 as stated fails when the genesis epoch is not 0: with a genesis epoch
    of 1 (and mainnet's other parameters) epoch 1 comes back as epoch 2. *)
Lemma epoch_roundtrip_genesis1_counterexample :
  SecondsPerEpoch genesis1 = SecondsPerSlot genesis1 * SlotsPerEpoch genesis1
  /\ GenesisEpoch genesis1 <= 1
  /\ epoch_roundtrip genesis1 1 = Some 2
  /\ epoch_roundtrip genesis1 1 <> Some 1.
Proof.
  repeat split; try reflexivity; try (simpl; lia).
  vm_compute. discriminate.
Qed.

(** Two more inputs on which the stated round trip fails: an epoch whose
    start slot overflows, and a configuration without epoch length. *)
Example epoch_roundtrip_overflow :
  epoch_roundtrip mainnet (2 ^ 63) = Some 0.
Proof. reflexivity. Qed.

Example epoch_roundtrip_zero_epoch_length :
  epoch_roundtrip (mkEth2Config 0 1606824023 0 32 0) 5 = None.
Proof. reflexivity. Qed.

(** The sibling pair that does use the genesis epoch is an exact round trip. *)
Lemma EpochAtTimestamp_StartTimestampOfEpoch cfg e :
  wf_config cfg -> is_u64 e -> GenesisEpoch cfg <= e ->
  0 < SecondsPerEpoch cfg ->
  (e - GenesisEpoch cfg) * SecondsPerEpoch cfg < two64 ->
  EpochAtTimestamp cfg (StartTimestampOfEpoch cfg e) = Some e.
Proof.
  intros Hwf He Hge Hpos Hno.
  destruct Hwf as (Hg & _ & _ & _ & Hspe).
  unfold EpochAtTimestamp, StartTimestampOfEpoch, mul64.
  assert (Hd : is_u64 (e - GenesisEpoch cfg)) by (unfold is_u64 in *; lia).
  unfold sub64 at 2. rewrite (wrap64_small _ Hd).
  assert (Hm : is_u64 ((e - GenesisEpoch cfg) * SecondsPerEpoch cfg))
    by (unfold is_u64 in *; split; [nia | lia]).
  rewrite (wrap64_small _ Hm).
  rewrite sub64_add64_cancel by exact Hm.
  unfold div64.
  destruct (SecondsPerEpoch cfg =? 0) eqn:Hz; [apply Z.eqb_eq in Hz; lia |].
  rewrite Z.div_mul by lia.
  unfold add64. f_equal.
  replace (GenesisEpoch cfg + (e - GenesisEpoch cfg)) with e by lia.
  apply wrap64_small. exact He.
Qed.

End Eth2Facts.

(** ** ReadLastLine *)

Module ReadLastLineFacts.
Import Go Utils.
Local Open Scope Z_scope.

Lemma append_cons (a : ascii) (s t : string) :
  String.append (String a s) t = String a (String.append s t).
Proof. reflexivity. Qed.

Lemma append_empty_r (s : string) : String.append s EmptyString = s.
Proof.
  induction s as [| c s IH]; [reflexivity |].
  rewrite append_cons, IH. reflexivity.
Qed.

(** Prepending one byte to a line, seen from the byte list. *)
Lemma string_of_list_byte_snoc (l : list byte) (b : byte) (line : string) :
  (string_of_list_byte (l ++ [b]) ++ line)%string
  = (string_of_list_byte l ++ String (ascii_of_byte b) line)%string.
Proof.
  unfold string_of_list_byte.
  rewrite map_app. simpl map.
  induction (List.map ascii_of_byte l) as [| a la IH];
    cbn [app string_of_list_ascii].
  - reflexivity.
  - rewrite !append_cons, IH. reflexivity.
Qed.

Lemma lastTextLine_snoc_newline (l : list byte) (b : byte) :
  isNewline b = true -> lastTextLine (l ++ [b]) = [].
Proof.
  intros Hb. unfold lastTextLine. rewrite rev_app_distr. simpl.
  rewrite Hb. reflexivity.
Qed.

Lemma lastTextLine_snoc_other (l : list byte) (b : byte) :
  isNewline b = false -> lastTextLine (l ++ [b]) = lastTextLine l ++ [b].
Proof.
  intros Hb. unfold lastTextLine. rewrite rev_app_distr. simpl.
  rewrite Hb. reflexivity.
Qed.

Lemma seekEnd_readAt (front back : list byte) (b : byte) :
  seekEnd (front ++ b :: back) (- Z.of_nat (S (List.length back)))
  = Ok (Z.of_nat (List.length front))
  /\ readAt (front ++ b :: back) (Z.of_nat (List.length front)) = Ok b.
Proof.
  split.
  - unfold seekEnd. rewrite length_app. simpl.
    destruct (_ <? 0) eqn:E; [apply Z.ltb_lt in E; lia |].
    f_equal. lia.
  - unfold readAt. rewrite Nat2Z.id.
    rewrite nth_error_app2 by lia.
    replace (List.length front - List.length front)%nat with O by lia.
    reflexivity.
Qed.

(** The loop after its first iteration: with [back] already read into
    [line], it prepends the last textual line of [front]. *)
Lemma readLastLineLoop_rest (front : list byte) :
  forall (back : list byte) (line : string) (fuel : nat),
    front <> [] -> back <> [] ->
    (List.length front <= fuel)%nat ->
    readLastLineLoop fuel (front ++ back)
                     (Z.of_nat (List.length (front ++ back)))
                     (- Z.of_nat (List.length back)) line
    = Some (Ok (string_of_list_byte (lastTextLine front) ++ line)%string).
Proof.
  induction front as [| b front' IH] using rev_ind; intros back line fuel Hf Hb Hfuel.
  - congruence.
  - clear Hf. rewrite length_app in Hfuel. simpl in Hfuel.
    destruct fuel as [| fuel]; [lia |].
    rewrite <- app_assoc. simpl app.
    cbn [readLastLineLoop].
    replace (- Z.of_nat (List.length back) - 1)
      with (- Z.of_nat (S (List.length back))) by lia.
    destruct (seekEnd_readAt front' back b) as [Hseek Hread].
    rewrite Hseek, Hread.
    assert (Hc : (- Z.of_nat (S (List.length back)) =? -1) = false).
    { apply Z.eqb_neq. destruct back; [congruence | simpl List.length; lia]. }
    rewrite Hc. cbn [negb andb].
    fold (isNewline b).
    destruct (isNewline b) eqn:Hnl.
    + rewrite lastTextLine_snoc_newline by exact Hnl. reflexivity.
    + rewrite lastTextLine_snoc_other by exact Hnl.
      rewrite string_of_list_byte_snoc.
      destruct front' as [| a front''].
      * simpl app. simpl List.length.
        rewrite Z.eqb_refl. reflexivity.
      * assert (Hne : (- Z.of_nat (S (List.length back))
                       =? - Z.of_nat (List.length ((a :: front'') ++ b :: back))) = false).
        { apply Z.eqb_neq. rewrite length_app. simpl List.length. lia. }
        rewrite Hne.
        specialize (IH (b :: back) (String (ascii_of_byte b) line) fuel).
        simpl List.length in IH.
        rewrite <- IH; [reflexivity | congruence | congruence | simpl in Hfuel; lia].
Qed.

(** What [ReadLastLine] returns on a readable, non-empty file: the last
    byte, whatever it is, preceded by the last textual line of the rest. *)
Lemma ReadLastLine_nonempty (init : list byte) (last : byte) (fuel : nat) :
  (List.length init < fuel)%nat ->
  ReadLastLine fuel (fileOf (init ++ [last]))
  = Some (Ok (string_of_list_byte (lastTextLine init ++ [last]))).
Proof.
  intros Hfuel.
  unfold ReadLastLine, fileOf. cbn [mkdirAll openFile stat].
  destruct (Z.of_nat (List.length (init ++ [last])) =? 0) eqn:Hz.
  { apply Z.eqb_eq in Hz. rewrite length_app in Hz. simpl in Hz. lia. }
  destruct fuel as [| fuel]; [lia |].
  cbn [readLastLineLoop].
  destruct (seekEnd_readAt init [] last) as [Hseek Hread].
  change (0 - 1) with (- Z.of_nat (S (List.length (@nil byte)))).
  rewrite Hseek, Hread.
  change (- Z.of_nat (S (List.length (@nil byte))) =? -1) with true.
  cbn [negb andb].
  destruct init as [| a init'].
  - reflexivity.
  - assert (Hne : (- Z.of_nat (S (List.length (@nil byte)))
                   =? - Z.of_nat (List.length ((a :: init') ++ [last]))) = false).
    { apply Z.eqb_neq. rewrite length_app. simpl List.length. lia. }
    rewrite Hne.
    pose proof (readLastLineLoop_rest (a :: init') [last]
                  (String (ascii_of_byte last) EmptyString) fuel) as H.
    simpl List.length in H. simpl List.length.
    rewrite H; [| congruence | congruence | simpl in Hfuel; lia].
    f_equal. f_equal.
    rewrite <- (string_of_list_byte_snoc _ last EmptyString).
    apply append_empty_r.
Qed.

(** The bytes of the two-line file of the scenario, and its last line with
    the line feed that ends it. *)
Definition alphaBeta : list byte :=
  list_byte_of_string "alpha" ++ [LF] ++ list_byte_of_string "beta" ++ [LF].
Definition betaLF : string := String.append "beta" (String (ascii_of_byte LF) EmptyString).

(** C7 (as amended). On a file that ends in "alpha\nbeta\n" [ReadLastLine]
    returns "beta\n", the last line with its line feed; on an empty file it
    returns the empty string; on a file whose last byte is neither a line
    feed nor a carriage return it returns the last textual line.  In each
    case as many iterations as the file has bytes are enough. *)
Theorem ReadLastLine_last_line :
  (forall pre : list byte,
      ReadLastLine (List.length (pre ++ alphaBeta)) (fileOf (pre ++ alphaBeta))
      = Some (Ok betaLF))
  /\ (forall fuel : nat, ReadLastLine fuel (fileOf []) = Some (Ok EmptyString))
  /\ (forall (init : list byte) (last : byte),
         isNewline last = false ->
         ReadLastLine (List.length (init ++ [last])) (fileOf (init ++ [last]))
         = Some (Ok (string_of_list_byte (lastTextLine (init ++ [last]))))).
Proof.
  split; [| split].
  - intros pre.
    replace (pre ++ alphaBeta)
      with ((pre ++ list_byte_of_string "alpha" ++ [LF] ++ list_byte_of_string "beta") ++ [LF]).
    2:{ unfold alphaBeta. rewrite <- !app_assoc. reflexivity. }
    rewrite ReadLastLine_nonempty by (rewrite (length_app _ [LF]); simpl; lia).
    f_equal. f_equal.
    replace (pre ++ list_byte_of_string "alpha" ++ [LF] ++ list_byte_of_string "beta")
      with ((((((pre ++ list_byte_of_string "alpha") ++ [LF]) ++ ["b"%byte]) ++ ["e"%byte])
              ++ ["t"%byte]) ++ ["a"%byte]).
    2:{ rewrite <- !app_assoc. reflexivity. }
    rewrite !lastTextLine_snoc_other by reflexivity.
    rewrite lastTextLine_snoc_newline by reflexivity.
    reflexivity.
  - intros fuel. reflexivity.
  - intros init last Hlast.
    rewrite ReadLastLine_nonempty by (rewrite length_app; simpl; lia).
    rewrite lastTextLine_snoc_other by exact Hlast.
    reflexivity.
Qed.

Lemma ReadLastLine_last_line_witness :
  isNewline "a"%byte = false
  /\ ReadLastLine 10 (fileOf (list_byte_of_string "alpha" ++ [LF] ++ list_byte_of_string "beta"))
     = Some (Ok "beta"%string).
Proof.
  split; [reflexivity |].
  exact (proj2 (proj2 ReadLastLine_last_line)
           (list_byte_of_string "alpha" ++ [LF] ++ list_byte_of_string "bet")
           "a"%byte eq_refl).
Defined.

(** C7 as stated fails on its first case: the line feed that ends the file
    is part of the result. *)
Lemma ReadLastLine_keeps_trailing_newline_counterexample :
  ReadLastLine (List.length alphaBeta) (fileOf alphaBeta) = Some (Ok betaLF)
  /\ betaLF <> "beta"%string.
Proof.
  split; [reflexivity | discriminate].
Qed.

(** With CR LF line ends only the final line feed comes back. *)
Example ReadLastLine_crlf :
  ReadLastLine 12 (fileOf (list_byte_of_string "alpha" ++ [Byte.x0d; LF]
                           ++ list_byte_of_string "beta" ++ [Byte.x0d; LF]))
  = Some (Ok (String (ascii_of_byte LF) EmptyString)).
Proof. reflexivity. Qed.

End ReadLastLineFacts.

(** ** WaitTxOkCommon *)

Module WaitTxFacts.
Import Go Effects Utils WaitTx.

(** [events] of one phase: calls of one kind and sleeps of [RetryInterval]. *)
Definition pollingByHash (h : string) (e : Event) : Prop :=
  e = EvTransactionByHash h \/ e = EvSleep RetryInterval.
Definition pollingReceipt (h : string) (e : Event) : Prop :=
  e = EvTransactionReceipt h \/ e = EvSleep RetryInterval.

(** First index in [k, k + n) at which the transaction is known and not
    pending, and first index at which a receipt is present. *)
Fixpoint firstSettled (c : EthClient) (k n : nat) : option nat :=
  match n with
  | O => None
  | S n' =>
      match TransactionByHash c k with
      | Ok false => Some k
      | _ => firstSettled c (S k) n'
      end
  end.

Fixpoint firstReceipt (c : EthClient) (k n : nat) : option Receipt :=
  match n with
  | O => None
  | S n' =>
      match TransactionReceipt c k with
      | Ok r => Some r
      | Err _ => firstReceipt c (S k) n'
      end
  end.

Lemma count_app (p : Event -> bool) (a b : Trace) :
  count p (a ++ b) = (count p a + count p b)%nat.
Proof. unfold count. rewrite List.filter_app, length_app. reflexivity. Qed.

(** The receipt loop from retry [k]: it ends within the retry budget, with
    the first receipt present or the retry-limit error. *)
Lemma receiptLoop_spec (c : EthClient) (h : string) :
  forall (n k fuel : nat) (t : Trace),
    (k + n = S RetryLimit)%nat -> (n < fuel)%nat ->
    exists ev,
      receiptLoop fuel c h k t
      = Some (match firstReceipt c k n with
              | Some r => Ok r
              | None => Err (Errorf "TransactionReceipt %s reach retry limit")
              end, t ++ ev)
      /\ Forall (pollingReceipt h) ev
      /\ (count is_receipt ev <= n)%nat.
Proof.
  induction n as [| n IH]; intros k fuel t Hk Hfuel.
  - destruct fuel as [| fuel]; [lia |].
    exists []. cbn [receiptLoop firstReceipt].
    destruct (RetryLimit <? k)%nat eqn:E; [| apply Nat.ltb_ge in E; lia].
    rewrite app_nil_r. repeat split; [constructor | unfold count; simpl; lia].
  - destruct fuel as [| fuel]; [lia |].
    cbn [receiptLoop firstReceipt].
    destruct (RetryLimit <? k)%nat eqn:E; [apply Nat.ltb_lt in E; lia |].
    destruct (TransactionReceipt c k) as [r | e].
    + exists [EvTransactionReceipt h]. repeat split.
      * constructor; [left; reflexivity | constructor].
      * unfold count; simpl; lia.
    + destruct (IH (S k) fuel ((t ++ [EvTransactionReceipt h]) ++ [EvSleep RetryInterval]))
        as (ev & Hrun & Hall & Hcnt); [lia | lia |].
      exists ([EvTransactionReceipt h; EvSleep RetryInterval] ++ ev).
      rewrite Hrun. repeat split.
      * rewrite <- !app_assoc. reflexivity.
      * apply Forall_app. split; [| exact Hall].
        constructor; [left; reflexivity |].
        constructor; [right; reflexivity | constructor].
      * rewrite count_app. unfold count at 1. simpl. lia.
Qed.

(** Outcome of the wait once polling has ended. *)
Definition settledOutcome (c : EthClient) : Z * option error :=
  match firstReceipt c 0 (S RetryLimit) with
  | None => (0%Z, Some (Errorf "TransactionReceipt %s reach retry limit"))
  | Some r =>
      if (Status r =? 1)%Z then (wrap64 (BlockNumber r), None)
      else (0%Z, Some (Errorf "tx %s failed"))
  end.

Definition waitOutcome (c : EthClient) (k n : nat) : Z * option error :=
  match firstSettled c k n with
  | None => (0%Z, Some (Errorf "waitTx %s reach retry limit"))
  | Some _ => settledOutcome c
  end.

Lemma waitLoop_spec (c : EthClient) (h : string) :
  forall (n k fuel : nat) (t : Trace),
    (k + n = S RetryLimit)%nat -> (n < fuel)%nat ->
    exists ev1 ev2,
      waitLoop fuel c h k t = Some (waitOutcome c k n, t ++ ev1 ++ ev2)
      /\ Forall (pollingByHash h) ev1
      /\ Forall (pollingReceipt h) ev2
      /\ (count is_by_hash ev1 <= n)%nat
      /\ (count is_receipt ev2 <= S RetryLimit)%nat.
Proof.
  induction n as [| n IH]; intros k fuel t Hk Hfuel.
  - destruct fuel as [| fuel]; [lia |].
    exists [], []. cbn [waitLoop].
    destruct (RetryLimit <? k)%nat eqn:E; [| apply Nat.ltb_ge in E; lia].
    rewrite !app_nil_r.
    repeat split; try constructor; unfold count; simpl; lia.
  - destruct fuel as [| fuel]; [lia |].
    cbn [waitLoop]. unfold waitOutcome. cbn [firstSettled].
    destruct (RetryLimit <? k)%nat eqn:E; [apply Nat.ltb_lt in E; lia |].
    assert (Hretry :
      exists ev1 ev2,
        waitLoop fuel c h (S k) ((t ++ [EvTransactionByHash h]) ++ [EvSleep RetryInterval])
        = Some (waitOutcome c (S k) n, t ++ ev1 ++ ev2)
        /\ Forall (pollingByHash h) ev1 /\ Forall (pollingReceipt h) ev2
        /\ (count is_by_hash ev1 <= S n)%nat
        /\ (count is_receipt ev2 <= S RetryLimit)%nat).
    { destruct (IH (S k) fuel ((t ++ [EvTransactionByHash h]) ++ [EvSleep RetryInterval]))
        as (ev1 & ev2 & Hrun & H1 & H2 & Hc1 & Hc2); [lia | lia |].
      exists ([EvTransactionByHash h; EvSleep RetryInterval] ++ ev1), ev2.
      rewrite Hrun. repeat split.
      - rewrite <- !app_assoc. reflexivity.
      - apply Forall_app. split; [| exact H1].
        constructor; [left; reflexivity |].
        constructor; [right; reflexivity | constructor].
      - exact H2.
      - rewrite count_app. unfold count at 1. simpl. lia.
      - exact Hc2. }
    destruct (TransactionByHash c k) as [[|] | e]; try exact Hretry.
    clear Hretry IH.
    destruct (receiptLoop_spec c h (S RetryLimit) 0 (S (S RetryLimit))
                (t ++ [EvTransactionByHash h])) as (ev & Hrun & Hall & Hcnt);
      [lia | lia |].
    exists [EvTransactionByHash h], ev.
    rewrite Hrun. unfold settledOutcome.
    split.
    { destruct (firstReceipt c 0 (S RetryLimit)) as [r |].
      - destruct (Status r =? 1)%Z; rewrite <- app_assoc; reflexivity.
      - rewrite <- app_assoc; reflexivity. }
    repeat split.
    + constructor; [left; reflexivity | constructor].
    + exact Hall.
    + unfold count; simpl; lia.
    + exact Hcnt.
Qed.

(** The wait always terminates within [waitFuel] iterations of the outer loop. *)
Lemma WaitTxOkCommon_total (c : EthClient) (h : string) (t : Trace) :
  exists r, WaitTxOkCommon waitFuel c h t = Some r.
Proof.
  destruct (waitLoop_spec c h (S RetryLimit) 0 waitFuel t)
    as (ev1 & ev2 & Hrun & _); [lia | unfold waitFuel; lia |].
  unfold WaitTxOkCommon. rewrite Hrun.
  destruct (waitOutcome c 0 (S RetryLimit)) as [bn [e |]]; eexists; reflexivity.
Qed.


(** A client that reports the transaction pending once and then mined in
    block 77 with status 1, and one whose receipt has status 0. *)
Definition minedClient : EthClient :=
  mkEthClient (fun i => match i with O => Ok true | _ => Ok false end)
              (fun i => match i with O => Err (ErrExternal 404)
                                | _ => Ok (mkReceipt 1 77) end).
Definition revertedClient : EthClient :=
  mkEthClient (fun _ => Ok false) (fun _ => Ok (mkReceipt 0 78)).

Example WaitTxOkCommon_mined :
  WaitTxOkCommon waitFuel minedClient "0xabc" []
  = Some (77%Z, None,
          [EvTransactionByHash "0xabc"; EvSleep 6; EvTransactionByHash "0xabc";
           EvTransactionReceipt "0xabc"; EvSleep 6; EvTransactionReceipt "0xabc"]).
Proof. vm_compute. reflexivity. Qed.

Example WaitTxOkCommon_reverted :
  WaitTxOkCommon waitFuel revertedClient "0xabc" []
  = Some (0%Z, Some (Errorf "tx %s failed"),
          [EvTransactionByHash "0xabc"; EvTransactionReceipt "0xabc"; EvShutdownRequest]).
Proof. vm_compute. reflexivity. Qed.

End WaitTxFacts.

(** ** The service manager *)

Module ManagerFacts.
Import Go Effects Manager.

(** Everything but [Contracts.LsdTokenAddress] agrees. *)
Definition sameButLsdToken (c c' : Config) : Prop :=
  Eth1Endpoint c' = Eth1Endpoint c
  /\ Eth2Endpoint c' = Eth2Endpoint c
  /\ GasLimit c' = GasLimit c
  /\ MaxGasPrice c' = MaxGasPrice c
  /\ RunForEntrustedLsdNetwork c' = RunForEntrustedLsdNetwork c
  /\ LsdFactoryAddress (Contracts c') = LsdFactoryAddress (Contracts c).

Lemma setLsdTokenAddress_spec (c : Config) (lsdToken : string) :
  LsdTokenAddress (Contracts (setLsdTokenAddress c lsdToken)) = lsdToken
  /\ sameButLsdToken c (setLsdTokenAddress c lsdToken).
Proof. unfold sameButLsdToken. simpl. repeat split. Qed.

(** The effect of one call, by its outcome. *)
Lemma newAndStartServiceFor_inv (env : Env) (st : State) (lsdToken : string)
      (r : result Service) (st' : State) :
  newAndStartServiceFor env st lsdToken = Some (r, st') ->
  exists c,
    heap st !! cfg st = Some c
    /\ cfg st' = cfg st
    /\ heap st' = <[fresh (dom (heap st)) := setLsdTokenAddress c lsdToken]> (heap st)
    /\ match r with
       | Ok srv =>
           NewService env (setLsdTokenAddress c lsdToken) = None
           /\ Start env (setLsdTokenAddress c lsdToken) = None
           /\ srv = mkService (nextSrv st) (fresh (dom (heap st)))
           /\ srvs st' = <[lsdToken := srv]> (srvs st)
           /\ nextSrv st' = S (nextSrv st)
           /\ trace st' = trace st ++ [EvServiceStart (srvId srv)]
       | Err _ =>
           srvs st' = srvs st /\ trace st' = trace st
           /\ nextSrv st <= nextSrv st'
       end.
Proof.
  unfold newAndStartServiceFor.
  destruct (heap st !! cfg st) as [c |] eqn:Hc; [| discriminate].
  cbn [cfg heap srvs nextSrv trace].
  destruct (NewService env (setLsdTokenAddress c lsdToken)) eqn:Hnew.
  - intros [= <- <-]. exists c. cbn. repeat split; auto.
  - destruct (Start env (setLsdTokenAddress c lsdToken)) eqn:Hstart.
    + intros [= <- <-]. exists c. cbn. repeat split; auto.
    + intros [= <- <-]. exists c. cbn. repeat split; auto.
Qed.

(** C10. [newAndStartServiceFor] hands [NewService] a copy of the manager's
    configuration in which [Contracts.LsdTokenAddress] is the given token
    and every other field is as in the manager's; the copy lives at a
    location of its own, and the manager's configuration, like everything
    else already in memory, is unchanged by the call, whatever its
    outcome. *)
Theorem newAndStartServiceFor_copies_config
        (env : Env) (st : State) (lsdToken : string) (c : Config) :
  heap st !! cfg st = Some c ->
  exists (r : result Service) (st' : State),
    newAndStartServiceFor env st lsdToken = Some (r, st')
    /\ cfg st' = cfg st
    /\ heap st' !! cfg st' = Some c
    /\ (forall p c0, heap st !! p = Some c0 -> heap st' !! p = Some c0)
    /\ (r = match NewService env (setLsdTokenAddress c lsdToken),
                  Start env (setLsdTokenAddress c lsdToken) with
            | Some _, _ => Err (Errorf "new service for lsd token %s err %s")
            | None, Some _ => Err (Errorf "start service for lsd token %s err %s")
            | None, None => Ok (mkService (nextSrv st) (fresh (dom (heap st))))
            end)
    /\ (forall srv, r = Ok srv ->
          heap st !! srvCfg srv = None
          /\ heap st' !! srvCfg srv = Some (setLsdTokenAddress c lsdToken)
          /\ srvs st' !! lsdToken = Some srv)
    /\ LsdTokenAddress (Contracts (setLsdTokenAddress c lsdToken)) = lsdToken
    /\ sameButLsdToken c (setLsdTokenAddress c lsdToken).
Proof.
  intros Hc.
  destruct (newAndStartServiceFor env st lsdToken) as [[r st'] |] eqn:Hrun.
  2:{ unfold newAndStartServiceFor in Hrun. rewrite Hc in Hrun.
      destruct (NewService env _); [discriminate |].
      destruct (Start env _); discriminate. }
  exists r, st'. split; [reflexivity |].
  pose proof (is_fresh (dom (heap st))) as Hfresh.
  assert (Hnone : heap st !! fresh (dom (heap st)) = None).
  { apply not_elem_of_dom. exact Hfresh. }
  assert (Hrun' := Hrun).
  apply newAndStartServiceFor_inv in Hrun as (c' & Hc' & Hcfg & Hheap & Hr).
  rewrite Hc in Hc'. injection Hc' as <-.
  assert (Hkeep : forall p c0, heap st !! p = Some c0 -> heap st' !! p = Some c0).
  { intros p c0 Hp. rewrite Hheap.
    rewrite lookup_insert_ne; [exact Hp |].
    intros Heq. rewrite <- Heq in Hp. congruence. }
  split; [exact Hcfg |].
  split; [rewrite Hcfg; apply Hkeep; exact Hc |].
  split; [exact Hkeep |].
  split.
  { unfold newAndStartServiceFor in Hrun'. rewrite Hc in Hrun'.
    cbn [cfg heap srvs nextSrv trace] in Hrun'.
    destruct (NewService env (setLsdTokenAddress c lsdToken));
      [injection Hrun' as <- _; reflexivity |].
    destruct (Start env (setLsdTokenAddress c lsdToken));
      injection Hrun' as <- _; reflexivity. }
  split.
  { intros srv ->. destruct Hr as (_ & _ & -> & Hsrvs & _).
    cbn [srvCfg]. split; [exact Hnone |].
    split; [rewrite Hheap; apply lookup_insert_eq |].
    rewrite Hsrvs. apply lookup_insert_eq. }
  apply setLsdTokenAddress_spec.
Qed.

(** A manager configured for token "0xT0", on entrusted networks. *)
Definition cfg0 : Config :=
  mkConfig "http://eth1" "http://eth2" "3000000" "600" true
           (mkContracts "0xT0" "0xFactory").
Definition envOk (tokens : list N) : Env :=
  mkEnv None (Ok tokens)
        (fun a => String.append "0xT" (String (ascii_of_N (48 + a)) EmptyString))
        (fun _ => None) (fun _ => None).
Definition st0 : State := mkState 0 {[ 0%nat := cfg0 ]} ∅ 0 [].

Lemma newAndStartServiceFor_copies_config_witness :
  heap st0 !! cfg st0 = Some cfg0
  /\ exists (r : result Service) (st' : State),
      newAndStartServiceFor (envOk []) st0 "0xT1" = Some (r, st')
      /\ heap st' !! cfg st' = Some cfg0.
Proof.
  assert (H : heap st0 !! cfg st0 = Some cfg0) by reflexivity.
  split; [exact H |].
  destruct (newAndStartServiceFor_copies_config (envOk []) st0 "0xT1" cfg0 H)
    as (r & st' & Hrun & _ & Hcfg & _).
  exists r, st'. split; [exact Hrun | exact Hcfg].
Defined.

(** *** Reconciliation *)

(** Service identities are below the allocation counter and pairwise
    distinct. *)
Definition wfState (st : State) : Prop :=
  (forall t srv, srvs st !! t = Some srv -> srvId srv < nextSrv st)
  /\ (forall t1 t2 s1 s2,
         srvs st !! t1 = Some s1 -> srvs st !! t2 = Some s2 ->
         srvId s1 = srvId s2 -> t1 = t2).

Lemma Contains_In (tokenList : list string) (token : string) :
  Contains tokenList token = true <-> In token tokenList.
Proof.
  unfold Contains. rewrite existsb_exists. split.
  - intros (x & Hx & Heq). apply String.eqb_eq in Heq. subst. exact Hx.
  - intros H. exists token. split; [exact H | apply String.eqb_refl].
Qed.

Definition startEventFrom (n : nat) (e : Event) : Prop :=
  exists i, e = EvServiceStart i /\ n <= i.

Lemma startMissing_spec (env : Env) (tokenList : list string) :
  forall st st',
    startMissing env tokenList st = Some (None, st') ->
    wfState st ->
    exists ev,
      trace st' = trace st ++ ev
      /\ Forall (startEventFrom (nextSrv st)) ev
      /\ wfState st'
      /\ nextSrv st <= nextSrv st'
      /\ (forall t, In t tokenList -> is_Some (srvs st' !! t))
      /\ (forall t srv, srvs st !! t = Some srv -> srvs st' !! t = Some srv)
      /\ (forall t srv, srvs st' !! t = Some srv -> srvs st !! t = None ->
            In t tokenList /\ nextSrv st <= srvId srv
            /\ In (EvServiceStart (srvId srv)) ev).
Proof.
  induction tokenList as [| token rest IH]; intros st st' Hrun Hwf.
  - injection Hrun as <-. exists []. rewrite app_nil_r.
    split; [reflexivity |]. split; [constructor |].
    split; [exact Hwf |]. split; [lia |].
    split; [intros t [] |]. split; [auto |].
    intros t srv H1 H2. congruence.
  - cbn [startMissing] in Hrun.
    destruct (srvs st !! token) as [srv0 |] eqn:Htok.
    + destruct (IH st st' Hrun Hwf) as (ev & Htr & Hall & Hwf' & Hn & Hin & Hkeep & Hnew).
      exists ev. repeat split; try assumption; try apply Hwf'.
      * intros t [<- | Ht]; [| apply Hin; exact Ht].
        exists srv0. apply Hkeep. exact Htok.
      * right. apply (Hnew t srv); assumption.
      * apply (Hnew t srv); assumption.
      * apply (Hnew t srv); assumption.
    + destruct (newAndStartServiceFor env st token) as [[[srv | e] st1] |] eqn:Hnas;
        [| discriminate | discriminate].
      apply newAndStartServiceFor_inv in Hnas as (c & _ & _ & _ & Hr).
      destruct Hr as (_ & _ & Hsrv & Hsrvs & Hnext & Htrace).
      assert (Hid : srvId srv = nextSrv st) by (subst srv; reflexivity).
      assert (Hwf1 : wfState st1).
      { destruct Hwf as [Hlt Hinj]. split.
        - intros t s Hs. rewrite Hsrvs in Hs. rewrite Hnext.
          destruct (decide (token = t)) as [-> | Hne].
          + rewrite lookup_insert_eq in Hs. injection Hs as <-. lia.
          + rewrite lookup_insert_ne in Hs by exact Hne.
            specialize (Hlt t s Hs). lia.
        - intros t1 t2 s1 s2 H1 H2 Heq. rewrite Hsrvs in H1, H2.
          destruct (decide (token = t1)) as [<- | Hne1];
            destruct (decide (token = t2)) as [<- | Hne2]; try reflexivity.
          + rewrite lookup_insert_eq in H1. injection H1 as <-.
            rewrite lookup_insert_ne in H2 by exact Hne2.
            specialize (Hlt t2 s2 H2). lia.
          + rewrite lookup_insert_eq in H2. injection H2 as <-.
            rewrite lookup_insert_ne in H1 by exact Hne1.
            specialize (Hlt t1 s1 H1). lia.
          + rewrite lookup_insert_ne in H1 by exact Hne1.
            rewrite lookup_insert_ne in H2 by exact Hne2.
            exact (Hinj t1 t2 s1 s2 H1 H2 Heq). }
      destruct (IH st1 st' Hrun Hwf1) as (ev & Htr & Hall & Hwf' & Hn & Hin & Hkeep & Hnew).
      assert (Hsrv1 : srvs st' !! token = Some srv).
      { apply Hkeep. rewrite Hsrvs. apply lookup_insert_eq. }
      exists ([EvServiceStart (srvId srv)] ++ ev).
      split; [rewrite Htr, Htrace, <- app_assoc; reflexivity |].
      split.
      { apply Forall_app. split.
        - constructor; [| constructor]. exists (srvId srv). split; [reflexivity | lia].
        - eapply Forall_impl; [exact Hall |].
          intros e (i & -> & Hi). exists i. split; [reflexivity | lia]. }
      split; [exact Hwf' |].
      split; [lia |].
      split.
      { intros t [<- | Ht]; [exists srv; exact Hsrv1 | apply Hin; exact Ht]. }
      split.
      { intros t s Hs. apply Hkeep. rewrite Hsrvs.
        rewrite lookup_insert_ne; [exact Hs |]. intros ->. congruence. }
      intros t s Hs Hnone.
      destruct (decide (token = t)) as [<- | Hne].
      * rewrite Hsrv1 in Hs. injection Hs as <-.
        split; [left; reflexivity |]. split; [lia |]. left. reflexivity.
      * assert (H1 : srvs st1 !! t = None).
        { rewrite Hsrvs. rewrite lookup_insert_ne by exact Hne. exact Hnone. }
        destruct (Hnew t s Hs H1) as (Hi & Hge & Hev).
        split; [right; exact Hi |]. split; [lia |]. right. exact Hev.
Qed.

(** The stop events of a [Range] over the entries [l]. *)
Definition stopEvents (tokenList : list string) (l : list (string * Service)) : Trace :=
  List.map (fun p => EvServiceStop (srvId (snd p)))
           (List.filter (fun p => negb (Contains tokenList (fst p))) l).

Lemma foldStop_spec (tokenList : list string) (l : list (string * Service)) :
  forall st,
    let st' := fold_left (stopUnlisted tokenList) l st in
    trace st' = trace st ++ stopEvents tokenList l
    /\ nextSrv st' = nextSrv st
    /\ (forall t, Contains tokenList t = true -> srvs st' !! t = srvs st !! t)
    /\ (forall t, ~ In t (List.map fst l) -> srvs st' !! t = srvs st !! t)
    /\ (forall t, In t (List.map fst l) -> Contains tokenList t = false ->
          srvs st' !! t = None).
Proof.
  induction l as [| [token srv] l IH]; intros st; cbn zeta.
  - cbn [fold_left]. unfold stopEvents. simpl. rewrite app_nil_r.
    repeat split; auto. intros t [].
  - cbn [fold_left].
    destruct (IH (stopUnlisted tokenList st (token, srv)))
      as (Htr & Hnx & Hlisted & Hout & Hin).
    unfold stopEvents in *. cbn [List.filter fst snd List.map] in *.
    unfold stopUnlisted in *.
    destruct (Contains tokenList token) eqn:Hc; cbn [negb] in *.
    + split; [exact Htr |]. split; [exact Hnx |].
      split; [exact Hlisted |].
      split.
      * intros t Ht. apply Hout. intros Hi. apply Ht. right. exact Hi.
      * intros t [<- | Ht] Hf; [congruence | apply Hin; assumption].
    + cbn [trace srvs nextSrv List.map] in *.
      split; [rewrite Htr, <- app_assoc; reflexivity |].
      split; [exact Hnx |].
      split.
      * intros t Ht. rewrite (Hlisted t Ht).
        apply lookup_delete_ne. intros ->. congruence.
      * split.
        -- intros t Ht. rewrite Hout by (intros Hi; apply Ht; right; exact Hi).
           apply lookup_delete_ne. intros ->. apply Ht. left. reflexivity.
        -- intros t Ht Hf.
           destruct (in_dec String.string_dec t (List.map fst l)) as [Hl | Hl].
           ++ apply Hin; assumption.
           ++ rewrite Hout by exact Hl.
              destruct Ht as [<- | Ht]; [apply lookup_delete_eq | contradiction].
Qed.

Lemma rangeStop_spec (tokenList : list string) (st : State) :
  let st' := rangeStop tokenList st in
  trace st' = trace st ++ stopEvents tokenList (map_to_list (srvs st))
  /\ (forall t, srvs st' !! t
                = if Contains tokenList t then srvs st !! t else None).
Proof.
  cbn zeta. unfold rangeStop.
  destruct (foldStop_spec tokenList (map_to_list (srvs st)) st)
    as (Htr & _ & Hlisted & Hout & Hin).
  split; [exact Htr |].
  intros t. destruct (Contains tokenList t) eqn:Hc.
  - apply Hlisted. exact Hc.
  - destruct (srvs st !! t) as [srv |] eqn:Ht.
    + apply Hin; [| exact Hc].
      apply in_map_iff. exists (t, srv). split; [reflexivity |].
      apply list_elem_of_In. apply elem_of_map_to_list. exact Ht.
    + rewrite Hout; [exact Ht |].
      intros Hi. apply in_map_iff in Hi as ([t' srv] & Heq & Hi).
      simpl in Heq. subst t'.
      apply list_elem_of_In, elem_of_map_to_list in Hi. congruence.
Qed.

Lemma In_stopEvents (tokenList : list string) (m : gmap string Service) (e : Event) :
  In e (stopEvents tokenList (map_to_list m))
  <-> exists t srv, m !! t = Some srv /\ Contains tokenList t = false
                    /\ e = EvServiceStop (srvId srv).
Proof.
  unfold stopEvents. rewrite in_map_iff. split.
  - intros ([t srv] & <- & Hin). apply List.filter_In in Hin as [Hin Hc].
    exists t, srv. cbn in *.
    split; [apply elem_of_map_to_list, list_elem_of_In; exact Hin |].
    split; [destruct (Contains tokenList t); [discriminate | reflexivity] | reflexivity].
  - intros (t & srv & Hm & Hc & ->). exists (t, srv). split; [reflexivity |].
    apply List.filter_In. cbn. split.
    + apply list_elem_of_In, elem_of_map_to_list. exact Hm.
    + rewrite Hc. reflexivity.
Qed.

(** C8. After a pass of [syncEntrustedLsdTokens] that returns no error and
    in which the factory returned the tokens [S], the keys of the services
    map are exactly [S]: a service was started (and stored) for every token
    of [S] that had none, every service whose token is not in [S] was
    stopped and deleted, and a service whose token is in [S] is still the
    same service, neither stopped nor started again. *)
Theorem syncEntrustedLsdTokens_reconciles
        (env : Env) (st st' : State) (tokens : list N) :
  wfState st ->
  GetEntrustedLsdTokens env = Ok tokens ->
  syncEntrustedLsdTokens env st = Some (None, st') ->
  let S := List.map (addressString env) tokens in
  exists ev,
    trace st' = trace st ++ ev
    /\ dom (srvs st') = list_to_set S
    /\ (forall t, In t S -> srvs st !! t = None ->
          exists srv, srvs st' !! t = Some srv
                      /\ In (EvServiceStart (srvId srv)) ev
                      /\ ~ In (EvServiceStop (srvId srv)) ev)
    /\ (forall t srv, srvs st !! t = Some srv -> ~ In t S ->
          srvs st' !! t = None /\ In (EvServiceStop (srvId srv)) ev)
    /\ (forall t srv, srvs st !! t = Some srv -> In t S ->
          srvs st' !! t = Some srv
          /\ ~ In (EvServiceStop (srvId srv)) ev
          /\ ~ In (EvServiceStart (srvId srv)) ev).
Proof.
  intros Hwf Htok Hrun S.
  unfold syncEntrustedLsdTokens in Hrun. rewrite Htok in Hrun.
  destruct (NewLsdNetworkFactory env); [discriminate |].
  fold S in Hrun.
  destruct (startMissing env S st) as [[[e |] st1] |] eqn:Hstart;
    [discriminate | | discriminate].
  injection Hrun as <-.
  destruct (startMissing_spec env S st st1 Hstart Hwf)
    as (ev1 & Htr1 & Hall1 & Hwf1 & Hn1 & Hin1 & Hkeep1 & Hnew1).
  pose proof (rangeStop_spec S st1) as Hrange. cbn zeta in Hrange.
  destruct Hrange as [Htr2 Hlook].
  set (ev2 := stopEvents S (map_to_list (srvs st1))) in *.
  assert (Hnostart : forall e, In e ev2 -> forall i, e <> EvServiceStart i).
  { intros e He i ->. apply In_stopEvents in He as (? & ? & _ & _ & ?). discriminate. }
  assert (Hnostop : forall e, In e ev1 -> forall i, e <> EvServiceStop i).
  { intros e He i ->. rewrite List.Forall_forall in Hall1.
    destruct (Hall1 _ He) as (? & ? & _). discriminate. }
  (* a service kept in the map is not stopped *)
  assert (Hkept : forall t srv, srvs st1 !! t = Some srv -> In t S ->
                    ~ In (EvServiceStop (srvId srv)) (ev1 ++ ev2)).
  { intros t srv Ht Hi Hev. apply in_app_or in Hev as [Hev | Hev].
    - exact (Hnostop _ Hev _ eq_refl).
    - apply In_stopEvents in Hev as (t' & srv' & Ht' & Hc & Heq).
      injection Heq as Heq.
      destruct Hwf1 as [_ Hinj].
      assert (t = t') by (eapply Hinj; eauto). subst t'.
      apply Contains_In in Hi. congruence. }
  exists (ev1 ++ ev2).
  split; [rewrite Htr2, Htr1, <- app_assoc; reflexivity |].
  split.
  { apply set_eq. intros t. rewrite elem_of_dom, elem_of_list_to_set, list_elem_of_In.
    rewrite Hlook. split.
    - destruct (Contains S t) eqn:Hc; [intros _; apply Contains_In; exact Hc |].
      intros [? ?]; discriminate.
    - intros Hi. rewrite (proj2 (Contains_In S t) Hi). apply Hin1. exact Hi. }
  split.
  { intros t Hi Hnone. destruct (Hin1 t Hi) as [srv Hsrv].
    exists srv. rewrite Hlook, (proj2 (Contains_In S t) Hi).
    split; [exact Hsrv |].
    split; [| exact (Hkept t srv Hsrv Hi)].
    apply in_or_app. left. apply (Hnew1 t srv Hsrv Hnone). }
  split.
  { intros t srv Ht Hni.
    assert (Hc : Contains S t = false).
    { destruct (Contains S t) eqn:Hc; [| reflexivity].
      apply Contains_In in Hc. contradiction. }
    rewrite Hlook, Hc. split; [reflexivity |].
    apply in_or_app. right. apply In_stopEvents.
    exists t, srv. split; [apply Hkeep1; exact Ht |]. split; [exact Hc | reflexivity]. }
  intros t srv Ht Hi.
  rewrite Hlook, (proj2 (Contains_In S t) Hi).
  split; [apply Hkeep1; exact Ht |].
  split; [exact (Hkept t srv (Hkeep1 t srv Ht) Hi) |].
  intros Hev. apply in_app_or in Hev as [Hev | Hev].
  - rewrite List.Forall_forall in Hall1.
    destruct (Hall1 _ Hev) as (i & Heq & Hge). injection Heq as <-.
    destruct Hwf as [Hlt _]. specialize (Hlt t srv Ht). lia.
  - exact (Hnostart _ Hev _ eq_refl).
Qed.

(** The scenario "manager remove", with a new token besides: services run
    for T1 and T2, the factory now lists T1 and T3. *)
Definition srvT1 : Service := mkService 0 1.
Definition srvT2 : Service := mkService 1 2.
Definition st12 : State :=
  mkState 0 {[ 0%nat := cfg0; 1%nat := cfg0; 2%nat := cfg0 ]}
          {[ "0xT1"%string := srvT1; "0xT2"%string := srvT2 ]} 2 [].

Lemma st12_wf : wfState st12.
Proof.
  split.
  - intros t srv H. unfold st12 in H. cbn [srvs nextSrv] in *.
    destruct (decide (t = "0xT1"%string)) as [-> | H1].
    + rewrite lookup_insert_eq in H. injection H as <-. simpl. lia.
    + rewrite lookup_insert_ne in H by congruence.
      destruct (decide (t = "0xT2"%string)) as [-> | H2].
      * rewrite lookup_singleton_eq in H. injection H as <-. simpl. lia.
      * rewrite lookup_singleton_ne in H by congruence. discriminate.
  - intros t1 t2 s1 s2 H1 H2 Heq. unfold st12 in H1, H2. cbn [srvs] in *.
    destruct (decide (t1 = "0xT1"%string)) as [-> | N1];
      destruct (decide (t2 = "0xT1"%string)) as [-> | N2]; try reflexivity.
    + rewrite lookup_insert_eq in H1. injection H1 as <-.
      rewrite lookup_insert_ne in H2 by congruence.
      destruct (decide (t2 = "0xT2"%string)) as [-> | M2].
      * rewrite lookup_singleton_eq in H2. injection H2 as <-. discriminate.
      * rewrite lookup_singleton_ne in H2 by congruence. discriminate.
    + rewrite lookup_insert_eq in H2. injection H2 as <-.
      rewrite lookup_insert_ne in H1 by congruence.
      destruct (decide (t1 = "0xT2"%string)) as [-> | M1].
      * rewrite lookup_singleton_eq in H1. injection H1 as <-. discriminate.
      * rewrite lookup_singleton_ne in H1 by congruence. discriminate.
    + rewrite lookup_insert_ne in H1 by congruence.
      rewrite lookup_insert_ne in H2 by congruence.
      destruct (decide (t1 = "0xT2"%string)) as [-> | M1];
        destruct (decide (t2 = "0xT2"%string)) as [-> | M2]; try reflexivity.
      * rewrite lookup_singleton_ne in H2 by congruence. discriminate.
      * rewrite lookup_singleton_ne in H1 by congruence. discriminate.
      * rewrite lookup_singleton_ne in H1 by congruence. discriminate.
Qed.

Lemma syncEntrustedLsdTokens_reconciles_witness :
  exists st',
    syncEntrustedLsdTokens (envOk [1%N; 3%N]) st12 = Some (None, st')
    /\ dom (srvs st') = {[ "0xT1"%string; "0xT3"%string ]}
    /\ srvs st' !! "0xT1"%string = Some srvT1
    /\ srvs st' !! "0xT2"%string = None
    /\ trace st' = [EvServiceStart 2; EvServiceStop 1].
Proof.
  destruct (syncEntrustedLsdTokens (envOk [1%N; 3%N]) st12) as [[[e |] st'] |] eqn:Hrun.
  1, 3: vm_compute in Hrun; discriminate.
  exists st'. split; [reflexivity |].
  destruct (syncEntrustedLsdTokens_reconciles (envOk [1%N; 3%N]) st12 st' [1%N; 3%N]
              st12_wf eq_refl Hrun) as (ev & Htr & Hdom & _ & _ & Hkeep).
  split; [rewrite Hdom; cbn; set_solver |].
  split; [apply (Hkeep "0xT1"%string srvT1); [reflexivity | left; reflexivity] |].
  vm_compute in Hrun. injection Hrun as <-. split; reflexivity.
Defined.

End ManagerFacts.

(** ** Decimal arithmetic *)

Module DecimalFacts.
Import Decimal.
Local Open Scope Z_scope.

Lemma pow10_pos (k : Z) : 0 <= k -> 0 < 10 ^ k.
Proof. intros Hk. apply Z.pow_pos_nonneg; lia. Qed.

Lemma pow10_add (a b : Z) : 0 <= a -> 0 <= b -> 10 ^ (a + b) = 10 ^ a * 10 ^ b.
Proof. intros Ha Hb. apply Z.pow_add_r; assumption. Qed.

(** The coefficient of [d] at the smaller exponent [m]: the integer
    [value d * 10^(exp d - m)], so that [d] denotes [scaled m d * 10^m]. *)
Definition scaled (m : Z) (d : Decimal) : Z := value d * 10 ^ (exp d - m).

Lemma scaled_shift (k m : Z) (d : Decimal) :
  k <= m -> m <= exp d -> scaled k d = scaled m d * 10 ^ (m - k).
Proof.
  intros Hk Hm. unfold scaled.
  replace (exp d - k) with ((exp d - m) + (m - k)) by lia.
  rewrite pow10_add by lia. lia.
Qed.

Lemma rescale_down (d : Decimal) (e : Z) :
  e <= exp d -> rescale d e = mkDecimal (scaled e d) e.
Proof.
  intros He. unfold rescale, scaled.
  destruct (exp d =? e) eqn:Heq.
  - apply Z.eqb_eq in Heq. destruct d as [v x]. simpl in *. subst x.
    rewrite Z.sub_diag. simpl. f_equal. lia.
  - apply Z.eqb_neq in Heq.
    destruct (exp d <? e) eqn:Hlt; [apply Z.ltb_lt in Hlt; lia |].
    cbn zeta. f_equal. f_equal. f_equal. lia.
Qed.

Lemma RescalePair_spec (a b : Decimal) :
  RescalePair a b
  = (mkDecimal (scaled (Z.min (exp a) (exp b)) a) (Z.min (exp a) (exp b)),
     mkDecimal (scaled (Z.min (exp a) (exp b)) b) (Z.min (exp a) (exp b))).
Proof.
  unfold RescalePair.
  destruct (exp a =? exp b) eqn:Heq.
  - apply Z.eqb_eq in Heq.
    rewrite <- (rescale_down a) by lia. rewrite <- (rescale_down b) by lia.
    unfold rescale.
    replace (Z.min (exp a) (exp b)) with (exp a) by lia.
    rewrite Z.eqb_refl. rewrite Heq, Z.eqb_refl. reflexivity.
  - apply Z.eqb_neq in Heq. cbn zeta.
    destruct (Z.min (exp a) (exp b) =? exp a) eqn:Hmin; cbn [negb].
    + apply Z.eqb_eq in Hmin.
      rewrite (rescale_down b) by lia. f_equal.
      rewrite <- (rescale_down a) by lia. unfold rescale.
      rewrite Hmin, Z.eqb_refl. reflexivity.
    + apply Z.eqb_neq in Hmin.
      rewrite (rescale_down a) by lia. f_equal.
      rewrite <- (rescale_down b) by lia. unfold rescale.
      replace (Z.min (exp a) (exp b)) with (exp b) by lia.
      rewrite Z.eqb_refl. reflexivity.
Qed.

Lemma Add_spec (a b : Decimal) :
  Add a b = mkDecimal (scaled (Z.min (exp a) (exp b)) a
                       + scaled (Z.min (exp a) (exp b)) b)
                      (Z.min (exp a) (exp b)).
Proof. unfold Add. rewrite RescalePair_spec. reflexivity. Qed.

Lemma Sub_spec (a b : Decimal) :
  Sub a b = mkDecimal (scaled (Z.min (exp a) (exp b)) a
                       - scaled (Z.min (exp a) (exp b)) b)
                      (Z.min (exp a) (exp b)).
Proof. unfold Sub. rewrite RescalePair_spec. reflexivity. Qed.

Lemma Cmp_spec (a b : Decimal) :
  Cmp a b = cmpZ (scaled (Z.min (exp a) (exp b)) a)
                 (scaled (Z.min (exp a) (exp b)) b).
Proof.
  unfold Cmp. rewrite RescalePair_spec. cbn [value].
  destruct (exp a =? exp b) eqn:Heq; [| reflexivity].
  apply Z.eqb_eq in Heq. unfold scaled.
  replace (Z.min (exp a) (exp b)) with (exp a) by lia.
  rewrite Z.sub_diag. rewrite <- Heq, Z.sub_diag. simpl. f_equal; lia.
Qed.

(** Below a common exponent [m], sums, differences, comparisons and signs
    are those of the scaled coefficients. *)
Lemma Add_scaled (m : Z) (a b : Decimal) :
  m <= exp a -> m <= exp b ->
  m <= exp (Add a b) /\ scaled m (Add a b) = scaled m a + scaled m b.
Proof.
  intros Ha Hb. rewrite Add_spec. cbn [exp]. split; [lia |].
  set (k := Z.min (exp a) (exp b)).
  rewrite (scaled_shift m k a), (scaled_shift m k b) by lia.
  unfold scaled at 1. cbn [value exp]. lia.
Qed.

Lemma Sub_scaled (m : Z) (a b : Decimal) :
  m <= exp a -> m <= exp b ->
  m <= exp (Sub a b) /\ scaled m (Sub a b) = scaled m a - scaled m b.
Proof.
  intros Ha Hb. rewrite Sub_spec. cbn [exp]. split; [lia |].
  set (k := Z.min (exp a) (exp b)).
  rewrite (scaled_shift m k a), (scaled_shift m k b) by lia.
  unfold scaled at 1. cbn [value exp]. lia.
Qed.

Lemma cmpZ_scale (x y c : Z) : 0 < c -> cmpZ (x * c) (y * c) = cmpZ x y.
Proof.
  intros Hc. unfold cmpZ.
  destruct (Z.compare_spec x y) as [H | H | H];
    destruct (Z.compare_spec (x * c) (y * c)) as [H' | H' | H'];
    try reflexivity; nia.
Qed.

Lemma Cmp_scaled (m : Z) (a b : Decimal) :
  m <= exp a -> m <= exp b -> Cmp a b = cmpZ (scaled m a) (scaled m b).
Proof.
  intros Ha Hb. rewrite Cmp_spec.
  set (k := Z.min (exp a) (exp b)).
  rewrite (scaled_shift m k a), (scaled_shift m k b) by lia.
  symmetry. apply cmpZ_scale. apply pow10_pos. lia.
Qed.

Lemma Sign_scaled (m : Z) (a : Decimal) :
  m <= exp a -> Sign a = Z.sgn (scaled m a).
Proof.
  intros Ha. unfold Sign, scaled.
  rewrite Z.sgn_mul.
  rewrite (Z.sgn_pos (10 ^ (exp a - m))) by (apply pow10_pos; lia). lia.
Qed.

Lemma IsNegative_false_iff (a : Decimal) : IsNegative a = false <-> 0 <= value a.
Proof.
  unfold IsNegative, Sign. rewrite Z.eqb_neq.
  destruct (value a); simpl; split; intros; try lia; try discriminate.
Qed.

Lemma IsPositive_true_iff (a : Decimal) : IsPositive a = true <-> 0 < value a.
Proof.
  unfold IsPositive, Sign. rewrite Z.eqb_eq.
  destruct (value a); simpl; split; intros; try lia; try discriminate.
Qed.

Lemma Equal_scaled (m : Z) (a b : Decimal) :
  m <= exp a -> m <= exp b -> scaled m a = scaled m b -> Equal a b = true.
Proof.
  intros Ha Hb Heq. unfold Equal. rewrite (Cmp_scaled m) by assumption.
  rewrite Heq. unfold cmpZ. rewrite Z.compare_refl. reflexivity.
Qed.


(** [Div] of a non-negative dividend by a positive divisor: the quotient has
    16 places, is not negative, and does not exceed any 16-place number that
    bounds the exact quotient, whatever way it is rounded. *)
Lemma Div_bound (t s : Decimal) (Y : Z) :
  0 <= value t -> 0 < value s ->
  (if exp t - exp s + 16 <? 0
   then value t <= Y * (value s * 10 ^ (- (exp t - exp s + 16)))
   else value t * 10 ^ (exp t - exp s + 16) <= Y * value s) ->
  exp (Div t s) = -16 /\ 0 <= value (Div t s) <= Y.
Proof.
  intros Ht Hs Hle.
  unfold Div, DivRound, QuoRem, DivisionPrecision.
  replace (exp t - exp s - - (16)) with (exp t - exp s + 16) by lia.
  set (e := exp t - exp s + 16) in *.
  set (aa := if e <? 0 then value t else value t * 10 ^ e).
  set (bb := if e <? 0 then value s * 10 ^ (- e) else value s).
  assert (Haa : 0 <= aa).
  { unfold aa. destruct (e <? 0) eqn:He; [lia |].
    apply Z.ltb_ge in He. pose proof (pow10_pos e He). nia. }
  assert (Hbb : 0 < bb).
  { unfold bb. destruct (e <? 0) eqn:He; [| lia].
    apply Z.ltb_lt in He. pose proof (pow10_pos (- e)). nia. }
  assert (Hab : aa <= Y * bb).
  { unfold aa, bb. destruct (e <? 0); exact Hle. }
  replace (let '(aa0, bb0, scalerest) :=
             if e <? 0
             then (value t, value s * 10 ^ (- e), exp t)
             else (value t * 10 ^ e, value s, - (16) + exp s) in
           ({| value := aa0 ÷ bb0; exp := - (16) |},
            {| value := Z.rem aa0 bb0; exp := scalerest |}))
    with ({| value := aa ÷ bb; exp := - (16) |},
          {| value := Z.rem aa bb;
             exp := if e <? 0 then exp t else - (16) + exp s |}).
  2:{ unfold aa, bb. destruct (e <? 0); reflexivity. }
  cbn [value exp].
  rewrite Z.quot_div_nonneg by lia.
  rewrite Z.rem_mod_nonneg by lia.
  pose proof (Z.div_mod aa bb ltac:(lia)) as Hdm.
  pose proof (Z.mod_pos_bound aa bb Hbb) as Hmod.
  assert (Hq0 : 0 <= aa / bb) by (apply Z.div_pos; lia).
  assert (HqY : aa / bb <= Y).
  { apply Z.div_le_upper_bound; [lia | lia]. }
  set (r2 := {| value := Z.abs (aa mod bb) * 2;
                exp := (if e <? 0 then exp t else - (16) + exp s) + 16 |}).
  destruct (Cmp r2 (Abs s) <? 0) eqn:Hc.
  - cbn [value exp]. lia.
  - assert (Hsgn : (Z.sgn (value t) * Z.sgn (value s) <? 0) = false).
    { apply Z.ltb_ge. rewrite (Z.sgn_pos (value s)) by lia.
      destruct (value t); simpl; lia. }
    rewrite Hsgn. rewrite Add_spec. cbn [value exp].
    unfold scaled, New. cbn [value exp].
    replace (Z.min (- (16)) (- (16))) with (-16) by lia.
    replace (- (16) - -16) with 0 by lia.
    split; [reflexivity |].
    change (10 ^ 0) with 1.
    assert (Hrem : aa mod bb <> 0).
    { intros Hz. apply Z.ltb_ge in Hc.
      rewrite Cmp_spec in Hc. unfold scaled, r2, Abs in Hc. cbn [value exp] in Hc.
      rewrite Hz in Hc. change (Z.abs 0 * 2) with 0 in Hc.
      rewrite Z.mul_0_l in Hc.
      set (k := Z.min _ _) in Hc.
      assert (Hk : 0 < Z.abs (value s) * 10 ^ (exp s - k)).
      { pose proof (pow10_pos (exp s - k) ltac:(lia)). nia. }
      unfold cmpZ in Hc.
      destruct (Z.compare_spec 0 (Z.abs (value s) * 10 ^ (exp s - k))); lia. }
    nia.
Qed.

End DecimalFacts.

(** ** The reward split *)

Module RewardFacts.
Import Decimal Reward DecimalFacts.
Local Open Scope Z_scope.

(** The base exponent at which the split of a reward with exponent [re] is
    compared: below the platform fee's exponent and the quotient's. *)
Definition base (re : Z) : Z := Z.min (re - 2) (-16).

Lemma scaled_wei_amounts (r : Decimal) :
  let M := base (exp r) in
  let A := 10 ^ (exp r - 2 - M) in
  0 < A
  /\ scaled M r = value r * A * 100
  /\ scaled M (Mul r Percent5Deci) = value r * A * 5
  /\ scaled M (Mul r Percent90Deci) = value r * A * 90.
Proof.
  cbn zeta. unfold base, scaled, Mul, Percent5Deci, Percent90Deci, New.
  cbn [value exp].
  set (M := Z.min (exp r - 2) (-16)).
  split; [apply pow10_pos; lia |].
  split; [| split].
  - replace (exp r - M) with ((exp r - 2 - M) + 2) by lia.
    rewrite pow10_add by lia. change (10 ^ 2) with 100. lia.
  - replace (exp r + -2 - M) with (exp r - 2 - M) by lia. lia.
  - replace (exp r + -1 - M) with ((exp r - 2 - M) + 1) by lia.
    rewrite pow10_add by lia. change (10 ^ 1) with 10. lia.
Qed.

(** The exact quotient [90% * r * d / 32 ether] is at most [90% * r] when
    [d <= 32 ether]; [90% * r] has at most 16 places when [r] has at most 15. *)
Lemma node_share_bound (d r : Decimal) :
  0 <= value r -> -15 <= exp r -> 0 <= value d ->
  GreaterThan d StandardEffectiveBalanceDeci = false ->
  let t := Mul (Mul r Percent90Deci) d in
  let Y := value r * 9 * 10 ^ (exp r + 15) in
  if exp t - 18 + 16 <? 0
  then value t <= Y * (32 * 10 ^ (- (exp t - 18 + 16)))
  else value t * 10 ^ (exp t - 18 + 16) <= Y * 32.
Proof.
  intros Hr He Hd Hgt. cbn zeta.
  unfold GreaterThan in Hgt. apply Z.eqb_neq in Hgt.
  rewrite Cmp_spec in Hgt.
  unfold StandardEffectiveBalanceDeci, NewFromBigInt, scaled in Hgt.
  cbn [value exp] in Hgt.
  assert (Hle : value d * 10 ^ (exp d - Z.min (exp d) 18)
                <= 32 * 10 ^ (18 - Z.min (exp d) 18)).
  { unfold cmpZ in Hgt.
    destruct (Z.compare_spec (value d * 10 ^ (exp d - Z.min (exp d) 18))
                             (32 * 10 ^ (18 - Z.min (exp d) 18)));
      [lia | lia | congruence]. }
  clear Hgt.
  unfold Mul, Percent90Deci, New. cbn [value exp].
  set (e := exp r + -1 + exp d - 18 + 16).
  pose proof (pow10_pos (exp r + 15) ltac:(lia)) as HP.
  destruct (e <? 0) eqn:Hneg.
  - apply Z.ltb_lt in Hneg.
    assert (Hde : exp d < 18) by lia.
    replace (Z.min (exp d) 18) with (exp d) in Hle by lia.
    rewrite Z.sub_diag in Hle. change (10 ^ 0) with 1 in Hle.
    assert (Hpow : 10 ^ (exp r + 15) * 10 ^ (- e) = 10 ^ (18 - exp d)).
    { rewrite <- pow10_add by lia. f_equal. lia. }
    transitivity (value r * 9 * (32 * (10 ^ (exp r + 15) * 10 ^ (- e)))); [| lia].
    rewrite Hpow. nia.
  - apply Z.ltb_ge in Hneg.
    pose proof (pow10_pos e Hneg) as HE.
    destruct (Z_le_gt_dec (exp d) 18) as [Hde | Hde].
    + replace (Z.min (exp d) 18) with (exp d) in Hle by lia.
      rewrite Z.sub_diag in Hle. change (10 ^ 0) with 1 in Hle.
      assert (Hpow : 10 ^ (exp r + 15) = 10 ^ e * 10 ^ (18 - exp d)).
      { rewrite <- pow10_add by lia. f_equal. lia. }
      rewrite Hpow.
      pose proof (pow10_pos (18 - exp d) ltac:(lia)).
      assert (value d * 10 ^ e <= 32 * 10 ^ (18 - exp d) * 10 ^ e) by nia.
      nia.
    + replace (Z.min (exp d) 18) with 18 in Hle by lia.
      rewrite Z.sub_diag in Hle. change (10 ^ 0) with 1 in Hle.
      assert (Hpow : 10 ^ e = 10 ^ (exp d - 18) * 10 ^ (exp r + 15)).
      { rewrite <- pow10_add by lia. f_equal. lia. }
      rewrite Hpow.
      assert (value d * 10 ^ (exp d - 18) * 10 ^ (exp r + 15)
              <= 32 * 10 ^ (exp r + 15)) by nia.
      nia.
Qed.

(** The split of a positive reward, at the base exponent: the platform fee
    is 5% of the reward, the node reward is the fee plus a quotient [q]
    between 0 and 90% of the reward, and the user reward is the rest, not
    clamped. *)
Lemma split_positive (d r : Decimal) (Y : Z) :
  0 < value r -> 0 <= value d ->
  GreaterThan d StandardEffectiveBalanceDeci = false ->
  (let t := Mul (Mul r Percent90Deci) d in
   if exp t - 18 + 16 <? 0
   then value t <= Y * (32 * 10 ^ (- (exp t - 18 + 16)))
   else value t * 10 ^ (exp t - 18 + 16) <= Y * 32) ->
  Y * 10 ^ (-16 - base (exp r)) <= scaled (base (exp r)) (Mul r Percent90Deci) ->
  exists u n p q,
    GetUserNodePlatformReward d r = (u, n, p)
    /\ base (exp r) <= exp u /\ base (exp r) <= exp n /\ base (exp r) <= exp p
    /\ 0 <= q <= Y * 10 ^ (-16 - base (exp r))
    /\ scaled (base (exp r)) p = scaled (base (exp r)) (Mul r Percent5Deci)
    /\ scaled (base (exp r)) n = scaled (base (exp r)) p + q
    /\ scaled (base (exp r)) u
       = scaled (base (exp r)) r - scaled (base (exp r)) p - scaled (base (exp r)) n.
Proof.
  intros Hr Hd Hgt Hquot HY.
  set (M := base (exp r)) in *.
  destruct (scaled_wei_amounts r) as (HA & Hsr & Hsp & Hs90).
  fold M in Hsr, Hsp, Hs90. set (A := 10 ^ (exp r - 2 - M)) in *.
  unfold GetUserNodePlatformReward.
  rewrite (proj2 (IsPositive_true_iff r) Hr), Hgt. cbn [negb orb].
  set (p := Mul r Percent5Deci).
  set (t := Mul (Mul r Percent90Deci) d) in *.
  destruct (Div_bound t StandardEffectiveBalanceDeci Y) as (Hqe & Hq0 & HqY).
  { unfold t, Mul. cbn [value]. unfold Percent90Deci, New. cbn [value]. nia. }
  { reflexivity. }
  { exact Hquot. }
  set (q := Div t StandardEffectiveBalanceDeci) in *.
  assert (HMp : M <= exp p) by (unfold p, Mul, Percent5Deci, New, M, base; cbn [exp]; lia).
  assert (HMq : M <= exp q) by (rewrite Hqe; unfold M, base; lia).
  assert (HMr : M <= exp r) by (unfold M, base; lia).
  destruct (Add_scaled M p q HMp HMq) as (HMn & Hsn).
  set (n := Add p q) in *.
  destruct (Sub_scaled M r p HMr HMp) as (HMrp & Hsrp).
  destruct (Sub_scaled M (Sub r p) n HMrp HMn) as (HMu & Hsu).
  set (u := Sub (Sub r p) n) in *.
  assert (Hsq : scaled M q = value q * 10 ^ (-16 - M)).
  { unfold scaled. rewrite Hqe. reflexivity. }
  pose proof (pow10_pos (-16 - M) ltac:(unfold M, base; lia)) as HB.
  assert (Hqb : 0 <= scaled M q <= Y * 10 ^ (-16 - M)).
  { rewrite Hsq. split; nia. }
  assert (Hu : IsNegative u = false).
  { apply Z.eqb_neq. rewrite (Sign_scaled M u HMu).
    rewrite Hsu, Hsrp, Hsn.
    assert (0 <= scaled M r - scaled M p - (scaled M p + scaled M q)).
    { fold p in Hsp. rewrite Hsr, Hsp. rewrite Hs90 in HY. lia. }
    destruct (scaled M r - scaled M p - (scaled M p + scaled M q)); simpl; lia. }
  rewrite Hu.
  exists u, n, p, (scaled M q).
  split; [reflexivity |].
  repeat split; try assumption; try lia.
Qed.

Lemma IsNegative_scaled (m : Z) (a : Decimal) :
  m <= exp a -> 0 <= scaled m a -> IsNegative a = false.
Proof.
  intros Hm Hs. unfold IsNegative. rewrite (Sign_scaled m a Hm).
  apply Z.eqb_neq. destruct (scaled m a); simpl; lia.
Qed.




(** The split of one ether of reward for a node that deposited 16 ether. *)
Example GetUserNodePlatformReward_half_deposit :
  let '(u, n, p) := GetUserNodePlatformReward (wei (16 * ether)) (wei ether) in
  (BigInt u, BigInt n, BigInt p)
  = (45 * 10 ^ 16, 5 * 10 ^ 17, 5 * 10 ^ 16).
Proof. vm_compute. reflexivity. Qed.

(** Below the 16th decimal place the quotient is rounded half up, and a
    reward that small can be over-distributed: outside the wei amounts the
    relay works with. *)
Example GetUserNodePlatformReward_below_precision :
  let r := New 5 (-16) in
  let '(u, n, p) := GetUserNodePlatformReward StandardEffectiveBalanceDeci r in
  GreaterThan (Add (Add u n) p) r = true.
Proof. vm_compute. reflexivity. Qed.

(** *** No node deposit *)

(** Two amounts differ by at most one wei. *)
Definition withinOneUnit (a b : Decimal) : bool :=
  LessThanOrEqual (Abs (Sub a b)) (New 1 0).

(** The user share that C6 states for a node without deposit. *)
Definition Percent85Deci : Decimal := New 85 (-2).

Lemma zero_deposit_not_greater (d : Decimal) :
  IsZero d = true -> GreaterThan d StandardEffectiveBalanceDeci = false.
Proof.
  unfold IsZero, Sign. intros Hz. apply Z.eqb_eq in Hz.
  assert (Hv : value d = 0) by (destruct (value d); simpl in Hz; lia).
  unfold GreaterThan. rewrite Cmp_spec. apply Z.eqb_neq.
  unfold scaled. rewrite Hv.
  unfold StandardEffectiveBalanceDeci, NewFromBigInt. cbn [value exp].
  pose proof (pow10_pos (18 - Z.min (exp d) 18) ltac:(lia)).
  unfold cmpZ.
  destruct (Z.compare_spec (0 * 10 ^ (exp d - Z.min (exp d) 18))
                           (32 * 10 ^ (18 - Z.min (exp d) 18))); lia.
Qed.

(** C6, as the code has it. For a reward [r > 0] and a node deposit of 0,
    the user reward is 90% of [r] (not 85%), the node reward is 5% of [r] and
    the platform fee is 5% of [r], all three exactly. *)
Theorem GetUserNodePlatformReward_zero_deposit (d r u n p : Decimal) :
  IsPositive r = true -> IsZero d = true ->
  GetUserNodePlatformReward d r = (u, n, p) ->
  Equal u (Mul r Percent90Deci) = true
  /\ Equal n (Mul r Percent5Deci) = true
  /\ Equal p (Mul r Percent5Deci) = true.
Proof.
  intros Hr Hd Hrun.
  apply IsPositive_true_iff in Hr.
  pose proof (zero_deposit_not_greater d Hd) as Hgt.
  assert (Hv : value d = 0).
  { unfold IsZero, Sign in Hd. apply Z.eqb_eq in Hd.
    destruct (value d); simpl in Hd; lia. }
  set (M := base (exp r)).
  destruct (scaled_wei_amounts r) as (HA & Hsr & Hsp & Hs90).
  fold M in Hsr, Hsp, Hs90.
  destruct (split_positive d r 0) as (u' & n' & p' & q & Hrun' & Hu & Hn & Hp
                                       & Hq & Hsp' & Hsn & Hsu);
    [exact Hr | lia | exact Hgt | | fold M; rewrite Hs90; nia |].
  { cbn zeta. unfold Mul. cbn [value]. rewrite Hv.
    rewrite !Z.mul_0_r, !Z.mul_0_l.
    destruct (_ <? 0); lia. }
  fold M in Hu, Hn, Hp, Hq, Hsp', Hsn, Hsu.
  rewrite Hrun in Hrun'. injection Hrun' as -> -> ->.
  assert (Hq0 : q = 0) by lia.
  assert (HM5 : M <= exp (Mul r Percent5Deci))
    by (unfold Mul, Percent5Deci, New, M, base; cbn [exp]; lia).
  assert (HM90 : M <= exp (Mul r Percent90Deci))
    by (unfold Mul, Percent90Deci, New, M, base; cbn [exp]; lia).
  repeat split.
  - apply (Equal_scaled M); [exact Hu | exact HM90 |].
    rewrite Hsu, Hsn, Hsp', Hsr, Hsp, Hs90. lia.
  - apply (Equal_scaled M); [exact Hn | exact HM5 |].
    rewrite Hsn, Hsp'. lia.
  - apply (Equal_scaled M); [exact Hp | exact HM5 |]. exact Hsp'.
Qed.

Lemma GetUserNodePlatformReward_zero_deposit_witness :
  Equal (mkDecimal (9 * 10 ^ 33) (-16)) (Mul (wei ether) Percent90Deci) = true
  /\ Equal (mkDecimal (5 * 10 ^ 32) (-16)) (Mul (wei ether) Percent5Deci) = true
  /\ Equal (mkDecimal (5 * 10 ^ 18) (-2)) (Mul (wei ether) Percent5Deci) = true.
Proof.
  apply (GetUserNodePlatformReward_zero_deposit (wei 0) (wei ether)).
  - reflexivity.
  - reflexivity.
  - vm_compute. reflexivity.
Defined.

(** C6 as stated fails: of one ether of reward, a node without deposit leaves
    0.9 ether to the users, 0.05 ether away from the 85% of the statement. *)
Lemma GetUserNodePlatformReward_user_share_counterexample :
  IsPositive (wei ether) = true
  /\ GetUserNodePlatformReward (wei 0) (wei ether)
     = (mkDecimal (9 * 10 ^ 33) (-16),
        mkDecimal (5 * 10 ^ 32) (-16),
        mkDecimal (5 * 10 ^ 18) (-2))
  /\ BigInt (mkDecimal (9 * 10 ^ 33) (-16)) = 9 * 10 ^ 17
  /\ BigInt (Mul (wei ether) Percent85Deci) = 85 * 10 ^ 16
  /\ withinOneUnit (mkDecimal (9 * 10 ^ 33) (-16))
                   (Mul (wei ether) Percent85Deci) = false.
Proof. vm_compute. repeat split; reflexivity. Qed.

End RewardFacts.

(** ** The set-merkle-root task *)

Module MerkleRootFacts.
Import Go Effects Utils WaitTx MerkleRoot Merkle.

(** *** Stages that leave no event *)

Definition silent {A : Type} (m : M A) : Prop := forall t, snd (m t) = t.

Lemma silent_ret {A : Type} (a : A) : silent (ret a).
Proof. intros t. reflexivity. Qed.

Lemma silent_returnWith {A : Type} (e : option error) : silent (@returnWith A e).
Proof. intros t. reflexivity. Qed.

Lemma silent_lift {A : Type} (x : step A) : silent (lift x).
Proof. intros t. reflexivity. Qed.

Lemma silent_orReturn {A : Type} (r : result A) : silent (orReturn r).
Proof. intros t. destruct r; reflexivity. Qed.

Lemma silent_bind {A B : Type} (m : M A) (k : A -> M B) :
  silent m -> (forall a, silent (k a)) -> silent (bind m k).
Proof.
  intros Hm Hk t. unfold bind. specialize (Hm t).
  destruct (m t) as [[a | e |] t']; simpl in Hm; subst t'; [apply Hk | |]; reflexivity.
Qed.

Create HintDb silent.
#[local] Hint Resolve silent_ret silent_returnWith silent_lift silent_orReturn : silent.

Lemma loadPrevious_silent (L : Lib) (env : Env) (s : Service) (d : Z) :
  silent (loadPrevious L env s d).
Proof.
  unfold loadPrevious. destruct (0 <? wrap64 d)%Z; [| auto with silent].
  apply silent_bind; [auto with silent |]. intros [| preCid events]; [auto with silent |].
  repeat (apply silent_bind; [auto with silent | intros ?]). auto with silent.
Qed.

Lemma collectFinalList_silent (L : Lib) (env : Env) (s : Service) :
  silent (collectFinalList L env s).
Proof.
  unfold collectFinalList.
  apply silent_bind; [auto with silent |].
  intros [[[[dealed targetEpoch] targetBlock] goNext] [e |]]; [auto with silent |].
  destruct (negb goNext); [auto with silent |].
  apply silent_bind; [auto with silent | intros d].
  apply silent_bind; [apply loadPrevious_silent | intros [h pre]].
  repeat (apply silent_bind; [auto with silent | intros ?]). auto with silent.
Qed.

Lemma rootAndProofs_silent (L : Lib) (l : list NodeReward) :
  silent (rootAndProofs L l).
Proof.
  unfold rootAndProofs. destruct (0 <? length l)%nat; [| auto with silent].
  repeat (apply silent_bind; [auto with silent | intros ?]). auto with silent.
Qed.

(** *** The events of the vote *)

(** Events of [WaitTxOkCommon]. *)
Definition is_wait (e : Event) : bool :=
  is_by_hash e || is_receipt e || is_sleep e || is_shutdown e.

Lemma count_none (p : Event -> bool) (l : Trace) :
  Forall (fun e => p e = false) l -> count p l = 0%nat.
Proof.
  unfold count. induction 1 as [| e l He _ IH]; [reflexivity |].
  simpl. rewrite He. exact IH.
Qed.


Lemma waitTxOk_run (env : Env) (h : string) (t : Trace) :
  exists err w,
    waitTxOk env h t = (Some err, t ++ w)
    /\ Forall (fun e => is_wait e = true) w.
Proof.
  destruct (WaitTxFacts.waitLoop_spec (client env) h (S RetryLimit) 0 waitFuel t)
    as (ev1 & ev2 & Hrun & H1 & H2 & _); [lia | unfold waitFuel; lia |].
  assert (Hw : Forall (fun e => is_wait e = true) (ev1 ++ ev2)).
  { apply Forall_app. split.
    - eapply Forall_impl; [exact H1 |]. intros e [-> | ->]; reflexivity.
    - eapply Forall_impl; [exact H2 |]. intros e [-> | ->]; reflexivity. }
  unfold waitTxOk, WaitTxOkCommon. rewrite Hrun.
  destruct (WaitTxFacts.waitOutcome (client env) 0 (S RetryLimit)) as [bn [e |]].
  - exists (Some e), ((ev1 ++ ev2) ++ [EvShutdownRequest]). split.
    + rewrite <- !app_assoc. reflexivity.
    + apply Forall_app. split; [exact Hw |]. constructor; [reflexivity | constructor].
  - exists None, (ev1 ++ ev2). split; [reflexivity | exact Hw].
Qed.

(** The transaction hash that the contract call answers, if any. *)
Definition submitted (env : Env) (targetEpoch : Z) (rootHash : list byte)
           (cid : string) : option string :=
  match SetMerkleRoot env targetEpoch rootHash cid with
  | Ok txHash => Some txHash
  | Err _ => None
  end.

(** What [sendSetMerkleRootTx] leaves in the trace: nothing when the lock is
    refused, else the lock, the contract call, the wait and the unlock. *)
Definition txPhase (env : Env) (targetEpoch : Z) (rootHash : list byte)
           (cid : string) (tx : Trace) : Prop :=
  match LockAndUpdateTxOpts env with
  | Some _ => tx = []
  | None =>
      exists w,
        tx = EvLockTxOpts
               :: EvSetMerkleRootTx targetEpoch rootHash cid
                    (submitted env targetEpoch rootHash cid)
               :: w ++ [EvUnlockTxOpts]
        /\ Forall (fun e => is_wait e = true) w
  end.

Lemma sendSetMerkleRootTx_run (env : Env) (targetEpoch : Z) (rootHash : list byte)
      (cid : string) (t : Trace) :
  exists err tx,
    sendSetMerkleRootTx env targetEpoch rootHash cid t = (Some err, t ++ tx)
    /\ txPhase env targetEpoch rootHash cid tx.
Proof.
  unfold sendSetMerkleRootTx, txPhase, submitted.
  destruct (LockAndUpdateTxOpts env) as [e |].
  - exists (Some (Errorf "LockAndUpdateTxOpts err: %s")), [].
    rewrite app_nil_r. split; reflexivity.
  - destruct (SetMerkleRoot env targetEpoch rootHash cid) as [h | e].
    + destruct (waitTxOk_run env h
                  ((t ++ [EvLockTxOpts])
                     ++ [EvSetMerkleRootTx targetEpoch rootHash cid (Some h)]))
        as (err & w & Hrun & Hw).
      rewrite Hrun. exists err. eexists. split.
      * rewrite <- !app_assoc. reflexivity.
      * exists w. split; [reflexivity | exact Hw].
    + exists (Some e). eexists. split.
      * rewrite <- !app_assoc. reflexivity.
      * exists []. split; [reflexivity | constructor].
Qed.

(** *** The shape of a run *)

(** After the query [HasVoted(proposalId, self)]: the result and the events
    that follow. *)
Definition votePhase (L : Lib) (env : Env) (s : Service) (targetEpoch : Z)
           (rootHash : list byte) (cid : string)
           (r : option (option error)) (tx : Trace) : Prop :=
  match HasVoted env (VoteMerkleRootProposalId L targetEpoch rootHash cid)
                 (selfAddress s) with
  | Err _ => r = Some (Some (Errorf "networkProposalContract.HasVoted err: %s"))
             /\ tx = []
  | Ok true => r = Some None /\ tx = []
  | Ok false => txPhase env targetEpoch rootHash cid tx
  end.

(** The events of one call of [setMerkleRoot]: none when it returns before
    the upload, else the upload, then (when the upload succeeded) the vote
    check and what follows it. *)
Inductive runShape (L : Lib) (env : Env) (s : Service)
  : option (option error) -> Trace -> Prop :=
| stoppedEarly (r : option (option error)) : runShape L env s r []
| uploadFailed (r : option (option error)) (content : list byte) (path : string) :
    runShape L env s r [EvUploadFile content path]
| voteChecked (r : option (option error)) (content : list byte) (path : string)
              (targetEpoch : Z) (rootHash : list byte) (cid : string) (tx : Trace) :
    votePhase L env s targetEpoch rootHash cid r tx ->
    runShape L env s r
      (EvUploadFile content path
         :: EvHasVoted (VoteMerkleRootProposalId L targetEpoch rootHash cid)
                       (selfAddress s)
         :: tx).

Lemma uploadAndVote_run (L : Lib) (env : Env) (s : Service) (targetEpoch : Z)
      (rootHash : NodeHash) (final : list NodeReward) (t : Trace) :
  exists r ev,
    finish (uploadAndVote L env s targetEpoch rootHash final t) = (r, t ++ ev)
    /\ runShape L env s r ev.
Proof.
  unfold uploadAndVote, bind, orReturn, emit, ret, returnWith.
  destruct (jsonMarshal L final) as [fileBts | e].
  2:{ exists (Some (Some e)), []. rewrite app_nil_r. split; [reflexivity | constructor]. }
  set (path := pathJoin L (nodeRewardsFilePath s) (NodeRewardsFileNameAtEpoch L targetEpoch)).
  destruct (UploadFileToWeb3Storage env fileBts path) as [cid | e].
  2:{ exists (Some (Some e)), [EvUploadFile fileBts path].
      split; [reflexivity | constructor]. }
  set (te := int64_of_u64 targetEpoch).
  set (root := copy32 rootHash).
  set (pid := VoteMerkleRootProposalId L te root cid).
  destruct (HasVoted env pid (selfAddress s)) as [[|] | e] eqn:Hvoted.
  - exists (Some None), [EvUploadFile fileBts path; EvHasVoted pid (selfAddress s)].
    split; [cbn [finish]; rewrite <- app_assoc; reflexivity |].
    apply voteChecked. unfold votePhase. fold pid. rewrite Hvoted. split; reflexivity.
  - destruct (sendSetMerkleRootTx_run env te root cid
                ((t ++ [EvUploadFile fileBts path]) ++ [EvHasVoted pid (selfAddress s)]))
      as (err & tx & Hrun & Htx).
    rewrite Hrun. cbn [finish].
    exists (Some err), (EvUploadFile fileBts path :: EvHasVoted pid (selfAddress s) :: tx).
    split; [rewrite <- !app_assoc; reflexivity |].
    apply voteChecked. unfold votePhase. fold pid. rewrite Hvoted. exact Htx.
  - exists (Some (Some (Errorf "networkProposalContract.HasVoted err: %s"))),
      [EvUploadFile fileBts path; EvHasVoted pid (selfAddress s)].
    split; [cbn [finish]; rewrite <- app_assoc; reflexivity |].
    apply voteChecked. unfold votePhase. fold pid. rewrite Hvoted. split; reflexivity.
Qed.

Lemma setMerkleRoot_stages (L : Lib) (env : Env) (s : Service) (t : Trace) :
  match collectFinalList L env s t with
  | (Next (targetEpoch, final), _) =>
      match rootAndProofs L final t with
      | (Next (rootHash, final'), _) =>
          setMerkleRoot L env s t
          = finish (uploadAndVote L env s targetEpoch rootHash final' t)
      | (Return e, _) => setMerkleRoot L env s t = (Some e, t)
      | (Panic, _) => setMerkleRoot L env s t = (None, t)
      end
  | (Return e, _) => setMerkleRoot L env s t = (Some e, t)
  | (Panic, _) => setMerkleRoot L env s t = (None, t)
  end.
Proof.
  unfold setMerkleRoot, setMerkleRootBody, bind.
  pose proof (collectFinalList_silent L env s t) as H1.
  destruct (collectFinalList L env s t) as [[[targetEpoch final] | e |] t1];
    simpl in H1; subst t1; try reflexivity.
  pose proof (rootAndProofs_silent L final t) as H2.
  destruct (rootAndProofs L final t) as [[[rootHash final'] | e |] t2];
    simpl in H2; subst t2; reflexivity.
Qed.

Lemma setMerkleRoot_run (L : Lib) (env : Env) (s : Service) (t : Trace) :
  exists r ev, setMerkleRoot L env s t = (r, t ++ ev) /\ runShape L env s r ev.
Proof.
  pose proof (setMerkleRoot_stages L env s t) as H.
  destruct (collectFinalList L env s t) as [[[targetEpoch final] | e |] t1].
  - destruct (rootAndProofs L final t) as [[[rootHash final'] | e |] t2].
    + rewrite H. apply uploadAndVote_run.
    + exists (Some e), []. rewrite app_nil_r. split; [exact H | constructor].
    + exists None, []. rewrite app_nil_r. split; [exact H | constructor].
  - exists (Some e), []. rewrite app_nil_r. split; [exact H | constructor].
  - exists None, []. rewrite app_nil_r. split; [exact H | constructor].
Qed.


(** *** The HasVoted gate *)

Lemma wait_events_uncounted (p : Event -> bool) (w : Trace) :
  (forall e, is_wait e = true -> p e = false) ->
  Forall (fun e => is_wait e = true) w -> count p w = 0%nat.
Proof.
  intros Hp Hw. apply count_none.
  eapply Forall_impl; [exact Hw |]. exact Hp.
Qed.

Lemma is_wait_not_tx (e : Event) : is_wait e = true -> is_tx e = false.
Proof. destruct e; intros H; try reflexivity; discriminate H. Qed.

Lemma is_wait_not_submitted (e : Event) : is_wait e = true -> is_submitted e = false.
Proof. destruct e; intros H; try reflexivity; discriminate H. Qed.

Lemma is_wait_not_has_voted (e : Event) : is_wait e = true -> is_has_voted e = false.
Proof. destruct e; intros H; try reflexivity; discriminate H. Qed.

Lemma is_wait_not_lock (e : Event) : is_wait e = true -> is_lock e = false.
Proof. destruct e; intros H; try reflexivity; discriminate H. Qed.

Lemma txPhase_counts (env : Env) (te : Z) (root : list byte) (cid : string)
      (tx : Trace) :
  txPhase env te root cid tx ->
  count is_has_voted tx = 0%nat
  /\ (count is_tx tx <= 1)%nat
  /\ (count is_submitted tx <= 1)%nat
  /\ (forall e, In e tx -> is_tx e = true ->
                e = EvSetMerkleRootTx te root cid (submitted env te root cid)).
Proof.
  unfold txPhase. destruct (LockAndUpdateTxOpts env) as [e |].
  - intros ->. repeat split; try (unfold count; simpl; lia).
  - intros (w & -> & Hw).
    change (EvLockTxOpts :: EvSetMerkleRootTx te root cid (submitted env te root cid)
              :: w ++ [EvUnlockTxOpts])
      with ([EvLockTxOpts; EvSetMerkleRootTx te root cid (submitted env te root cid)]
              ++ w ++ [EvUnlockTxOpts]).
    rewrite !WaitTxFacts.count_app.
    rewrite (wait_events_uncounted is_has_voted w is_wait_not_has_voted Hw).
    rewrite (wait_events_uncounted is_tx w is_wait_not_tx Hw).
    rewrite (wait_events_uncounted is_submitted w is_wait_not_submitted Hw).
    repeat split; try (unfold count; simpl; lia).
    + unfold count. simpl. destruct (submitted env te root cid); simpl; lia.
    + intros e Hin He. apply in_app_or in Hin.
      destruct Hin as [[<- | [<- | []]] | Hin]; [discriminate | reflexivity |].
      apply in_app_or in Hin. destruct Hin as [Hin | [<- | []]]; [| discriminate].
      rewrite List.Forall_forall in Hw.
      rewrite (is_wait_not_tx e (Hw e Hin)) in He. discriminate.
Qed.





(** *** A chain and a library to run the task on *)

(** A stand-in for keccak-256 in the examples: a 32-byte checksum of the
    concatenated arguments.  No theorem uses a property of the hash. *)
Fixpoint checksumLanes (data : list byte) (i : nat) (acc : list N) : list N :=
  match data with
  | [] => acc
  | b :: rest =>
      checksumLanes rest (S i mod 32)
                    (<[i := ((acc !!! i) * 31 + Byte.to_N b + 1) mod 256]> acc)%N
  end.

Definition checksum32 (parts : list (list byte)) : list byte :=
  List.map byteOfN (checksumLanes (List.concat parts) 0 (List.repeat 0%N 32)).

Definition hexDigitValue (c : ascii) : N :=
  let n := N_of_ascii c in
  if ((48 <=? n) && (n <=? 57))%N then (n - 48)%N
  else if ((97 <=? n) && (n <=? 102))%N then (n - 87)%N
  else if ((65 <=? n) && (n <=? 70))%N then (n - 55)%N
  else 0%N.

Fixpoint hexValue (s : string) (acc : N) : N :=
  match s with
  | EmptyString => acc
  | String c rest => hexValue rest (16 * acc + hexDigitValue c)%N
  end.

Definition hexChar (n : N) : ascii :=
  match String.get (N.to_nat n) "0123456789abcdef" with
  | Some c => c
  | None => "0"%char
  end.

Fixpoint hexOfBytes (l : list byte) : string :=
  match l with
  | [] => EmptyString
  | b :: rest =>
      String (hexChar (Byte.to_N b / 16)) (String (hexChar (Byte.to_N b mod 16))
                                                  (hexOfBytes rest))
  end.

(** The library of the examples: hex addresses, the checksum for keccak, the
    leaf hash and the tree of section 4.2, and a rewards file that lists the
    addresses between brackets. *)
Definition testLib : Lib :=
  mkLib
    (fun a => (hexValue (String.substring 2 (String.length a - 2) a) 0 mod 2 ^ 160)%N)
    checksum32
    (fun index address reward exitDeposit =>
       checksum32 [ LeftPadBytes (BigIntBytes index) 32;
                    LeftPadBytes (BigIntBytes (Z.of_N address)) 20;
                    LeftPadBytes (BigIntBytes reward) 32;
                    LeftPadBytes (BigIntBytes exitDeposit) 32 ])
    (fun leaves => specGetRootHash checksum32 (length leaves) leaves)
    (specGetProof checksum32)
    hexOfBytes
    (fun _ => Ok [])
    (fun l => Ok (list_byte_of_string
                    ("[" ++ String.concat "," (List.map nrAddress l) ++ "]")))
    (fun epoch => "node-rewards.json")
    (fun dir file => dir ++ "/" ++ file)%string.

(** A chain at finalized epoch 230 on which no root has been set, where
    [rewards] were earned since the network was created; [voted] is what
    [HasVoted] answers; the vote transaction is mined in block 77. *)
Definition testEnv (rewards : gmap N NodeNewReward) (voted : bool) : Env :=
  mkEnv (Ok 230%Z) (Ok 0%Z) (fun epoch => Ok (1000 + epoch)%Z)
        (fun _ => Ok []) (fun _ _ => Err (ErrExternal 404))
        (fun _ _ => Ok rewards)
        (fun _ _ => Ok "bafy-node-rewards")
        (fun _ _ => Ok voted)
        None
        (fun _ _ _ => Ok "0xa1")
        WaitTxFacts.minedClient.

Definition testService : Service := mkService 75 5000 1000 "/tmp/rewards" 7%N.

Definition node0a : NodeNewReward :=
  mkNodeNewReward "0x0a" (Reward.wei 500) (Reward.wei 0).
Definition node0b : NodeNewReward :=
  mkNodeNewReward "0x0b" (Reward.wei 300) (Reward.wei 32).

Definition noRewards : gmap N NodeNewReward := ∅.
Definition oneReward : gmap N NodeNewReward := {[ 10%N := node0a ]}.
Definition twoRewards : gmap N NodeNewReward := {[ 10%N := node0a; 11%N := node0b ]}.






(** *** An empty final list *)

(** C9. When the merged final list is empty, [setMerkleRoot] does not build
    the Merkle tree (which would answer the error "proof list empty") and
    asks the tree for no root and no proof: it goes on with an empty root
    hash and runs the upload and the vote on the empty list.  When the
    storage accepts the file, the content uploaded is the JSON encoding of
    the empty list, the proposal checked is the one of the all-zero 32-byte
    root, and if it has not been voted that root is sent in the
    [SetMerkleRoot] transaction. *)
Theorem setMerkleRoot_empty_final_list (L : Lib) (env : Env) (s : Service)
        (t t1 : Trace) (targetEpoch : Z) :
  collectFinalList L env s t = (Next (targetEpoch, []), t1) ->
  buildMerkleTree L [] = Err (Errorf "proof list empty")
  /\ rootAndProofs L [] t = (Next ([], []), t)
  /\ copy32 [] = zero32
  /\ setMerkleRoot L env s t = finish (uploadAndVote L env s targetEpoch [] [] t)
  /\ forall (fileBts : list byte) (cid : string),
       jsonMarshal L [] = Ok fileBts ->
       UploadFileToWeb3Storage env fileBts
         (pathJoin L (nodeRewardsFilePath s) (NodeRewardsFileNameAtEpoch L targetEpoch))
       = Ok cid ->
       setMerkleRoot L env s t
       = let checked :=
           t ++ [EvUploadFile fileBts
                   (pathJoin L (nodeRewardsFilePath s)
                             (NodeRewardsFileNameAtEpoch L targetEpoch));
                 EvHasVoted
                   (VoteMerkleRootProposalId L (int64_of_u64 targetEpoch) zero32 cid)
                   (selfAddress s)] in
         match HasVoted env
                 (VoteMerkleRootProposalId L (int64_of_u64 targetEpoch) zero32 cid)
                 (selfAddress s) with
         | Err _ =>
             (Some (Some (Errorf "networkProposalContract.HasVoted err: %s")), checked)
         | Ok true => (Some None, checked)
         | Ok false =>
             sendSetMerkleRootTx env (int64_of_u64 targetEpoch) zero32 cid checked
         end.
Proof.
  intros Hcollect.
  pose proof (setMerkleRoot_stages L env s t) as Hstages.
  rewrite Hcollect in Hstages.
  change (rootAndProofs L [] t) with (@Next (NodeHash * list NodeReward) ([], []), t)
    in Hstages.
  cbv iota beta in Hstages.
  split; [reflexivity |]. split; [reflexivity |]. split; [reflexivity |].
  split; [exact Hstages |].
  intros fileBts cid Hjson Hupload. rewrite Hstages.
  unfold uploadAndVote, bind, orReturn, emit, ret, returnWith.
  rewrite Hjson, Hupload. change (copy32 []) with zero32. cbv zeta.
  rewrite <- !app_assoc. cbn [app].
  destruct (HasVoted env _ (selfAddress s)) as [[|] | e]; try reflexivity.
  cbn [finish].
  destruct (sendSetMerkleRootTx_run env (int64_of_u64 targetEpoch) zero32 cid
              (t ++ [EvUploadFile fileBts
                       (pathJoin L (nodeRewardsFilePath s)
                                 (NodeRewardsFileNameAtEpoch L targetEpoch));
                     EvHasVoted
                       (VoteMerkleRootProposalId L (int64_of_u64 targetEpoch) zero32 cid)
                       (selfAddress s)]))
    as (err & tx & Hrun & _).
  rewrite Hrun. reflexivity.
Qed.

Lemma setMerkleRoot_empty_final_list_witness :
  setMerkleRoot testLib (testEnv noRewards false) testService []
  = finish (uploadAndVote testLib (testEnv noRewards false) testService 225 [] [] [])
  /\ fst (setMerkleRoot testLib (testEnv noRewards false) testService []) = Some None
  /\ firstn 4 (snd (setMerkleRoot testLib (testEnv noRewards false) testService []))
     = [ EvUploadFile (list_byte_of_string "[]") "/tmp/rewards/node-rewards.json";
         EvHasVoted (VoteMerkleRootProposalId testLib 225 zero32 "bafy-node-rewards") 7%N;
         EvLockTxOpts;
         EvSetMerkleRootTx 225 zero32 "bafy-node-rewards" (Some "0xa1") ].
Proof.
  destruct (setMerkleRoot_empty_final_list
              testLib (testEnv noRewards false) testService [] [] 225)
    as (_ & _ & _ & Hstages & Hrun).
  - vm_compute. reflexivity.
  - split; [exact Hstages |].
    rewrite (Hrun (list_byte_of_string "[]") "bafy-node-rewards" eq_refl eq_refl).
    split; vm_compute; reflexivity.
Defined.

(** *** An empty proof *)

Lemma calcProofs_empty_proof (L : Lib) (tree : list NodeHash)
      (pre : list NodeReward) (node : NodeReward) (post : list NodeReward) :
  List.Forall (fun n => exists p, GetProof L tree (leafHash L n) = Ok p /\ p <> []) pre ->
  GetProof L tree (leafHash L node) = Ok [] ->
  calcProofs L tree (pre ++ node :: post) = Return None.
Proof.
  intros Hpre Hnode. induction Hpre as [| n pre (p & Hp & Hne) _ IH].
  - cbn [app calcProofs]. rewrite Hnode. reflexivity.
  - cbn [app calcProofs]. rewrite Hp.
    destruct p as [| h p]; [congruence |]. cbn [length Nat.eqb].
    rewrite IH. reflexivity.
Qed.

(** C5, as the code has it. When the proof that the tree returns for a leaf
    of the final list is empty (and the leaves before it got a proof),
    [setMerkleRoot] returns nil, the success value, where an error is due:
    [errors.Wrap] is given the nil error of [GetProof] and answers nil.
    Nothing is uploaded and no vote is cast. *)
Theorem setMerkleRoot_empty_proof_returns_nil (L : Lib) (env : Env) (s : Service)
        (t t1 : Trace) (targetEpoch : Z)
        (pre : list NodeReward) (node : NodeReward) (post : list NodeReward)
        (root : NodeHash) :
  collectFinalList L env s t = (Next (targetEpoch, pre ++ node :: post), t1) ->
  GetRootHash L (List.map (leafHash L) (pre ++ node :: post)) = Ok root ->
  List.Forall
    (fun n => exists p,
         GetProof L (List.map (leafHash L) (pre ++ node :: post)) (leafHash L n) = Ok p
         /\ p <> [])
    pre ->
  GetProof L (List.map (leafHash L) (pre ++ node :: post)) (leafHash L node) = Ok [] ->
  setMerkleRoot L env s t = (Some None, t).
Proof.
  intros Hcollect Hroot Hpre Hnode.
  pose proof (setMerkleRoot_stages L env s t) as Hstages.
  rewrite Hcollect in Hstages.
  assert (Hproofs : rootAndProofs L (pre ++ node :: post) t = (Return None, t)).
  { unfold rootAndProofs, buildMerkleTree, bind, orReturn, lift, ret.
    rewrite length_app. cbn [length].
    replace (0 <? length pre + S (length post))%nat with true
      by (symmetry; apply Nat.ltb_lt; lia).
    replace (length pre + S (length post) =? 0)%nat with false
      by (symmetry; apply Nat.eqb_neq; lia).
    rewrite Hroot.
    rewrite (calcProofs_empty_proof L _ pre node post Hpre Hnode). reflexivity. }
  rewrite Hproofs in Hstages. exact Hstages.
Qed.

(** One node has rewards: by section 4.2 the only leaf of the tree has no
    sibling, its proof is empty, and the cycle ends with nil and an empty
    trace. *)
Lemma setMerkleRoot_empty_proof_returns_nil_witness :
  setMerkleRoot testLib (testEnv oneReward false) testService [] = (Some None, []).
Proof.
  apply (setMerkleRoot_empty_proof_returns_nil
           testLib (testEnv oneReward false) testService [] [] 225
           [] (mkNodeReward "0x0a" 0 (Reward.wei 500) (Reward.wei 0) EmptyString) []
           (leafHash testLib
              (mkNodeReward "0x0a" 0 (Reward.wei 500) (Reward.wei 0) EmptyString))).
  - vm_compute. reflexivity.
  - vm_compute. reflexivity.
  - constructor.
  - vm_compute. reflexivity.
Defined.

End MerkleRootFacts.

(** ** More epoch and slot arithmetic *)

Module Eth2Laws.
Import Go Eth2 Eth2Facts.
Local Open Scope Z_scope.

Lemma div_plus_small (a k b : Z) : 0 < b -> 0 <= k < b -> (a * b + k) / b = a.
Proof.
  intros Hb Hk. rewrite Z.add_comm, Z.div_add by lia.
  rewrite Z.div_small by lia. lia.
Qed.

(** X1. Every second of epoch [e] maps back to [e]: for [genesisEpoch <= e]
    and [0 <= k < secondsPerEpoch], as long as the timestamp fits a
    [uint64], [EpochAtTimestamp(StartTimestampOfEpoch(e) + k) = e]. *)
Theorem EpochAtTimestamp_within_epoch (cfg : Eth2Config) (e k : Z) :
  wf_config cfg -> is_u64 e -> GenesisEpoch cfg <= e ->
  0 <= k < SecondsPerEpoch cfg ->
  (e - GenesisEpoch cfg) * SecondsPerEpoch cfg + GenesisTime cfg + k < two64 ->
  EpochAtTimestamp cfg (add64 (StartTimestampOfEpoch cfg e) k) = Some e.
Proof.
  intros Hwf He Hge Hk Hno.
  destruct Hwf as (Hg & Ht & _ & _ & Hspe).
  unfold is_u64 in *.
  unfold EpochAtTimestamp, StartTimestampOfEpoch, mul64, sub64, add64, div64.
  rewrite (wrap64_small (e - GenesisEpoch cfg)) by (unfold is_u64; lia).
  rewrite (wrap64_small ((e - GenesisEpoch cfg) * SecondsPerEpoch cfg))
    by (unfold is_u64; nia).
  rewrite (wrap64_small ((e - GenesisEpoch cfg) * SecondsPerEpoch cfg + GenesisTime cfg))
    by (unfold is_u64; nia).
  rewrite (wrap64_small ((e - GenesisEpoch cfg) * SecondsPerEpoch cfg
                         + GenesisTime cfg + k)) by (unfold is_u64; nia).
  replace ((e - GenesisEpoch cfg) * SecondsPerEpoch cfg + GenesisTime cfg + k
           - GenesisTime cfg)
    with ((e - GenesisEpoch cfg) * SecondsPerEpoch cfg + k) by lia.
  rewrite (wrap64_small ((e - GenesisEpoch cfg) * SecondsPerEpoch cfg + k))
    by (unfold is_u64; nia).
  destruct (SecondsPerEpoch cfg =? 0) eqn:Hz; [apply Z.eqb_eq in Hz; lia |].
  rewrite div_plus_small by lia.
  f_equal. replace (GenesisEpoch cfg + (e - GenesisEpoch cfg)) with e by lia.
  apply wrap64_small. unfold is_u64. lia.
Qed.

Lemma EpochAtTimestamp_within_epoch_witness :
  EpochAtTimestamp mainnet (add64 (StartTimestampOfEpoch mainnet 250000) 383)
  = Some 250000.
Proof.
  apply (EpochAtTimestamp_within_epoch mainnet 250000 383).
  - unfold wf_config, is_u64, two64; simpl; lia.
  - unfold is_u64, two64; lia.
  - simpl; lia.
  - simpl; lia.
  - unfold two64; simpl; lia.
Defined.

(** X2. Conversely, a timestamp [t] at or after genesis lies in the epoch
    that [EpochAtTimestamp] answers: that epoch starts at or before [t] and
    the next one after [t] (no wrap-around of the epoch number). *)
Theorem EpochAtTimestamp_brackets (cfg : Eth2Config) (t ep : Z) :
  wf_config cfg -> is_u64 t -> GenesisTime cfg <= t ->
  GenesisEpoch cfg + (t - GenesisTime cfg) / SecondsPerEpoch cfg < two64 ->
  EpochAtTimestamp cfg t = Some ep ->
  GenesisEpoch cfg <= ep
  /\ StartTimestampOfEpoch cfg ep <= t
  /\ t < StartTimestampOfEpoch cfg ep + SecondsPerEpoch cfg.
Proof.
  intros Hwf Ht Hge Hno Hrun.
  destruct Hwf as (Hg & Hgt & _ & _ & Hspe).
  unfold is_u64 in *.
  unfold EpochAtTimestamp, div64, sub64, add64 in Hrun.
  destruct (SecondsPerEpoch cfg =? 0) eqn:Hz; [discriminate |].
  apply Z.eqb_neq in Hz.
  rewrite (wrap64_small (t - GenesisTime cfg)) in Hrun by (unfold is_u64; lia).
  set (q := (t - GenesisTime cfg) / SecondsPerEpoch cfg) in *.
  assert (Hq0 : 0 <= q) by (apply Z.div_pos; lia).
  rewrite (wrap64_small (GenesisEpoch cfg + q)) in Hrun by (unfold is_u64; lia).
  injection Hrun as <-.
  pose proof (Z.mul_div_le (t - GenesisTime cfg) (SecondsPerEpoch cfg) ltac:(lia)) as Hlo.
  pose proof (Z.mul_succ_div_gt (t - GenesisTime cfg) (SecondsPerEpoch cfg) ltac:(lia)) as Hhi.
  fold q in Hlo, Hhi.
  unfold StartTimestampOfEpoch, mul64, sub64, add64.
  replace (GenesisEpoch cfg + q - GenesisEpoch cfg) with q by lia.
  assert (Hq : q * SecondsPerEpoch cfg <= t - GenesisTime cfg) by lia.
  rewrite (wrap64_small q) by (unfold is_u64; nia).
  rewrite (wrap64_small (q * SecondsPerEpoch cfg)) by (unfold is_u64; nia).
  rewrite (wrap64_small (q * SecondsPerEpoch cfg + GenesisTime cfg))
    by (unfold is_u64; nia).
  repeat split; lia.
Qed.

Lemma EpochAtTimestamp_brackets_witness :
  GenesisEpoch mainnet <= 4
  /\ StartTimestampOfEpoch mainnet 4 <= 1606825600
  /\ 1606825600 < StartTimestampOfEpoch mainnet 4 + SecondsPerEpoch mainnet.
Proof.
  apply (EpochAtTimestamp_brackets mainnet 1606825600 4).
  - unfold wf_config, is_u64, two64; simpl; lia.
  - unfold is_u64, two64; lia.
  - simpl; lia.
  - vm_compute; reflexivity.
  - reflexivity.
Defined.

(** X3. Slots and timestamps: every second of slot [s] maps back to [s]
    ([SlotAtTimestamp(TimestampOfSlot(s) + k) = s] for
    [0 <= k < secondsPerSlot]), as long as the timestamp fits a [uint64]. *)
Theorem SlotAtTimestamp_within_slot (cfg : Eth2Config) (s k : Z) :
  wf_config cfg -> 0 <= s ->
  0 <= k < SecondsPerSlot cfg ->
  s * SecondsPerSlot cfg + GenesisTime cfg + k < two64 ->
  SlotAtTimestamp cfg (add64 (TimestampOfSlot cfg s) k) = Some s.
Proof.
  intros Hwf Hs Hk Hno.
  destruct Hwf as (_ & Ht & Hsps & _ & _).
  unfold is_u64 in *.
  unfold SlotAtTimestamp, TimestampOfSlot, mul64, sub64, add64, div64.
  rewrite (wrap64_small (s * SecondsPerSlot cfg)) by (unfold is_u64; nia).
  rewrite (wrap64_small (s * SecondsPerSlot cfg + GenesisTime cfg))
    by (unfold is_u64; nia).
  rewrite (wrap64_small (s * SecondsPerSlot cfg + GenesisTime cfg + k))
    by (unfold is_u64; nia).
  replace (s * SecondsPerSlot cfg + GenesisTime cfg + k - GenesisTime cfg)
    with (s * SecondsPerSlot cfg + k) by lia.
  rewrite (wrap64_small (s * SecondsPerSlot cfg + k)) by (unfold is_u64; nia).
  destruct (SecondsPerSlot cfg =? 0) eqn:Hz; [apply Z.eqb_eq in Hz; lia |].
  rewrite div_plus_small by lia. reflexivity.
Qed.

Lemma SlotAtTimestamp_within_slot_witness :
  SlotAtTimestamp mainnet (add64 (TimestampOfSlot mainnet 8000000) 11) = Some 8000000.
Proof.
  apply (SlotAtTimestamp_within_slot mainnet 8000000 11).
  - unfold wf_config, is_u64, two64; simpl; lia.
  - lia.
  - simpl; lia.
  - unfold two64; simpl; lia.
Defined.

(** X4. The slots of the epochs tile the slot numbers: epoch [e] runs from
    [StartSlotOfEpoch(e)] to [EndSlotOfEpoch(e)], that is [slotsPerEpoch]
    slots, and the next epoch starts right after (no overflow,
    [slotsPerEpoch > 0]). *)
Theorem epoch_slots_tile (cfg : Eth2Config) (e : Z) :
  0 <= e -> 0 < SlotsPerEpoch cfg ->
  SlotsPerEpoch cfg * (e + 1) < two64 ->
  EndSlotOfEpoch cfg e = StartSlotOfEpoch cfg e + SlotsPerEpoch cfg - 1
  /\ StartSlotOfEpoch cfg e <= EndSlotOfEpoch cfg e
  /\ StartSlotOfEpoch cfg (add64 e 1) = EndSlotOfEpoch cfg e + 1.
Proof.
  intros He Hs Hno.
  assert (He1 : is_u64 (e + 1)) by (unfold is_u64; nia).
  unfold EndSlotOfEpoch, StartSlotOfEpoch, mul64, add64, sub64.
  rewrite (wrap64_small (e + 1)) by exact He1.
  rewrite (wrap64_small (SlotsPerEpoch cfg * (e + 1))) by (unfold is_u64; nia).
  rewrite (wrap64_small (SlotsPerEpoch cfg * (e + 1) - 1)) by (unfold is_u64; nia).
  rewrite (wrap64_small (SlotsPerEpoch cfg * e)) by (unfold is_u64; nia).
  repeat split; lia.
Qed.

Lemma epoch_slots_tile_witness :
  EndSlotOfEpoch mainnet 250000 = StartSlotOfEpoch mainnet 250000 + SlotsPerEpoch mainnet - 1
  /\ StartSlotOfEpoch mainnet 250000 <= EndSlotOfEpoch mainnet 250000
  /\ StartSlotOfEpoch mainnet (add64 250000 1) = EndSlotOfEpoch mainnet 250000 + 1.
Proof.
  apply (epoch_slots_tile mainnet 250000).
  - lia.
  - simpl; lia.
  - unfold two64; simpl; lia.
Defined.

(** X5. A slot lies in the epoch numbered [genesisEpoch + slot /
    slotsPerEpoch]: when [secondsPerEpoch = secondsPerSlot * slotsPerEpoch >
    0] and nothing overflows,
    [EpochAtTimestamp(TimestampOfSlot(s)) = genesisEpoch + s / slotsPerEpoch]. *)
Theorem EpochAtTimestamp_TimestampOfSlot (cfg : Eth2Config) (s : Z) :
  wf_config cfg -> 0 <= s ->
  SecondsPerEpoch cfg = SecondsPerSlot cfg * SlotsPerEpoch cfg ->
  0 < SecondsPerEpoch cfg ->
  s * SecondsPerSlot cfg + GenesisTime cfg < two64 ->
  GenesisEpoch cfg + s / SlotsPerEpoch cfg < two64 ->
  EpochAtTimestamp cfg (TimestampOfSlot cfg s)
  = Some (GenesisEpoch cfg + s / SlotsPerEpoch cfg).
Proof.
  intros Hwf Hs Heq Hpos Hno Hno'.
  destruct Hwf as (Hg & Ht & Hsps & Hslots & Hspe).
  unfold is_u64 in *.
  assert (Hp : 0 < SecondsPerSlot cfg) by nia.
  assert (Hl : 0 < SlotsPerEpoch cfg) by nia.
  unfold EpochAtTimestamp, TimestampOfSlot, mul64, sub64, add64, div64.
  rewrite (wrap64_small (s * SecondsPerSlot cfg)) by (unfold is_u64; nia).
  rewrite (wrap64_small (s * SecondsPerSlot cfg + GenesisTime cfg))
    by (unfold is_u64; nia).
  replace (s * SecondsPerSlot cfg + GenesisTime cfg - GenesisTime cfg)
    with (s * SecondsPerSlot cfg) by lia.
  rewrite (wrap64_small (s * SecondsPerSlot cfg)) by (unfold is_u64; nia).
  destruct (SecondsPerEpoch cfg =? 0) eqn:Hz; [apply Z.eqb_eq in Hz; lia |].
  rewrite Heq.
  replace (s * SecondsPerSlot cfg) with (SecondsPerSlot cfg * s) by lia.
  rewrite Z.div_mul_cancel_l by lia.
  f_equal. apply wrap64_small. unfold is_u64.
  pose proof (Z.div_pos s (SlotsPerEpoch cfg) Hs Hl). lia.
Qed.

Lemma EpochAtTimestamp_TimestampOfSlot_witness :
  EpochAtTimestamp mainnet (TimestampOfSlot mainnet 8000005)
  = Some (GenesisEpoch mainnet + 8000005 / SlotsPerEpoch mainnet).
Proof.
  apply (EpochAtTimestamp_TimestampOfSlot mainnet 8000005).
  - unfold wf_config, is_u64, two64; simpl; lia.
  - lia.
  - reflexivity.
  - simpl; lia.
  - unfold two64; simpl; lia.
  - vm_compute; reflexivity.
Defined.

(** X6. A timestamp before genesis is not refused: the subtraction wraps
    around and [SlotAtTimestamp] and [EpochAtTimestamp] answer the slot and
    epoch of a time [2^64 - (genesisTime - t)] seconds after genesis. *)
Theorem timestamp_before_genesis_wraps (cfg : Eth2Config) (t : Z) :
  wf_config cfg -> 0 <= t < GenesisTime cfg ->
  0 < SecondsPerSlot cfg -> 0 < SecondsPerEpoch cfg ->
  SlotAtTimestamp cfg t
  = Some ((two64 - (GenesisTime cfg - t)) / SecondsPerSlot cfg)
  /\ EpochAtTimestamp cfg t
     = Some (add64 (GenesisEpoch cfg)
                   ((two64 - (GenesisTime cfg - t)) / SecondsPerEpoch cfg)).
Proof.
  intros Hwf Ht Hsps Hspe.
  destruct Hwf as (_ & Hg & _ & _ & _). unfold is_u64 in *.
  assert (Hw : sub64 t (GenesisTime cfg) = two64 - (GenesisTime cfg - t)).
  { unfold sub64, wrap64.
    replace (t - GenesisTime cfg)
      with ((two64 - (GenesisTime cfg - t)) + (-1) * two64) by lia.
    rewrite Z.mod_add by (unfold two64; lia).
    apply Z.mod_small. lia. }
  unfold SlotAtTimestamp, EpochAtTimestamp, div64. rewrite Hw.
  destruct (SecondsPerSlot cfg =? 0) eqn:H1; [apply Z.eqb_eq in H1; lia |].
  destruct (SecondsPerEpoch cfg =? 0) eqn:H2; [apply Z.eqb_eq in H2; lia |].
  split; reflexivity.
Qed.

Lemma timestamp_before_genesis_wraps_witness :
  SlotAtTimestamp mainnet 1606824011 = Some 1537228672809129300
  /\ EpochAtTimestamp mainnet 1606824011 = Some 48038396025285290.
Proof.
  apply (timestamp_before_genesis_wraps mainnet 1606824011).
  - unfold wf_config, is_u64, two64; simpl; lia.
  - simpl; lia.
  - simpl; lia.
  - simpl; lia.
Defined.

End Eth2Laws.

(** ** The exact course of a wait *)

Module WaitTxTraces.
Import Go Effects Utils WaitTx.

(** [n] unsuccessful polls, each followed by the sleep. *)
Definition pendingPolls (h : string) (n : nat) : Trace :=
  List.concat (List.repeat [EvTransactionByHash h; EvSleep RetryInterval] n).
Definition receiptPolls (h : string) (n : nat) : Trace :=
  List.concat (List.repeat [EvTransactionReceipt h; EvSleep RetryInterval] n).

Definition isErr {T : Type} (r : result T) : Prop :=
  match r with Err _ => True | Ok _ => False end.

Lemma pendingPolls_S (h : string) (n : nat) :
  pendingPolls h (S n)
  = [EvTransactionByHash h; EvSleep RetryInterval] ++ pendingPolls h n.
Proof. reflexivity. Qed.

Lemma receiptPolls_S (h : string) (n : nat) :
  receiptPolls h (S n)
  = [EvTransactionReceipt h; EvSleep RetryInterval] ++ receiptPolls h n.
Proof. reflexivity. Qed.

Lemma count_pendingPolls (h : string) (n : nat) :
  count is_by_hash (pendingPolls h n) = n
  /\ count is_sleep (pendingPolls h n) = n
  /\ count is_receipt (pendingPolls h n) = 0.
Proof.
  induction n as [| n (H1 & H2 & H3)]; [repeat split |].
  rewrite pendingPolls_S, !WaitTxFacts.count_app, H1, H2, H3. repeat split.
Qed.

Lemma count_receiptPolls (h : string) (n : nat) :
  count is_receipt (receiptPolls h n) = n
  /\ count is_sleep (receiptPolls h n) = n
  /\ count is_by_hash (receiptPolls h n) = 0.
Proof.
  induction n as [| n (H1 & H2 & H3)]; [repeat split |].
  rewrite receiptPolls_S, !WaitTxFacts.count_app, H1, H2, H3. repeat split.
Qed.

Lemma receiptLoop_found (c : EthClient) (h : string) (r : Receipt) :
  forall (j k fuel : nat) (t : Trace),
    (forall i, k <= i < k + j -> isErr (TransactionReceipt c i)) ->
    TransactionReceipt c (k + j) = Ok r ->
    k + j <= RetryLimit -> j < fuel ->
    receiptLoop fuel c h k t
    = Some (Ok r, t ++ receiptPolls h j ++ [EvTransactionReceipt h]).
Proof.
  induction j as [| j IH]; intros k fuel t Herr Hok Hle Hfuel;
    (destruct fuel as [| fuel]; [lia |]); cbn [receiptLoop].
  - destruct (Nat.ltb_spec RetryLimit k); [lia |].
    rewrite Nat.add_0_r in Hok. rewrite Hok. reflexivity.
  - destruct (Nat.ltb_spec RetryLimit k); [lia |].
    pose proof (Herr k ltac:(lia)) as Hk.
    destruct (TransactionReceipt c k) as [r0 | e]; [destruct Hk |].
    rewrite (IH (S k) fuel); try lia.
    + rewrite receiptPolls_S, <- !app_assoc. reflexivity.
    + intros i Hi. apply Herr. lia.
    + rewrite <- Hok. f_equal. lia.
Qed.

Lemma receiptLoop_exhausted (c : EthClient) (h : string) :
  forall (n k fuel : nat) (t : Trace),
    k + n = S RetryLimit -> n < fuel ->
    (forall i, k <= i <= RetryLimit -> isErr (TransactionReceipt c i)) ->
    receiptLoop fuel c h k t
    = Some (Err (Errorf "TransactionReceipt %s reach retry limit"),
            t ++ receiptPolls h n).
Proof.
  induction n as [| n IH]; intros k fuel t Hk Hfuel Herr;
    (destruct fuel as [| fuel]; [lia |]); cbn [receiptLoop].
  - destruct (Nat.ltb_spec RetryLimit k); [| lia].
    rewrite app_nil_r. reflexivity.
  - destruct (Nat.ltb_spec RetryLimit k); [lia |].
    pose proof (Herr k ltac:(lia)) as Hk'.
    destruct (TransactionReceipt c k) as [r0 | e]; [destruct Hk' |].
    rewrite (IH (S k) fuel); try lia.
    + rewrite receiptPolls_S, <- !app_assoc. reflexivity.
    + intros i Hi. apply Herr. lia.
Qed.

Lemma waitLoop_exhausted (c : EthClient) (h : string) :
  forall (n k fuel : nat) (t : Trace),
    k + n = S RetryLimit -> n < fuel ->
    (forall i, k <= i <= RetryLimit -> TransactionByHash c i <> Ok false) ->
    waitLoop fuel c h k t
    = Some (0%Z, Some (Errorf "waitTx %s reach retry limit"), t ++ pendingPolls h n).
Proof.
  induction n as [| n IH]; intros k fuel t Hk Hfuel Hnot;
    (destruct fuel as [| fuel]; [lia |]); cbn [waitLoop].
  - destruct (Nat.ltb_spec RetryLimit k); [| lia].
    rewrite app_nil_r. reflexivity.
  - destruct (Nat.ltb_spec RetryLimit k); [lia |].
    pose proof (Hnot k ltac:(lia)) as Hk'.
    destruct (TransactionByHash c k) as [[|] | e]; [| congruence |].
    + rewrite (IH (S k) fuel); try lia.
      * rewrite pendingPolls_S, <- !app_assoc. reflexivity.
      * intros i Hi. apply Hnot. lia.
    + rewrite (IH (S k) fuel); try lia.
      * rewrite pendingPolls_S, <- !app_assoc. reflexivity.
      * intros i Hi. apply Hnot. lia.
Qed.

(** The outer loop up to the poll that finds the transaction settled: the
    rest is the receipt loop, started from that trace. *)
Lemma waitLoop_settled (c : EthClient) (h : string) :
  forall (i k fuel : nat) (t : Trace),
    (forall n, k <= n < k + i -> TransactionByHash c n <> Ok false) ->
    TransactionByHash c (k + i) = Ok false ->
    k + i <= RetryLimit -> i < fuel ->
    waitLoop fuel c h k t
    = match receiptLoop (S (S RetryLimit)) c h 0
              (t ++ pendingPolls h i ++ [EvTransactionByHash h]) with
      | None => None
      | Some (Err e, t') => Some (0%Z, Some e, t')
      | Some (Ok receipt, t') =>
          if (Status receipt =? 1)%Z
          then Some (wrap64 (BlockNumber receipt), None, t')
          else Some (0%Z, Some (Errorf "tx %s failed"), t')
      end.
Proof.
  induction i as [| i IH]; intros k fuel t Hnot Hok Hle Hfuel;
    (destruct fuel as [| fuel]; [lia |]); cbn [waitLoop].
  - destruct (Nat.ltb_spec RetryLimit k); [lia |].
    rewrite Nat.add_0_r in Hok. rewrite Hok. reflexivity.
  - destruct (Nat.ltb_spec RetryLimit k); [lia |].
    pose proof (Hnot k ltac:(lia)) as Hk'.
    assert (Hstep : forall t0,
               waitLoop fuel c h (S k) (t0 ++ [EvSleep RetryInterval])
               = match receiptLoop (S (S RetryLimit)) c h 0
                         ((t0 ++ [EvSleep RetryInterval])
                            ++ pendingPolls h i ++ [EvTransactionByHash h]) with
                 | None => None
                 | Some (Err e, t') => Some (0%Z, Some e, t')
                 | Some (Ok receipt, t') =>
                     if (Status receipt =? 1)%Z
                     then Some (wrap64 (BlockNumber receipt), None, t')
                     else Some (0%Z, Some (Errorf "tx %s failed"), t')
                 end).
    { intros t0. apply IH; try lia.
      - intros n Hn. apply Hnot. lia.
      - rewrite <- Hok. f_equal. lia. }
    assert (Htr : (t ++ [EvTransactionByHash h]) ++ [EvSleep RetryInterval]
                    ++ pendingPolls h i ++ [EvTransactionByHash h]
                  = t ++ pendingPolls h (S i) ++ [EvTransactionByHash h]).
    { rewrite pendingPolls_S, <- !app_assoc. reflexivity. }
    destruct (TransactionByHash c k) as [[|] | e]; [| congruence |];
      rewrite Hstep, <- app_assoc, Htr; reflexivity.
Qed.

(** X7. A transaction that the client never reports as known and not
    pending: [WaitTxOkCommon] polls [TransactionByHash] 601 times, sleeps 6
    seconds after every poll (also after the last one), never asks for the
    receipt, then requests the shutdown and returns block number 0 with the
    retry-limit error. *)
Theorem WaitTxOkCommon_never_settled (c : EthClient) (h : string) (t : Trace) :
  (forall i, i <= RetryLimit -> TransactionByHash c i <> Ok false) ->
  WaitTxOkCommon waitFuel c h t
  = Some (0%Z, Some (Errorf "waitTx %s reach retry limit"),
          t ++ pendingPolls h 601 ++ [EvShutdownRequest])
  /\ count is_by_hash (pendingPolls h 601) = 601
  /\ count is_sleep (pendingPolls h 601) = 601
  /\ count is_receipt (pendingPolls h 601) = 0.
Proof.
  intros Hnot. split; [| apply count_pendingPolls].
  unfold WaitTxOkCommon.
  rewrite (waitLoop_exhausted c h (S RetryLimit) 0 waitFuel t);
    [| lia | unfold waitFuel; lia | intros i Hi; apply Hnot; lia].
  rewrite <- app_assoc. reflexivity.
Qed.

(** A client on which the transaction stays pending for ever. *)
Definition pendingClient : EthClient :=
  mkEthClient (fun _ => Ok true) (fun _ => Err (ErrExternal 404)).

Lemma WaitTxOkCommon_never_settled_witness :
  WaitTxOkCommon waitFuel pendingClient "0xa1" []
  = Some (0%Z, Some (Errorf "waitTx %s reach retry limit"),
          [] ++ pendingPolls "0xa1" 601 ++ [EvShutdownRequest])
  /\ count is_by_hash (pendingPolls "0xa1" 601) = 601
  /\ count is_sleep (pendingPolls "0xa1" 601) = 601
  /\ count is_receipt (pendingPolls "0xa1" 601) = 0.
Proof.
  apply (WaitTxOkCommon_never_settled pendingClient "0xa1" []).
  intros i _. discriminate.
Defined.

(** X8. A transaction seen settled at poll [i] whose receipt arrives at poll
    [j] (both within the limit): the wait makes [i + 1] calls of
    [TransactionByHash] and [j + 1] calls of [TransactionReceipt], with a
    sleep after each unsuccessful one and none after the successful ones.  A
    receipt with status 1 gives its block number and no shutdown; any other
    status gives the error "tx failed" and the shutdown request. *)
Theorem WaitTxOkCommon_settled (c : EthClient) (h : string) (t : Trace)
        (i j : nat) (r : Receipt) :
  i <= RetryLimit -> j <= RetryLimit ->
  (forall n, n < i -> TransactionByHash c n <> Ok false) ->
  TransactionByHash c i = Ok false ->
  (forall n, n < j -> isErr (TransactionReceipt c n)) ->
  TransactionReceipt c j = Ok r ->
  WaitTxOkCommon waitFuel c h t
  = (let polls :=
       t ++ pendingPolls h i ++ [EvTransactionByHash h]
         ++ receiptPolls h j ++ [EvTransactionReceipt h] in
     if (Status r =? 1)%Z
     then Some (wrap64 (BlockNumber r), None, polls)
     else Some (0%Z, Some (Errorf "tx %s failed"), polls ++ [EvShutdownRequest])).
Proof.
  intros Hi Hj Hnot Hset Herr Hrec. cbv zeta.
  unfold WaitTxOkCommon.
  rewrite (waitLoop_settled c h i 0 waitFuel t);
    [| intros n Hn; apply Hnot; lia | exact Hset | lia | unfold waitFuel; lia].
  rewrite (receiptLoop_found c h r j 0);
    [| intros n Hn; apply Herr; lia | exact Hrec | lia | lia].
  rewrite <- !app_assoc.
  destruct (Status r =? 1)%Z; [reflexivity |].
  rewrite <- !app_assoc. reflexivity.
Qed.

Lemma WaitTxOkCommon_settled_witness :
  WaitTxOkCommon waitFuel WaitTxFacts.minedClient "0xa1" []
  = Some (77%Z, None,
          [EvTransactionByHash "0xa1"; EvSleep 6; EvTransactionByHash "0xa1";
           EvTransactionReceipt "0xa1"; EvSleep 6; EvTransactionReceipt "0xa1"]).
Proof.
  apply (WaitTxOkCommon_settled WaitTxFacts.minedClient "0xa1" [] 1 1
           (mkReceipt 1 77)).
  - unfold RetryLimit; lia.
  - unfold RetryLimit; lia.
  - intros n Hn. assert (n = 0) as -> by lia. discriminate.
  - reflexivity.
  - intros n Hn. assert (n = 0) as -> by lia. exact I.
  - reflexivity.
Defined.

(** X9. A settled transaction whose receipt never arrives: after the poll
    that finds it settled the wait asks for the receipt 601 times, sleeping
    after each, then requests the shutdown and returns the receipt
    retry-limit error.  The receipt loop has a retry budget of its own, so a
    wait can last up to 1202 polls. *)
Theorem WaitTxOkCommon_receipt_missing (c : EthClient) (h : string) (t : Trace)
        (i : nat) :
  i <= RetryLimit ->
  (forall n, n < i -> TransactionByHash c n <> Ok false) ->
  TransactionByHash c i = Ok false ->
  (forall n, n <= RetryLimit -> isErr (TransactionReceipt c n)) ->
  WaitTxOkCommon waitFuel c h t
  = Some (0%Z, Some (Errorf "TransactionReceipt %s reach retry limit"),
          t ++ pendingPolls h i ++ [EvTransactionByHash h]
            ++ receiptPolls h 601 ++ [EvShutdownRequest])
  /\ count is_receipt (receiptPolls h 601) = 601.
Proof.
  intros Hi Hnot Hset Herr. split; [| apply count_receiptPolls].
  unfold WaitTxOkCommon.
  rewrite (waitLoop_settled c h i 0 waitFuel t);
    [| intros n Hn; apply Hnot; lia | exact Hset | lia | unfold waitFuel; lia].
  rewrite (receiptLoop_exhausted c h (S RetryLimit) 0);
    [| lia | lia | intros n Hn; apply Herr; lia].
  rewrite <- !app_assoc. reflexivity.
Qed.

(** A client that sees the transaction at once but never its receipt. *)
Definition noReceiptClient : EthClient :=
  mkEthClient (fun _ => Ok false) (fun _ => Err (ErrExternal 404)).

Lemma WaitTxOkCommon_receipt_missing_witness :
  WaitTxOkCommon waitFuel noReceiptClient "0xa1" []
  = Some (0%Z, Some (Errorf "TransactionReceipt %s reach retry limit"),
          [] ++ pendingPolls "0xa1" 0 ++ [EvTransactionByHash "0xa1"]
             ++ receiptPolls "0xa1" 601 ++ [EvShutdownRequest])
  /\ count is_receipt (receiptPolls "0xa1" 601) = 601.
Proof.
  apply (WaitTxOkCommon_receipt_missing noReceiptClient "0xa1" [] 0).
  - lia.
  - intros n Hn. lia.
  - reflexivity.
  - intros n _. exact I.
Defined.

End WaitTxTraces.

(** ** pkg/utils/utils.go: the other helpers *)

Module UtilsMoreFacts.
Import Go Utils UtilsMore.
Local Open Scope Z_scope.

(** *** Min and Max *)

Lemma Min_fold (nums : list Z) :
  forall n1 : Z,
    In (Min n1 nums) (n1 :: nums)
    /\ Min n1 nums <= n1
    /\ (forall x, In x nums -> Min n1 nums <= x).
Proof.
  unfold Min. induction nums as [| n nums IH]; intros n1; cbn [fold_left].
  - split; [left; reflexivity |]. split; [lia | intros x []].
  - destruct (IH (if n <? n1 then n else n1)) as (Hin & Hle & Hall).
    destruct (Z.ltb_spec n n1) as [Hlt | Hge].
    + split; [destruct Hin as [<- | Hin]; [right; left; reflexivity | right; right; exact Hin] |].
      split; [lia |]. intros x [<- | Hx]; [exact Hle | apply Hall; exact Hx].
    + split; [destruct Hin as [<- | Hin]; [left; reflexivity | right; right; exact Hin] |].
      split; [lia |]. intros x [<- | Hx]; [lia | apply Hall; exact Hx].
Qed.

(** X10. [Min(n1, nums...)] is one of its arguments and is less than or
    equal to each of them; with no [nums] it is [n1].  [Max(a, b)] is one of
    [a] and [b] and at least both. *)
Theorem Min_Max_spec (n1 : Z) (nums : list Z) (a b : Z) :
  In (Min n1 nums) (n1 :: nums)
  /\ (forall x, In x (n1 :: nums) -> Min n1 nums <= x)
  /\ Min n1 [] = n1
  /\ (Max a b = a \/ Max a b = b) /\ a <= Max a b /\ b <= Max a b.
Proof.
  destruct (Min_fold nums n1) as (Hin & Hle & Hall).
  split; [exact Hin |].
  split; [intros x [<- | Hx]; [exact Hle | apply Hall; exact Hx] |].
  split; [reflexivity |].
  unfold Max. destruct (Z.ltb_spec b a); repeat split; auto; lia.
Qed.

(** *** ExecuteFns *)

Lemma ExecuteFns_app {S : Type} (a b : list (S -> option error * S)) (st : S) :
  ExecuteFns (a ++ b) st
  = match ExecuteFns a st with
    | (Some err, st') => (Some err, st')
    | (None, st') => ExecuteFns b st'
    end.
Proof.
  revert st. induction a as [| f a IH]; intros st; cbn [app ExecuteFns].
  - reflexivity.
  - destruct (f st) as [[err |] st']; [reflexivity | apply IH].
Qed.

(** X11. [ExecuteFns] runs the functions in order and stops at the first
    one that returns an error: it returns [err] exactly when some function
    [f] returns [err] after all the functions before it returned nil, and
    then no function after [f] has run (the state is the one [f] left). *)
Theorem ExecuteFns_first_error {S : Type} (fns : list (S -> option error * S))
        (st st' : S) (err : error) :
  ExecuteFns fns st = (Some err, st')
  <-> exists pre f post st1,
        fns = pre ++ f :: post
        /\ ExecuteFns pre st = (None, st1)
        /\ f st1 = (Some err, st').
Proof.
  split.
  - revert st. induction fns as [| f fns IH]; intros st Hrun; cbn [ExecuteFns] in Hrun.
    + discriminate.
    + destruct (f st) as [[e |] s1] eqn:Hf.
      * injection Hrun as -> ->. exists [], f, fns, st. repeat split. exact Hf.
      * destruct (IH s1 Hrun) as (pre & g & post & st1 & -> & Hpre & Hg).
        exists (f :: pre), g, post, st1. repeat split; [| exact Hg].
        cbn [ExecuteFns]. rewrite Hf. exact Hpre.
  - intros (pre & f & post & st1 & -> & Hpre & Hf).
    rewrite ExecuteFns_app, Hpre. cbn [ExecuteFns]. rewrite Hf. reflexivity.
Qed.

(** *** EventTopics *)

Lemma fillTopics_spec (Events : gmap string (list byte)) (names : list string) :
  forall (i : nat) (topics res : list (list byte)),
    length topics = (i + length names)%nat ->
    fillTopics Events names i topics = Ok res ->
    length res = length topics
    /\ (forall j, (j < i)%nat -> res !! j = topics !! j)
    /\ (forall k name, names !! k = Some name ->
          exists ID, Events !! name = Some ID /\ res !! (i + k)%nat = Some ID).
Proof.
  induction names as [| name names IH]; intros i topics res Hlen Hrun;
    cbn [fillTopics] in Hrun.
  - injection Hrun as <-. repeat split; auto. intros k name Hk. discriminate.
  - destruct (Events !! name) as [ID |] eqn:Hev; [| discriminate].
    cbn [length] in Hlen.
    destruct (IH (S i) (<[i := ID]> topics) res) as (Hl & Hkeep & Hnew);
      [rewrite length_insert; lia | exact Hrun |].
    rewrite length_insert in Hl.
    split; [exact Hl |]. split.
    + intros j Hj. rewrite (Hkeep j) by lia.
      apply list_lookup_insert_ne. lia.
    + intros [| k] nm Hk; cbn in Hk.
      * injection Hk as <-. exists ID. split; [exact Hev |].
        rewrite Nat.add_0_r, (Hkeep i) by lia.
        apply list_lookup_insert_eq. lia.
      * destruct (Hnew k nm Hk) as (ID' & H1 & H2).
        exists ID'. split; [exact H1 |].
        replace (i + S k)%nat with (S i + k)%nat by lia. exact H2.
Qed.

Lemma fillTopics_fails (Events : gmap string (list byte)) (names : list string) :
  forall (i : nat) (topics : list (list byte)),
    (exists e, fillTopics Events names i topics = Err e)
    <-> exists name, In name names /\ Events !! name = None.
Proof.
  induction names as [| name names IH]; intros i topics; cbn [fillTopics].
  - split; [intros (e & He); discriminate | intros (n & [] & _)].
  - destruct (Events !! name) as [ID |] eqn:Hev.
    + rewrite IH. split.
      * intros (n & Hin & Hn). exists n. split; [right; exact Hin | exact Hn].
      * intros (n & [<- | Hin] & Hn); [congruence |]. exists n. split; assumption.
    + split; [| intros _; eexists; reflexivity].
      intros _. exists name. split; [left; reflexivity | exact Hev].
Qed.

(** X12. [EventTopics] fails exactly when one of the names is not an event
    of the ABI, and then returns no topics at all; otherwise it returns one
    topic per name, in the order of the names, each the ID of its event. *)
Theorem EventTopics_spec (Events : gmap string (list byte)) (names : list string) :
  ((exists e, EventTopics Events names = Err e)
   <-> exists name, In name names /\ Events !! name = None)
  /\ (forall topics,
         EventTopics Events names = Ok topics ->
         length topics = length names
         /\ forall k name, names !! k = Some name ->
              exists ID, Events !! name = Some ID /\ topics !! k = Some ID).
Proof.
  split; [apply fillTopics_fails |].
  intros topics Hrun.
  destruct (fillTopics_spec Events names 0 (List.repeat zeroHash (length names)) topics)
    as (Hl & _ & Hnew);
    [rewrite repeat_length; reflexivity | exact Hrun |].
  rewrite repeat_length in Hl. split; [exact Hl | exact Hnew].
Qed.

(** *** Symbol tables *)

(** The symbols with a price are the valid symbols and FIS:
    [SymbolValid] holds of DOT, KSM, ATOM and ETH only, and
    [PriceSymbolValid] of these and of FIS; any other string, being a
    missing key, gives false. *)
Theorem symbol_tables (symbol : string) :
  (SymbolValid symbol = true
   <-> In symbol [SymbolDot; SymbolKsm; SymbolAtom; SymbolEth])
  /\ (PriceSymbolValid symbol = true
      <-> SymbolValid symbol = true \/ symbol = SymbolFis).
Proof.
  unfold SymbolValid, PriceSymbolValid, symbolMap, priceSymbolMap.
  destruct (decide (symbol = SymbolDot)) as [-> | N1];
    [rewrite !lookup_insert_eq; cbn; tauto |].
  rewrite !(lookup_insert_ne _ SymbolDot) by congruence.
  destruct (decide (symbol = SymbolKsm)) as [-> | N2];
    [rewrite !lookup_insert_eq; cbn; tauto |].
  rewrite !(lookup_insert_ne _ SymbolKsm) by congruence.
  destruct (decide (symbol = SymbolAtom)) as [-> | N3];
    [rewrite !lookup_insert_eq; cbn; tauto |].
  rewrite !(lookup_insert_ne _ SymbolAtom) by congruence.
  destruct (decide (symbol = SymbolEth)) as [-> | N4];
    [rewrite !lookup_insert_eq; cbn; tauto |].
  rewrite !(lookup_insert_ne _ SymbolEth) by congruence.
  destruct (decide (symbol = SymbolFis)) as [-> | N5].
  - rewrite lookup_insert_eq, lookup_empty. cbn [default In].
    intuition (try discriminate; try congruence).
  - rewrite lookup_insert_ne by congruence. rewrite lookup_empty. cbn [default In].
    intuition (try discriminate; try congruence).
Qed.

(** *** GetDropRate *)

(** The rate of the [k]-th day (from 0) of a 30-day cycle. *)
Definition scheduledRate (k : Z) : string :=
  if k <? 5 then DropRate10 else if k <? 20 then DropRate7 else DropRate4.

Lemma interDays_value (d : Z) :
  0 <= d ->
  Z.quot (Milliseconds (timeSub d 0)) (24 * 60 * 60 * 1000) = Z.min d 106751.
Proof.
  intros Hd. unfold Milliseconds, timeSub, maxDuration, minDuration.
  rewrite Z.sub_0_r.
  destruct (Z.ltb_spec (2 ^ 63 - 1) (d * (86400 * 10 ^ 9))) as [Hsat | Hfit].
  - assert (106751 < d) by lia.
    rewrite Z.min_r by lia. reflexivity.
  - assert (d <= 106751) by lia.
    destruct (Z.ltb_spec (d * (86400 * 10 ^ 9)) (- 2 ^ 63)); [lia |].
    rewrite Z.min_l by lia.
    replace (d * (86400 * 10 ^ 9)) with ((d * (24 * 60 * 60 * 1000)) * 10 ^ 6) by lia.
    rewrite Z.quot_mul by lia. apply Z.quot_mul. lia.
Qed.

(** X13. The drop rate follows a 30-day cycle counted from the start day:
    for a start day not after the day asked, both parsed, the rate is that of
    days 1-5 (10), 6-20 (7) or 21-30 (4) of the cycle and never the error
    "switchDay err".  Days more than 106751 apart (about 292 years, where
    [time.Duration] saturates) count as 106751 days. *)
Theorem GetDropRate_schedule (Parse : string -> result Z)
        (startDayStr nowDayStr : string) (startDay nowDay : Z) :
  String.ltb nowDayStr startDayStr = false ->
  Parse startDayStr = Ok startDay -> Parse nowDayStr = Ok nowDay ->
  startDay <= nowDay ->
  GetDropRate Parse startDayStr nowDayStr
  = Ok (scheduledRate (Z.min (nowDay - startDay) 106751 mod 30)).
Proof.
  intros Hord Hs Hn Hle. unfold GetDropRate. rewrite Hord, Hs, Hn.
  assert (Hsub : timeSub nowDay startDay = timeSub (nowDay - startDay) 0)
    by (unfold timeSub; rewrite Z.sub_0_r; reflexivity).
  rewrite Hsub, interDays_value by lia.
  set (d := Z.min (nowDay - startDay) 106751).
  assert (Hd : 0 <= d) by (unfold d; lia).
  rewrite Z.rem_mod_nonneg by lia.
  pose proof (Z.mod_pos_bound d 30 ltac:(lia)) as Hk.
  unfold scheduledRate. set (k := d mod 30) in *.
  destruct (Z.ltb_spec k 5).
  - replace (1 <=? k + 1) with true by (symmetry; apply Z.leb_le; lia).
    replace (k + 1 <=? 5) with true by (symmetry; apply Z.leb_le; lia).
    reflexivity.
  - replace (k + 1 <=? 5) with false by (symmetry; apply Z.leb_gt; lia).
    rewrite andb_false_r.
    replace (6 <=? k + 1) with true by (symmetry; apply Z.leb_le; lia).
    destruct (Z.ltb_spec k 20).
    + replace (k + 1 <=? 20) with true by (symmetry; apply Z.leb_le; lia).
      reflexivity.
    + replace (k + 1 <=? 20) with false by (symmetry; apply Z.leb_gt; lia).
      replace (21 <=? k + 1) with true by (symmetry; apply Z.leb_le; lia).
      replace (k + 1 <=? 30) with true by (symmetry; apply Z.leb_le; lia).
      reflexivity.
Qed.

(** A parser that knows two days, by their number since 1970-01-01. *)
Definition parseTwoDays (s : string) : result Z :=
  if String.eqb s "20240101" then Ok 19723
  else if String.eqb s "20240215" then Ok 19768
  else Err (ErrExternal 1).

Lemma GetDropRate_schedule_witness :
  GetDropRate parseTwoDays "20240101" "20240215" = Ok DropRate7.
Proof.
  apply (GetDropRate_schedule parseTwoDays "20240101" "20240215" 19723 19768).
  - reflexivity.
  - reflexivity.
  - reflexivity.
  - lia.
Defined.

(** *** ReadLastLine and AppendToFile *)

Definition notNewline (b : byte) : Prop := isNewline b = false.

(** A byte sequence is empty or ends with a line break. *)
Definition atLineStart (l : list byte) : Prop :=
  l = [] \/ exists l' b, l = l' ++ [b] /\ isNewline b = true.

Lemma lastTextLine_split (l : list byte) :
  exists pre,
    l = pre ++ lastTextLine l
    /\ List.Forall notNewline (lastTextLine l)
    /\ atLineStart pre.
Proof.
  induction l as [| b l IH] using rev_ind.
  - exists []. repeat split; [constructor | left; reflexivity].
  - destruct (isNewline b) eqn:Hb.
    + rewrite (ReadLastLineFacts.lastTextLine_snoc_newline l b Hb).
      exists (l ++ [b]). rewrite app_nil_r.
      repeat split; [constructor |]. right. exists l, b. split; [reflexivity | exact Hb].
    + rewrite (ReadLastLineFacts.lastTextLine_snoc_other l b Hb).
      destruct IH as (pre & Hl & Hall & Hpre).
      exists pre. split; [rewrite app_assoc, <- Hl; reflexivity |].
      split; [| exact Hpre].
      apply List.Forall_app. split; [exact Hall |]. constructor; [exact Hb | constructor].
Qed.

Lemma lastTextLine_line (pre line : list byte) :
  atLineStart pre -> List.Forall notNewline line ->
  lastTextLine (pre ++ line) = line.
Proof.
  intros Hpre. induction line as [| b line IH] using rev_ind; intros Hall.
  - rewrite app_nil_r. destruct Hpre as [-> | (l' & b & -> & Hb)]; [reflexivity |].
    apply ReadLastLineFacts.lastTextLine_snoc_newline. exact Hb.
  - apply List.Forall_app in Hall as [Hline Hb].
    inversion Hb as [| ? ? Hb' _]; subst.
    rewrite app_assoc, (ReadLastLineFacts.lastTextLine_snoc_other _ b Hb').
    rewrite IH by exact Hline. reflexivity.
Qed.

(** X14. On a file that is not empty [ReadLastLine] returns a suffix of the
    content that is never empty: the last byte of the file, whatever it is,
    preceded by the bytes that follow the last line break before it.  (The
    bytes before the returned suffix are none or end with a line break; the
    returned bytes hold no line break except, possibly, the last one.) *)
Theorem ReadLastLine_suffix (content : list byte) :
  content <> [] ->
  exists pre line last,
    content = pre ++ line ++ [last]
    /\ ReadLastLine (List.length content) (fileOf content)
       = Some (Ok (string_of_list_byte (line ++ [last])))
    /\ List.Forall notNewline line
    /\ atLineStart pre.
Proof.
  intros Hne.
  destruct (exists_last Hne) as (init & last & ->).
  destruct (lastTextLine_split init) as (pre & Hinit & Hall & Hpre).
  exists pre, (lastTextLine init), last.
  split; [rewrite app_assoc, <- Hinit; reflexivity |].
  split; [| split; assumption].
  apply ReadLastLineFacts.ReadLastLine_nonempty.
  rewrite length_app. cbn [length]. lia.
Qed.

Lemma ReadLastLine_suffix_witness :
  exists pre line last,
    list_byte_of_string "alpha" ++ [LF] ++ list_byte_of_string "beta"
    = pre ++ line ++ [last]
    /\ ReadLastLine 10 (fileOf (list_byte_of_string "alpha" ++ [LF]
                                  ++ list_byte_of_string "beta"))
       = Some (Ok (string_of_list_byte (line ++ [last])))
    /\ List.Forall notNewline line
    /\ atLineStart pre.
Proof.
  apply (ReadLastLine_suffix
           (list_byte_of_string "alpha" ++ [LF] ++ list_byte_of_string "beta")).
  discriminate.
Defined.

(** A file whose last two bytes are both line breaks (a blank last
    line, or a last line ended by CR LF) gives only its last byte: the text
    of the last line is not returned. *)
Theorem ReadLastLine_two_line_breaks (init : list byte) (b last : byte) :
  isNewline b = true ->
  ReadLastLine (List.length (init ++ [b; last])) (fileOf (init ++ [b; last]))
  = Some (Ok (string_of_list_byte [last])).
Proof.
  intros Hb.
  replace (init ++ [b; last]) with ((init ++ [b]) ++ [last])
    by (rewrite <- app_assoc; reflexivity).
  rewrite ReadLastLineFacts.ReadLastLine_nonempty
    by (rewrite !length_app; cbn [length]; lia).
  rewrite (ReadLastLineFacts.lastTextLine_snoc_newline init b Hb). reflexivity.
Qed.

Lemma ReadLastLine_two_line_breaks_witness :
  ReadLastLine (List.length (list_byte_of_string "beta" ++ [Byte.x0d; LF]))
               (fileOf (list_byte_of_string "beta" ++ [Byte.x0d; LF]))
  = Some (Ok (string_of_list_byte [LF])).
Proof.
  apply (ReadLastLine_two_line_breaks (list_byte_of_string "beta") Byte.x0d LF).
  reflexivity.
Defined.

Lemma list_byte_of_string_app (s t : string) :
  list_byte_of_string (s ++ t)%string = list_byte_of_string s ++ list_byte_of_string t.
Proof.
  induction s as [| a s IH].
  - reflexivity.
  - rewrite ReadLastLineFacts.append_cons.
    change (list_byte_of_string (String a (s ++ t)%string))
      with (byte_of_ascii a :: list_byte_of_string (s ++ t)%string).
    rewrite IH. reflexivity.
Qed.

(** The line feed as a string. *)
Definition newline : string := String (ascii_of_byte LF) EmptyString.

(** X15. Appending a line and reading it back: when [AppendToFile] appends
    [line] followed by a line feed to a file that is empty or ends with a
    line break, and [line] holds no line break, the file afterwards is the
    old content followed by the line and the line feed, and [ReadLastLine]
    on it returns the line with its line feed. *)
Theorem AppendToFile_ReadLastLine (fs : AppendView) (line : string)
        (old new : list byte) :
  openAppend fs = Ok old -> atLineStart old ->
  List.Forall notNewline (list_byte_of_string line) ->
  AppendToFile fs (line ++ newline)%string = Ok new ->
  new = old ++ list_byte_of_string line ++ [LF]
  /\ ReadLastLine (List.length new) (fileOf new) = Some (Ok (line ++ newline)%string).
Proof.
  intros Hopen Hold Hline Hrun.
  unfold AppendToFile in Hrun. rewrite Hopen in Hrun.
  destruct (mkdirAllA fs); [discriminate |].
  destruct (writeErr fs); [discriminate |].
  injection Hrun as <-.
  rewrite list_byte_of_string_app.
  change (list_byte_of_string newline) with [LF].
  split; [reflexivity |].
  rewrite app_assoc.
  rewrite ReadLastLineFacts.ReadLastLine_nonempty
    by (rewrite !length_app; cbn [length]; lia).
  rewrite (lastTextLine_line old _ Hold Hline).
  rewrite <- (string_of_list_byte_of_string (line ++ newline)).
  rewrite list_byte_of_string_app. reflexivity.
Qed.

Lemma AppendToFile_ReadLastLine_witness :
  list_byte_of_string "alpha" ++ [LF] ++ list_byte_of_string "beta" ++ [LF]
  = (list_byte_of_string "alpha" ++ [LF]) ++ list_byte_of_string "beta" ++ [LF]
  /\ ReadLastLine
       (List.length (list_byte_of_string "alpha" ++ [LF]
                       ++ list_byte_of_string "beta" ++ [LF]))
       (fileOf (list_byte_of_string "alpha" ++ [LF]
                  ++ list_byte_of_string "beta" ++ [LF]))
     = Some (Ok ("beta" ++ newline)%string).
Proof.
  apply (AppendToFile_ReadLastLine
           (mkAppendView None (Ok (list_byte_of_string "alpha" ++ [LF])) None)
           "beta").
  - reflexivity.
  - right. exists (list_byte_of_string "alpha"), LF. split; reflexivity.
  - repeat constructor.
  - reflexivity.
Defined.

End UtilsMoreFacts.

(** ** The stages of the set-merkle-root task *)

Module MerkleRootStages.
Import Stdlib.Sorting.Sorted.
Import Go Effects Utils WaitTx MerkleRoot Merkle MerkleRootFacts.
Local Open Scope Z_scope.

(** *** checkStateForSetMerkleRoot *)

(** X16. [checkStateForSetMerkleRoot] panics exactly when the beacon head
    is known and [merkleRootDuEpochs] is 0 (a division by zero).  When it
    says to go on, the target epoch is the last multiple of
    [merkleRootDuEpochs] at or below the finalized epoch, it is later than
    the epoch dealt on chain, its first block is the one returned and that
    block has been synced; no error comes with it. *)
Theorem checkStateForSetMerkleRoot_go_next (env : Env) (s : Service)
        (finalizedEpoch : Z) :
  Eth2BeaconHead env = Ok finalizedEpoch ->
  0 <= finalizedEpoch < two64 -> 0 <= merkleRootDuEpochs s ->
  (checkStateForSetMerkleRoot env s = None <-> merkleRootDuEpochs s = 0)
  /\ forall dealed targetEpoch targetBlock err,
       checkStateForSetMerkleRoot env s
       = Some (dealed, targetEpoch, targetBlock, true, err) ->
       err = None
       /\ targetEpoch = finalizedEpoch / merkleRootDuEpochs s * merkleRootDuEpochs s
       /\ targetEpoch <= finalizedEpoch < targetEpoch + merkleRootDuEpochs s
       /\ (exists d, dealed = Some d
                     /\ LatestMerkleRootEpoch env = Ok d
                     /\ wrap64 d < targetEpoch)
       /\ getEpochStartBlocknumberWithCheck env targetEpoch = Ok targetBlock
       /\ targetBlock <= latestBlockOfSyncBlock s.
Proof.
  intros Hhead Hfin Hdu.
  unfold checkStateForSetMerkleRoot. rewrite Hhead. unfold div64.
  destruct (Z.eqb_spec (merkleRootDuEpochs s) 0) as [Hz | Hnz].
  { split; [tauto | discriminate]. }
  set (du := merkleRootDuEpochs s) in *.
  assert (Hq : finalizedEpoch / du * du <= finalizedEpoch)
    by (rewrite Z.mul_comm; apply Z.mul_div_le; lia).
  assert (Hq' : finalizedEpoch < finalizedEpoch / du * du + du).
  { pose proof (Z.mul_succ_div_gt finalizedEpoch du ltac:(lia)). lia. }
  assert (Hq0 : 0 <= finalizedEpoch / du) by (apply Z.div_pos; lia).
  assert (Hte : mul64 (finalizedEpoch / du) du = finalizedEpoch / du * du).
  { unfold mul64. apply Eth2Facts.wrap64_small. unfold is_u64. nia. }
  rewrite Hte.
  split.
  { split; [| tauto].
    destruct (LatestMerkleRootEpoch env) as [d | e]; [| discriminate].
    destruct (_ <=? wrap64 d); [discriminate |].
    destruct (getEpochStartBlocknumberWithCheck env _) as [b | e]; [| discriminate].
    destruct (latestBlockOfSyncBlock s <? b); discriminate. }
  intros dealed targetEpoch targetBlock err Hrun.
  destruct (LatestMerkleRootEpoch env) as [d | e]; [| discriminate].
  destruct (Z.leb_spec (finalizedEpoch / du * du) (wrap64 d)); [discriminate |].
  destruct (getEpochStartBlocknumberWithCheck env _) as [b | e] eqn:Hb; [| discriminate].
  destruct (Z.ltb_spec (latestBlockOfSyncBlock s) b); [discriminate |].
  injection Hrun as <- <- <- <-.
  repeat split; try lia; try assumption.
  exists d. repeat split. lia.
Qed.

Lemma checkStateForSetMerkleRoot_go_next_witness :
  (checkStateForSetMerkleRoot (testEnv noRewards false) testService = None
   <-> merkleRootDuEpochs testService = 0)
  /\ checkStateForSetMerkleRoot (testEnv noRewards false) testService
     = Some (Some 0, 225, 1225, true, None).
Proof.
  destruct (checkStateForSetMerkleRoot_go_next (testEnv noRewards false) testService 230)
    as (Hpanic & _).
  - reflexivity.
  - unfold two64; lia.
  - simpl; lia.
  - split; [exact Hpanic | reflexivity].
Defined.

(** When the epoch dealt on chain has reached the target epoch (the
    last multiple of [merkleRootDuEpochs] at or below the finalized epoch)
    there is nothing to do: [setMerkleRoot] returns nil and calls neither
    the storage nor the proposal contract. *)
Theorem setMerkleRoot_nothing_to_do (L : Lib) (env : Env) (s : Service) (t : Trace)
        (finalizedEpoch dealed : Z) :
  Eth2BeaconHead env = Ok finalizedEpoch ->
  LatestMerkleRootEpoch env = Ok dealed ->
  merkleRootDuEpochs s <> 0 ->
  mul64 (finalizedEpoch / merkleRootDuEpochs s) (merkleRootDuEpochs s)
  <= wrap64 dealed ->
  setMerkleRoot L env s t = (Some None, t).
Proof.
  intros Hhead Hdealed Hdu Hle.
  pose proof (setMerkleRoot_stages L env s t) as Hstages.
  assert (Hcollect : collectFinalList L env s t = (Return None, t)).
  { unfold collectFinalList, bind, lift, checkStateForSetMerkleRoot, div64.
    rewrite Hhead, Hdealed.
    destruct (Z.eqb_spec (merkleRootDuEpochs s) 0); [contradiction |].
    destruct (Z.leb_spec
                (mul64 (finalizedEpoch / merkleRootDuEpochs s) (merkleRootDuEpochs s))
                (wrap64 dealed)); [reflexivity | lia]. }
  rewrite Hcollect in Hstages. exact Hstages.
Qed.

(** The chain of the examples once the root of epoch 225 has been set. *)
Definition dealtEnv : Env :=
  mkEnv (Ok 230) (Ok 225) (fun epoch => Ok (1000 + epoch))
        (fun _ => Ok []) (fun _ _ => Err (ErrExternal 404))
        (fun _ _ => Ok noRewards)
        (fun _ _ => Ok "bafy-node-rewards"%string)
        (fun _ _ => Ok false)
        None
        (fun _ _ _ => Ok "0xa1"%string)
        WaitTxFacts.minedClient.

Lemma setMerkleRoot_nothing_to_do_witness :
  setMerkleRoot testLib dealtEnv testService [] = (Some None, []).
Proof.
  apply (setMerkleRoot_nothing_to_do testLib dealtEnv testService [] 230 225).
  - reflexivity.
  - reflexivity.
  - discriminate.
  - vm_compute. discriminate.
Defined.

(** *** The transaction lock *)

Definition is_unlock (e : Event) : bool :=
  match e with EvUnlockTxOpts => true | _ => false end.

Lemma is_wait_not_unlock (e : Event) : is_wait e = true -> is_unlock e = false.
Proof. destruct e; intros H; try reflexivity; discriminate H. Qed.

(** X17. [sendSetMerkleRootTx] never leaves the transaction options locked:
    when the lock is refused it calls nothing else and returns the lock
    error; when the lock is taken, the lock is the first event and the
    unlock the last one, each happening once, whatever the contract call
    and the wait answer.  It always returns. *)
Theorem sendSetMerkleRootTx_lock_discipline (env : Env) (targetEpoch : Z)
        (rootHash : list byte) (cid : string) (t : Trace) :
  exists (err : option error) (tx : Trace),
    sendSetMerkleRootTx env targetEpoch rootHash cid t = (Some err, t ++ tx)
    /\ match LockAndUpdateTxOpts env with
       | Some _ => tx = [] /\ err = Some (Errorf "LockAndUpdateTxOpts err: %s")
       | None =>
           exists mid, tx = EvLockTxOpts :: mid ++ [EvUnlockTxOpts]
                       /\ count is_lock mid = 0%nat
                       /\ count is_unlock mid = 0%nat
                       /\ count is_tx mid = 1%nat
       end.
Proof.
  destruct (sendSetMerkleRootTx_run env targetEpoch rootHash cid t)
    as (err & tx & Hrun & Htx).
  exists err, tx. split; [exact Hrun |].
  unfold txPhase in Htx. unfold sendSetMerkleRootTx in Hrun.
  destruct (LockAndUpdateTxOpts env) as [e |].
  - split; [exact Htx |]. injection Hrun as <- _. reflexivity.
  - destruct Htx as (w & -> & Hw).
    exists (EvSetMerkleRootTx targetEpoch rootHash cid
              (submitted env targetEpoch rootHash cid) :: w).
    split; [reflexivity |].
    change (EvSetMerkleRootTx targetEpoch rootHash cid
              (submitted env targetEpoch rootHash cid) :: w)
      with ([EvSetMerkleRootTx targetEpoch rootHash cid
               (submitted env targetEpoch rootHash cid)] ++ w).
    rewrite !WaitTxFacts.count_app.
    rewrite (wait_events_uncounted is_lock w is_wait_not_lock Hw).
    rewrite (wait_events_uncounted is_unlock w is_wait_not_unlock Hw).
    rewrite (wait_events_uncounted is_tx w is_wait_not_tx Hw).
    repeat split.
Qed.

(** *** The order of the external calls *)

(** X18. Whatever the chain and the storage answer, one call of
    [setMerkleRoot] adds to the trace at most one upload, one [HasVoted]
    query and one [SetMerkleRoot] call, and it calls [SetMerkleRoot] only
    after an upload and after [HasVoted] has answered false for the proposal
    made of that very epoch, root and cid. *)
Theorem setMerkleRoot_call_order (L : Lib) (env : Env) (s : Service) (t : Trace) :
  exists (r : option (option error)) (ev : Trace),
    setMerkleRoot L env s t = (r, t ++ ev)
    /\ (count is_upload ev <= 1)%nat
    /\ (count is_has_voted ev <= 1)%nat
    /\ (count is_tx ev <= 1)%nat
    /\ forall te root cid h,
         In (EvSetMerkleRootTx te root cid h) ev ->
         HasVoted env (VoteMerkleRootProposalId L te root cid) (selfAddress s) = Ok false
         /\ exists content path rest,
              ev = EvUploadFile content path
                     :: EvHasVoted (VoteMerkleRootProposalId L te root cid) (selfAddress s)
                     :: EvLockTxOpts
                     :: EvSetMerkleRootTx te root cid h :: rest.
Proof.
  destruct (setMerkleRoot_run L env s t) as (r & ev & Hrun & Hshape).
  exists r, ev. split; [exact Hrun |].
  destruct Hshape as [r | r content path | r content path te root cid tx Hvote].
  - do 3 (split; [unfold count; simpl; lia |]). intros ? ? ? ? [].
  - do 3 (split; [unfold count; simpl; lia |]).
    intros ? ? ? ? [H | []]. discriminate.
  - unfold votePhase in Hvote.
    destruct (HasVoted env (VoteMerkleRootProposalId L te root cid) (selfAddress s))
      as [[|] | e] eqn:Hv.
    + destruct Hvote as [_ ->]. do 3 (split; [unfold count; simpl; lia |]).
      intros ? ? ? ? [H | [H | []]]; discriminate.
    + destruct (txPhase_counts env te root cid tx Hvote) as (H1 & H2 & _ & H4).
      assert (Hup : count is_upload tx = 0%nat).
      { unfold txPhase in Hvote. destruct (LockAndUpdateTxOpts env).
        - subst tx. reflexivity.
        - destruct Hvote as (w & -> & Hw).
          change (EvLockTxOpts :: EvSetMerkleRootTx te root cid (submitted env te root cid)
                    :: w ++ [EvUnlockTxOpts])
            with ([EvLockTxOpts; EvSetMerkleRootTx te root cid (submitted env te root cid)]
                    ++ w ++ [EvUnlockTxOpts]).
          rewrite !WaitTxFacts.count_app.
          rewrite (wait_events_uncounted is_upload w) ; [reflexivity | | exact Hw].
          intros e He. destruct e; try reflexivity; discriminate He. }
      do 3 (split; [unfold count in *; simpl; lia |]).
      intros te' root' cid' h [H | [H | Hin]]; [discriminate | discriminate |].
      pose proof (H4 _ Hin eq_refl) as Heq. injection Heq as -> -> -> ->.
      split; [exact Hv |].
      unfold txPhase in Hvote. destruct (LockAndUpdateTxOpts env).
      * subst tx. destruct Hin.
      * destruct Hvote as (w & -> & _).
        exists content, path, (w ++ [EvUnlockTxOpts]). reflexivity.
    + destruct Hvote as [_ ->]. do 3 (split; [unfold count; simpl; lia |]).
      intros ? ? ? ? [H | [H | []]]; discriminate.
Qed.

(** *** The previous list *)













(** *** The final list *)

(** Strings in non-decreasing order. *)
Definition stringLe (a b : string) : Prop := String.ltb b a = false.

(** A node without its position in the list. *)
Definition unindexed (n : NodeReward)
  : string * Decimal.Decimal * Decimal.Decimal * string :=
  (nrAddress n, nrTotalRewardAmount n, nrTotalExitDepositAmount n, nrProof n).

Lemma ltb_asym (a b : string) : String.ltb a b = true -> stringLe a b.
Proof.
  unfold stringLe, String.ltb. rewrite (String.compare_antisym a b).
  destruct (String.compare b a); simpl; congruence.
Qed.

Lemma compare_lt_trans (a b c : string) :
  String.compare a b = Lt -> String.compare b c = Lt -> String.compare a c = Lt.
Proof.
  intros H1 H2.
  apply OrderedTypeEx.String_as_OT.cmp_lt.
  apply OrderedTypeEx.String_as_OT.cmp_lt in H1, H2.
  exact (OrderedTypeEx.String_as_OT.lt_trans _ _ _ H1 H2).
Qed.

Lemma stringLe_trans (a b c : string) : stringLe a b -> stringLe b c -> stringLe a c.
Proof.
  unfold stringLe, String.ltb. intros Hab Hbc.
  destruct (String.compare c a) eqn:Hca; try reflexivity.
  exfalso.
  destruct (String.compare b a) eqn:Hba; [| discriminate |].
  - apply String.compare_eq_iff in Hba. rewrite Hba, Hca in Hbc. discriminate.
  - assert (Hab' : String.compare a b = Lt)
      by (rewrite String.compare_antisym, Hba; reflexivity).
    rewrite (compare_lt_trans _ _ _ Hca Hab') in Hbc. discriminate.
Qed.

Lemma insertByAddress_perm (x : NodeReward) (l : list NodeReward) :
  Permutation (insertByAddress x l) (x :: l).
Proof.
  induction l as [| y l IH]; cbn [insertByAddress]; [reflexivity |].
  destruct (String.ltb (nrAddress y) (nrAddress x)); [| reflexivity].
  rewrite IH. apply perm_swap.
Qed.

Lemma insertByAddress_sorted (x : NodeReward) (l : list NodeReward) :
  StronglySorted stringLe (List.map nrAddress l) ->
  StronglySorted stringLe (List.map nrAddress (insertByAddress x l)).
Proof.
  induction l as [| y l IH]; cbn [insertByAddress List.map]; intros Hs.
  - constructor; constructor.
  - apply StronglySorted_inv in Hs as [Hs Hall].
    destruct (String.ltb (nrAddress y) (nrAddress x)) eqn:Hyx; cbn [List.map].
    + constructor; [apply IH; exact Hs |].
      apply List.Forall_forall. intros a Ha.
      apply in_map_iff in Ha as (n & <- & Hn).
      apply (Permutation_in _ (insertByAddress_perm x l)) in Hn.
      destruct Hn as [<- | Hn]; [apply ltb_asym; exact Hyx |].
      rewrite List.Forall_forall in Hall. apply Hall. apply in_map. exact Hn.
    + constructor; [constructor; assumption |].
      constructor; [exact Hyx |].
      eapply List.Forall_impl; [| exact Hall].
      intros a Ha. apply (stringLe_trans _ (nrAddress y)); assumption.
Qed.

Lemma sortByAddress_spec (l : list NodeReward) :
  Permutation (sortByAddress l) l
  /\ StronglySorted stringLe (List.map nrAddress (sortByAddress l)).
Proof.
  unfold sortByAddress. induction l as [| x l (Hp & Hs)]; cbn [fold_right].
  - split; [reflexivity | constructor].
  - split; [rewrite insertByAddress_perm, Hp; reflexivity |].
    apply insertByAddress_sorted. exact Hs.
Qed.

Lemma assignIndexFrom_spec (l : list NodeReward) :
  forall k,
    List.map unindexed (assignIndexFrom k l) = List.map unindexed l
    /\ forall i n, assignIndexFrom k l !! i = Some n ->
                   nrIndex n = Z.of_nat (k + i) mod 2 ^ 32.
Proof.
  induction l as [| x l IH]; intros k; cbn [assignIndexFrom List.map].
  - split; [reflexivity | intros i n H; discriminate].
  - destruct (IH (S k)) as (Hmap & Hidx). split.
    + rewrite Hmap. reflexivity.
    + intros [| i] n Hn; cbn in Hn.
      * injection Hn as <-. cbn [nrIndex]. rewrite Nat.add_0_r. reflexivity.
      * rewrite (Hidx i n Hn). f_equal. lia.
Qed.

(** X21. The final list is in non-decreasing order of the address strings,
    the index of each node is its position in the list, and apart from the
    indices its nodes are those of the merged map. *)
Theorem finalList_sorted_indexed (L : Lib) (pre : gmap N NodeReward)
        (new : gmap N NodeNewReward) :
  StronglySorted stringLe (List.map nrAddress (finalList L pre new))
  /\ (forall i n, finalList L pre new !! i = Some n ->
                  nrIndex n = Z.of_nat i mod 2 ^ 32)
  /\ Permutation
       (List.map unindexed (finalList L pre new))
       (List.map unindexed
          (List.map snd (map_to_list (mergeNew L (mergePrevious L pre) new)))).
Proof.
  unfold finalList. cbv zeta.
  set (values := List.map snd (map_to_list (mergeNew L (mergePrevious L pre) new))).
  destruct (sortByAddress_spec values) as (Hperm & Hsorted).
  destruct (assignIndexFrom_spec (sortByAddress values) 0) as (Hmap & Hidx).
  assert (Haddr : List.map nrAddress (assignIndexFrom 0 (sortByAddress values))
                  = List.map nrAddress (sortByAddress values)).
  { apply (f_equal (List.map (fun p => fst (fst (fst p))))) in Hmap.
    rewrite !List.map_map in Hmap. exact Hmap. }
  split; [rewrite Haddr; exact Hsorted |].
  split; [exact Hidx |].
  rewrite Hmap. apply Permutation_map. exact Hperm.
Qed.

(** *** The merge *)

Section Merge.
Context (L : Lib) {A : Type}.
Context (addr : A -> string) (reward exitDeposit : A -> Decimal.Decimal).

Definition mergeStep (final : gmap N NodeReward) (x : A) : gmap N NodeReward :=
  mergeNode L final (addr x) (reward x) (exitDeposit x).

(** The entry of a node after one more record [x] for its address. *)
Definition added (old : option NodeReward) (x : A) : NodeReward :=
  match old with
  | Some f =>
      mkNodeReward (nrAddress f) (nrIndex f)
                   (Decimal.Add (nrTotalRewardAmount f) (reward x))
                   (Decimal.Add (nrTotalExitDepositAmount f) (exitDeposit x))
                   (nrProof f)
  | None => mkNodeReward (addr x) 0 (reward x) (exitDeposit x) EmptyString
  end.

Lemma mergeStep_lookup (final : gmap N NodeReward) (x : A) (a : N) :
  mergeStep final x !! a
  = if N.eqb (HexToAddress L (addr x)) a
    then Some (added (final !! a) x)
    else final !! a.
Proof.
  unfold mergeStep, mergeNode, added, Address. cbv zeta.
  destruct (N.eqb_spec (HexToAddress L (addr x)) a) as [<- | Hne].
  - match goal with
    | |- context [match ?o with Some _ => _ | None => _ end] => destruct o
    end; apply lookup_insert_eq.
  - match goal with
    | |- context [match ?o with Some _ => _ | None => _ end] => destruct o
    end; apply lookup_insert_ne; exact Hne.
Qed.

Lemma fold_mergeStep (l : list A) :
  forall final,
    List.NoDup (List.map (fun x => HexToAddress L (addr x)) l) ->
    forall a,
      fold_left mergeStep l final !! a
      = match List.find (fun x => N.eqb (HexToAddress L (addr x)) a) l with
        | Some x => Some (added (final !! a) x)
        | None => final !! a
        end.
Proof.
  induction l as [| x l IH]; intros final Hnd a; cbn [fold_left List.find].
  - reflexivity.
  - cbn [List.map] in Hnd. apply List.NoDup_cons_iff in Hnd as [Hx Hnd].
    rewrite (IH _ Hnd), mergeStep_lookup.
    destruct (N.eqb_spec (HexToAddress L (addr x)) a) as [Heq | Hne].
    + destruct (List.find _ l) as [y |] eqn:Hfind; [| reflexivity].
      apply List.find_some in Hfind as [Hin Hy]. apply N.eqb_eq in Hy.
      exfalso. apply Hx. rewrite Heq, <- Hy.
      apply (in_map (fun x => HexToAddress L (addr x))). exact Hin.
    + reflexivity.
Qed.

(** Every value of the map sits under the address that its own address
    string denotes. *)
Definition keyedByAddress (m : gmap N A) : Prop :=
  forall k v, m !! k = Some v -> HexToAddress L (addr v) = k.

Lemma values_NoDup (m : gmap N A) :
  keyedByAddress m ->
  List.NoDup (List.map (fun x => HexToAddress L (addr x)) (List.map snd (map_to_list m))).
Proof.
  intros Hkey. rewrite List.map_map.
  rewrite (List.map_ext_in _ fst).
  - replace (List.map fst (map_to_list m)) with ((map_to_list m).*1)
      by (induction (map_to_list m) as [| p l IH]; [reflexivity | cbn; f_equal; exact IH]).
    apply NoDup_ListNoDup, NoDup_fst_map_to_list.
  - intros [k v] Hin. cbn. apply Hkey.
    apply elem_of_map_to_list, list_elem_of_In. exact Hin.
Qed.

Lemma values_find (m : gmap N A) (a : N) :
  keyedByAddress m ->
  List.find (fun x => N.eqb (HexToAddress L (addr x)) a) (List.map snd (map_to_list m))
  = m !! a.
Proof.
  intros Hkey.
  destruct (List.find _ _) as [x |] eqn:Hfind.
  - apply List.find_some in Hfind as [Hin Hx]. apply N.eqb_eq in Hx.
    apply in_map_iff in Hin as ([k v] & Hv & Hin). cbn in Hv. subst v.
    apply list_elem_of_In, elem_of_map_to_list in Hin.
    rewrite <- Hx, (Hkey k x Hin). symmetry. exact Hin.
  - destruct (m !! a) as [v |] eqn:Hm; [| reflexivity].
    exfalso.
    assert (Hin : In v (List.map snd (map_to_list m))).
    { apply in_map_iff. exists (a, v). split; [reflexivity |].
      apply list_elem_of_In, elem_of_map_to_list. exact Hm. }
    apply (List.find_none _ _ Hfind) in Hin.
    rewrite (Hkey a v Hm), N.eqb_refl in Hin. discriminate.
Qed.

Lemma fold_values (m : gmap N A) (final : gmap N NodeReward) (a : N) :
  keyedByAddress m ->
  fold_left mergeStep (List.map snd (map_to_list m)) final !! a
  = match m !! a with
    | Some x => Some (added (final !! a) x)
    | None => final !! a
    end.
Proof.
  intros Hkey.
  rewrite (fold_mergeStep _ final (values_NoDup m Hkey)), (values_find m a Hkey).
  reflexivity.
Qed.

End Merge.

(** X22. The totals are cumulative.  When every entry of the previous map
    and of the new-rewards map sits under the address of its node, the
    merged map holds, for every address: the sum of the previous and the new
    amounts when the node is in both, the previous amounts alone or the new
    amounts alone when it is in one, and nothing when it is in neither.
    Indices and proofs of the previous list are not carried over. *)
Theorem merged_totals (L : Lib) (pre : gmap N NodeReward)
        (new : gmap N NodeNewReward) (a : N) :
  keyedByAddress L nrAddress pre -> keyedByAddress L nnAddress new ->
  mergeNew L (mergePrevious L pre) new !! a
  = match pre !! a, new !! a with
    | Some p, Some n =>
        Some (mkNodeReward (nrAddress p) 0
                (Decimal.Add (nrTotalRewardAmount p) (nnTotalRewardAmount n))
                (Decimal.Add (nrTotalExitDepositAmount p) (nnTotalExitDepositAmount n))
                EmptyString)
    | Some p, None =>
        Some (mkNodeReward (nrAddress p) 0 (nrTotalRewardAmount p)
                           (nrTotalExitDepositAmount p) EmptyString)
    | None, Some n =>
        Some (mkNodeReward (nnAddress n) 0 (nnTotalRewardAmount n)
                           (nnTotalExitDepositAmount n) EmptyString)
    | None, None => None
    end.
Proof.
  intros Hpre Hnew.
  unfold mergeNew, mergePrevious.
  change (fold_left _ (List.map snd (map_to_list new)) ?f)
    with (fold_left (mergeStep L nnAddress nnTotalRewardAmount nnTotalExitDepositAmount)
                    (List.map snd (map_to_list new)) f).
  rewrite (fold_values L nnAddress nnTotalRewardAmount nnTotalExitDepositAmount
             new _ a Hnew).
  change (fold_left _ (List.map snd (map_to_list pre)) ∅)
    with (fold_left (mergeStep L nrAddress nrTotalRewardAmount nrTotalExitDepositAmount)
                    (List.map snd (map_to_list pre)) ∅).
  rewrite (fold_values L nrAddress nrTotalRewardAmount nrTotalExitDepositAmount
             pre ∅ a Hpre).
  rewrite lookup_empty.
  destruct (pre !! a) as [p |], (new !! a) as [n |]; reflexivity.
Qed.

Definition previous0a : gmap N NodeReward :=
  {[ 10%N := mkNodeReward "0x0a" 3 (Reward.wei 1000) (Reward.wei 32) "ab:cd" ]}.

Lemma merged_totals_witness :
  mergeNew testLib (mergePrevious testLib previous0a) twoRewards !! 10%N
  = Some (mkNodeReward "0x0a" 0 (Decimal.Add (Reward.wei 1000) (Reward.wei 500))
                       (Decimal.Add (Reward.wei 32) (Reward.wei 0)) EmptyString).
Proof.
  rewrite (merged_totals testLib previous0a twoRewards 10%N).
  - reflexivity.
  - intros k v Hkv. unfold previous0a in Hkv.
    apply lookup_singleton_Some in Hkv as [<- <-]. reflexivity.
  - intros k v Hkv. unfold twoRewards in Hkv.
    apply lookup_insert_Some in Hkv as [[<- <-] | [_ Hkv]]; [reflexivity |].
    apply lookup_singleton_Some in Hkv as [<- <-]. reflexivity.
Defined.

(** *** Root and proofs *)

(** A node with its proof set. *)
Definition withProof (L : Lib) (n : NodeReward) (proofList : list NodeHash) : NodeReward :=
  mkNodeReward (nrAddress n) (nrIndex n) (nrTotalRewardAmount n)
               (nrTotalExitDepositAmount n)
               (String.concat ":" (List.map (NodeHashString L) proofList)).

Lemma calcProofs_Next (L : Lib) (tree : list NodeHash) (l : list NodeReward) :
  forall l',
    calcProofs L tree l = Next l' ->
    length l' = length l
    /\ forall i n, l !! i = Some n ->
         exists p, GetProof L tree (leafHash L n) = Ok p
                   /\ p <> []
                   /\ l' !! i = Some (withProof L n p).
Proof.
  induction l as [| x l IH]; intros l' Hrun; cbn [calcProofs] in Hrun.
  - injection Hrun as <-. split; [reflexivity | intros i n H; discriminate].
  - cbv zeta in Hrun.
    destruct (GetProof L tree (leafHash L x)) as [p | e] eqn:Hp.
    2:{ destruct (errors_Wrap (Some e) "tree.GetProof failed"); discriminate. }
    destruct p as [| h p]; [discriminate |]. cbn [length Nat.eqb] in Hrun.
    destruct (calcProofs L tree l) as [rest | e |] eqn:Hrest; try discriminate.
    injection Hrun as <-. destruct (IH rest eq_refl) as (Hlen & Hall).
    split; [cbn [length]; rewrite Hlen; reflexivity |].
    intros [| i] n Hn; cbn in Hn.
    + injection Hn as <-. exists (h :: p). repeat split; [exact Hp | discriminate].
    + apply Hall. exact Hn.
Qed.

(** X23. When the root and the proofs of a final list that is not empty are
    computed without error, the root is the root of the tree built over the
    leaf hashes of the list in its order, the list keeps its length and its
    order, and each node differs from the one given only by its proof, which
    joins with ":" the hashes of a proof that is not empty. *)
Theorem rootAndProofs_success (L : Lib) (l l' : list NodeReward) (t t' : Trace)
        (rootHash : NodeHash) :
  l <> [] ->
  rootAndProofs L l t = (Next (rootHash, l'), t') ->
  t' = t
  /\ GetRootHash L (List.map (leafHash L) l) = Ok rootHash
  /\ length l' = length l
  /\ forall i n, l !! i = Some n ->
       exists p, GetProof L (List.map (leafHash L) l) (leafHash L n) = Ok p
                 /\ p <> []
                 /\ l' !! i = Some (withProof L n p).
Proof.
  intros Hne Hrun.
  pose proof (rootAndProofs_silent L l t) as Hsilent. rewrite Hrun in Hsilent.
  cbn [snd] in Hsilent. split; [exact Hsilent |].
  unfold rootAndProofs, buildMerkleTree, bind, orReturn, lift, ret, returnWith in Hrun.
  destruct l as [| x l]; [contradiction |].
  cbn [length Nat.ltb Nat.leb Nat.eqb] in Hrun.
  destruct (GetRootHash L (List.map (leafHash L) (x :: l))) as [root | e]; [| discriminate].
  destruct (calcProofs L (List.map (leafHash L) (x :: l)) (x :: l)) as [res | e |] eqn:Hc;
    try discriminate.
  injection Hrun as <- <- _.
  split; [reflexivity |]. apply calcProofs_Next. exact Hc.
Qed.

Definition twoNodes : list NodeReward :=
  [ mkNodeReward "0x0a" 0 (Reward.wei 500) (Reward.wei 0) EmptyString;
    mkNodeReward "0x0b" 1 (Reward.wei 300) (Reward.wei 32) EmptyString ].

Lemma rootAndProofs_success_witness :
  exists rootHash l',
    rootAndProofs testLib twoNodes [] = (Next (rootHash, l'), [])
    /\ GetRootHash testLib (List.map (leafHash testLib) twoNodes) = Ok rootHash
    /\ length l' = 2%nat.
Proof.
  destruct (rootAndProofs testLib twoNodes []) as [[[rootHash l'] | e |] t'] eqn:Hrun;
    [| vm_compute in Hrun; discriminate | vm_compute in Hrun; discriminate].
  destruct (rootAndProofs_success testLib twoNodes l' [] t' rootHash)
    as (-> & Hroot & Hlen & _); [discriminate | exact Hrun |].
  exists rootHash, l'. repeat split; assumption.
Defined.

End MerkleRootStages.

(** ** pruneBlocks *)

Module PruneFacts.
Import Go Eth2 Utils Prune.
Local Open Scope Z_scope.




End PruneFacts.

(** ** More on the reconciliation *)

Module ManagerMore.
Import Go Effects Manager ManagerFacts.

Lemma startMissing_present (env : Env) (tokenList : list string) (st : State) :
  (forall t, In t tokenList -> is_Some (srvs st !! t)) ->
  startMissing env tokenList st = Some (None, st).
Proof.
  induction tokenList as [| token rest IH]; intros Hall; cbn [startMissing].
  - reflexivity.
  - destruct (Hall token (or_introl eq_refl)) as [srv ->].
    apply IH. intros t Ht. apply Hall. right. exact Ht.
Qed.

Lemma foldStop_listed (tokenList : list string) (l : list (string * Service))
      (st : State) :
  (forall p, In p l -> Contains tokenList (fst p) = true) ->
  fold_left (stopUnlisted tokenList) l st = st.
Proof.
  induction l as [| [token srv] l IH]; intros Hall; cbn [fold_left].
  - reflexivity.
  - pose proof (Hall (token, srv) (or_introl eq_refl)) as Hc. cbn [fst] in Hc.
    unfold stopUnlisted at 2. rewrite Hc. cbn [negb].
    apply IH. intros p Hp. apply Hall. right. exact Hp.
Qed.

(** X25. Reconciliation is idempotent: right after a pass that returned nil,
    a second pass over the same token list returns nil and leaves the manager
    exactly as it was: no service is started, stopped or replaced. *)
Theorem syncEntrustedLsdTokens_idempotent (env : Env) (st st' : State) :
  wfState st ->
  syncEntrustedLsdTokens env st = Some (None, st') ->
  syncEntrustedLsdTokens env st' = Some (None, st').
Proof.
  intros Hwf Hrun. unfold syncEntrustedLsdTokens in *.
  destruct (NewLsdNetworkFactory env); [discriminate |].
  destruct (GetEntrustedLsdTokens env) as [tokens | e]; [| discriminate].
  cbv zeta in *. set (S := List.map (addressString env) tokens) in *.
  destruct (startMissing env S st) as [[[e |] st1] |] eqn:Hstart; try discriminate.
  injection Hrun as <-.
  destruct (startMissing_spec env S st st1 Hstart Hwf)
    as (ev & _ & _ & _ & _ & Hpresent & _).
  pose proof (rangeStop_spec S st1) as Hrange. cbn zeta in Hrange.
  destruct Hrange as (_ & Hlookup).
  rewrite startMissing_present.
  - f_equal. f_equal. unfold rangeStop at 1. apply foldStop_listed.
    intros [t srv] Hin. cbn [fst].
    apply list_elem_of_In, elem_of_map_to_list in Hin.
    rewrite Hlookup in Hin.
    destruct (Contains S t); [reflexivity | discriminate].
  - intros t Ht. rewrite Hlookup.
    rewrite (proj2 (Contains_In S t) Ht). apply Hpresent. exact Ht.
Qed.

Definition st13 : State :=
  match syncEntrustedLsdTokens (envOk [1%N; 3%N]) st12 with
  | Some (_, st') => st'
  | None => st12
  end.

Lemma syncEntrustedLsdTokens_idempotent_witness :
  syncEntrustedLsdTokens (envOk [1%N; 3%N]) st13 = Some (None, st13).
Proof.
  apply (syncEntrustedLsdTokens_idempotent (envOk [1%N; 3%N]) st12 st13).
  - exact st12_wf.
  - vm_compute. reflexivity.
Defined.

Definition isStart (e : Event) : Prop := exists i, e = EvServiceStart i.

Lemma startMissing_error (env : Env) (tokenList : list string) :
  forall st st' e,
    startMissing env tokenList st = Some (Some e, st') ->
    exists ev,
      trace st' = trace st ++ ev
      /\ List.Forall isStart ev
      /\ cfg st' = cfg st
      /\ (forall t srv, srvs st !! t = Some srv -> srvs st' !! t = Some srv).
Proof.
  induction tokenList as [| token rest IH]; intros st st' e Hrun; cbn [startMissing] in Hrun.
  - discriminate.
  - destruct (srvs st !! token) as [old |] eqn:Hold; [apply IH with e; exact Hrun |].
    destruct (newAndStartServiceFor env st token) as [[[srv | e0] st1] |] eqn:Hnew;
      [| | discriminate].
    + destruct (newAndStartServiceFor_inv env st token _ _ Hnew)
        as (c & _ & Hcfg & _ & _ & _ & _ & Hsrvs & _ & Htr).
      destruct (IH st1 st' e Hrun) as (ev & Htr' & Hall & Hcfg' & Hkeep).
      exists (EvServiceStart (srvId srv) :: ev).
      split; [rewrite Htr', Htr, <- app_assoc; reflexivity |].
      split; [constructor; [eexists; reflexivity | exact Hall] |].
      split; [congruence |].
      intros t s0 Ht. apply Hkeep. rewrite Hsrvs.
      rewrite lookup_insert_ne; [exact Ht | congruence].
    + injection Hrun as <- <-.
      destruct (newAndStartServiceFor_inv env st token _ _ Hnew)
        as (c & _ & Hcfg & _ & Hsrvs & Htr & _).
      exists []. rewrite app_nil_r.
      split; [exact Htr |]. split; [constructor |]. split; [exact Hcfg |].
      intros t s0 Ht. rewrite Hsrvs. exact Ht.
Qed.

(** X26. A pass that fails stops nothing: when [syncEntrustedLsdTokens]
    returns an error, every service that was in the map is still there, the
    same, also those whose token is not listed any more; the only events are
    starts of the services created before the failure, which stay in the
    map. *)
Theorem syncEntrustedLsdTokens_failure_keeps_services
        (env : Env) (st st' : State) (e : error) :
  syncEntrustedLsdTokens env st = Some (Some e, st') ->
  exists ev,
    trace st' = trace st ++ ev
    /\ List.Forall isStart ev
    /\ cfg st' = cfg st
    /\ (forall t srv, srvs st !! t = Some srv -> srvs st' !! t = Some srv).
Proof.
  intros Hrun. unfold syncEntrustedLsdTokens in Hrun.
  assert (Hsame : forall e0, Some (Some e0, st) = Some (Some e, st') ->
            exists ev, trace st' = trace st ++ ev /\ List.Forall isStart ev
                       /\ cfg st' = cfg st
                       /\ (forall t srv, srvs st !! t = Some srv ->
                                         srvs st' !! t = Some srv)).
  { intros e0 Heq. injection Heq as _ <-. exists []. rewrite app_nil_r.
    split; [reflexivity |]. split; [constructor |]. split; [reflexivity |]. auto. }
  destruct (NewLsdNetworkFactory env) as [e0 |]; [apply (Hsame e0); exact Hrun |].
  destruct (GetEntrustedLsdTokens env) as [tokens | e0]; [| apply (Hsame e0); exact Hrun].
  cbv zeta in Hrun.
  destruct (startMissing env (List.map (addressString env) tokens) st)
    as [[[e0 |] st1] |] eqn:Hstart; try discriminate.
  injection Hrun as <- <-.
  exact (startMissing_error env _ st st1 e0 Hstart).
Qed.

(** The factory lists T1 and T3, but the service of T3 cannot be built. *)
Definition envNoT3 : Env :=
  mkEnv None (Ok [1%N; 3%N])
        (fun a => String.append "0xT" (String (ascii_of_N (48 + a)) EmptyString))
        (fun c => if String.eqb (LsdTokenAddress (Contracts c)) "0xT3"
                  then Some (ErrExternal 7) else None)
        (fun _ => None).

Lemma syncEntrustedLsdTokens_failure_keeps_services_witness :
  exists st' e,
    syncEntrustedLsdTokens envNoT3 st12 = Some (Some e, st')
    /\ srvs st' !! "0xT2"%string = Some srvT2
    /\ trace st' = trace st12.
Proof.
  destruct (syncEntrustedLsdTokens envNoT3 st12) as [[[e |] st'] |] eqn:Hrun;
    [| vm_compute in Hrun; discriminate | vm_compute in Hrun; discriminate].
  exists st', e. split; [reflexivity |].
  destruct (syncEntrustedLsdTokens_failure_keeps_services envNoT3 st12 st' e Hrun)
    as (ev & _ & _ & _ & Hkeep).
  split; [apply Hkeep; reflexivity |].
  vm_compute in Hrun. injection Hrun as _ <-. reflexivity.
Defined.

End ManagerMore.

(** ** Proposal identifiers *)

Module ProposalIdFacts.
Import Go MerkleRoot ProposalId.

(** The number that a big-endian byte string denotes. *)
Definition beValue (l : list byte) : N :=
  fold_left (fun acc b => (acc * 256 + Byte.to_N b)%N) l 0%N.

Lemma fold_beValue (l : list byte) :
  forall a : N,
    fold_left (fun acc b => (acc * 256 + Byte.to_N b)%N) l a
    = (a * 256 ^ N.of_nat (length l) + beValue l)%N.
Proof.
  unfold beValue. induction l as [| b l IH]; intros a; cbn [fold_left length].
  - cbn. lia.
  - rewrite IH, (IH (0 * 256 + Byte.to_N b)%N).
    rewrite Nat2N.inj_succ, N.pow_succ_r'. lia.
Qed.

Lemma beValue_cons (b : byte) (l : list byte) :
  beValue (b :: l) = (Byte.to_N b * 256 ^ N.of_nat (length l) + beValue l)%N.
Proof. unfold beValue at 1. cbn [fold_left]. rewrite fold_beValue. lia. Qed.

Lemma byteOfN_to_N (n : N) : (n < 256)%N -> Byte.to_N (byteOfN n) = n.
Proof.
  intros Hn. unfold byteOfN.
  destruct (Byte.of_N n) as [b |] eqn:Hb.
  - apply Byte.to_of_N. exact Hb.
  - apply Byte.of_N_None_iff in Hb. lia.
Qed.

Lemma beBytes_value (fuel : nat) :
  forall (n : N) (acc : list byte),
    (n < 2 ^ N.of_nat fuel)%N ->
    beValue (beBytes fuel n acc)
    = (n * 256 ^ N.of_nat (length acc) + beValue acc)%N.
Proof.
  induction fuel as [| fuel IH]; intros n acc Hn; cbn [beBytes].
  - cbn in Hn. assert (n = 0)%N as -> by lia. lia.
  - destruct (N.eqb_spec n 0) as [-> | Hnz]; [lia |].
    rewrite IH.
    + rewrite beValue_cons, byteOfN_to_N by (apply N.mod_lt; lia).
      cbn [length]. rewrite Nat2N.inj_succ, N.pow_succ_r'.
      pose proof (N.div_mod n 256 ltac:(lia)) as Hdm.
      set (k := (256 ^ N.of_nat (length acc))%N).
      set (q := (n / 256)%N) in *. set (r := (n mod 256)%N) in *.
      assert (Hn' : (n * k = (256 * q + r) * k)%N) by (rewrite <- Hdm; reflexivity).
      rewrite Hn'. lia.
    + rewrite Nat2N.inj_succ, N.pow_succ_r' in Hn.
      apply N.Div0.div_lt_upper_bound. lia.
Qed.

Lemma beBytes_length (fuel : nat) :
  forall (n : N) (acc : list byte) (k : nat),
    (n < 256 ^ N.of_nat k)%N ->
    (length (beBytes fuel n acc) <= k + length acc)%nat.
Proof.
  induction fuel as [| fuel IH]; intros n acc k Hn; cbn [beBytes]; [lia |].
  destruct (N.eqb_spec n 0) as [-> | Hnz]; [lia |].
  destruct k as [| k]; [cbn in Hn; lia |].
  specialize (IH (n / 256)%N (byteOfN (n mod 256) :: acc) k).
  cbn [length] in IH.
  rewrite Nat2N.inj_succ, N.pow_succ_r' in Hn.
  assert (n / 256 < 256 ^ N.of_nat k)%N by (apply N.Div0.div_lt_upper_bound; lia).
  specialize (IH H). lia.
Qed.

Lemma beValue_zeros (k : nat) (l : list byte) :
  beValue (List.repeat Byte.x00 k ++ l) = beValue l.
Proof.
  induction k as [| k IH]; cbn [List.repeat app]; [reflexivity |].
  rewrite beValue_cons, IH. cbn. lia.
Qed.

(** The 32-byte field of an integer in the packed encodings. *)
Definition word (z : Z) : list byte := LeftPadBytes (BigIntBytes z) 32.

Lemma word_spec (z : Z) :
  (0 <= z < 2 ^ 256)%Z ->
  length (word z) = 32%nat /\ Z.of_N (beValue (word z)) = z.
Proof.
  intros Hz. unfold word, BigIntBytes. cbv zeta.
  rewrite Z.abs_eq by lia.
  set (n := Z.to_N z).
  assert (Hn : (n < 256 ^ N.of_nat 32)%N).
  { unfold n. change (256 ^ N.of_nat 32)%N with (Z.to_N (2 ^ 256)).
    apply Z2N.inj_lt; lia. }
  pose proof (beBytes_length (N.to_nat (N.size n)) n [] 32 Hn) as Hlen.
  cbn [length] in Hlen. rewrite Nat.add_0_r in Hlen.
  assert (Hval : beValue (beBytes (N.to_nat (N.size n)) n []) = n).
  { rewrite beBytes_value.
    - cbn. lia.
    - rewrite N2Nat.id. apply N.size_gt. }
  set (l := beBytes (N.to_nat (N.size n)) n []) in *.
  unfold LeftPadBytes.
  destruct (Nat.leb_spec 32 (length l)).
  - split; [lia |]. rewrite Hval. unfold n. apply Z2N.id. lia.
  - split.
    + rewrite length_app, repeat_length. lia.
    + rewrite beValue_zeros, Hval. unfold n. apply Z2N.id. lia.
Qed.

Lemma word_inj (a b : Z) :
  (0 <= a < 2 ^ 256)%Z -> (0 <= b < 2 ^ 256)%Z -> word a = word b -> a = b.
Proof.
  intros Ha Hb Heq.
  destruct (word_spec a Ha) as (_ & <-). destruct (word_spec b Hb) as (_ & <-).
  rewrite Heq. reflexivity.
Qed.

(** Two concatenations whose first parts have the same length. *)
Lemma app_same_length {A : Type} (a b c d : list A) :
  length a = length c -> a ++ b = c ++ d -> a = c /\ b = d.
Proof. intros Hlen Heq. apply app_inj_1; assumption. Qed.

Lemma list_byte_of_string_inj (s t : string) :
  list_byte_of_string s = list_byte_of_string t -> s = t.
Proof.
  intros H. rewrite <- (string_of_list_byte_of_string s),
              <- (string_of_list_byte_of_string t), H. reflexivity.
Qed.

(** A hash without collisions on the concatenated input. *)
Definition collisionFree (keccak : list (list byte) -> list byte) : Prop :=
  forall a b, keccak a = keccak b -> List.concat a = List.concat b.

(** X27. The packed input of [VoteMerkleRootProposalId] is unambiguous: for
    epochs in [0, 2^256) and 32-byte roots, two proposals with the same id
    have the same epoch, root and cid, unless the hash collides.  The sign
    of the epoch is not encoded: [-e] and [e] give the same id. *)
Theorem VoteMerkleRootProposalId_unambiguous (L : Lib) (e e' : Z)
        (root root' : list byte) (cid cid' : string) :
  collisionFree (Keccak256Hash L) ->
  (0 <= e < 2 ^ 256)%Z -> (0 <= e' < 2 ^ 256)%Z ->
  length root = 32%nat -> length root' = 32%nat ->
  (VoteMerkleRootProposalId L e root cid = VoteMerkleRootProposalId L e' root' cid'
   -> e = e' /\ root = root' /\ cid = cid')
  /\ VoteMerkleRootProposalId L (- e) root cid = VoteMerkleRootProposalId L e root cid.
Proof.
  intros Hfree He He' Hr Hr'. split.
  - intros Heq. apply Hfree in Heq. cbn [List.concat] in Heq.
    rewrite !app_nil_r in Heq.
    apply app_inv_head in Heq.
    fold (word e) in Heq. fold (word e') in Heq.
    destruct (word_spec e He) as (Hl & _). destruct (word_spec e' He') as (Hl' & _).
    apply app_same_length in Heq as [Hw Heq]; [| congruence].
    apply app_same_length in Heq as [Hroot Hcid]; [| congruence].
    split; [apply word_inj; assumption |].
    split; [exact Hroot | apply list_byte_of_string_inj; exact Hcid].
  - unfold VoteMerkleRootProposalId, BigIntBytes. rewrite Z.abs_opp. reflexivity.
Qed.

(** The library of the examples with concatenation in place of the hash. *)
Definition plainLib : Lib :=
  mkLib (HexToAddress MerkleRootFacts.testLib) (@List.concat byte)
        (GetNodeHash MerkleRootFacts.testLib) (GetRootHash MerkleRootFacts.testLib)
        (GetProof MerkleRootFacts.testLib) (NodeHashString MerkleRootFacts.testLib)
        (jsonUnmarshal MerkleRootFacts.testLib) (jsonMarshal MerkleRootFacts.testLib)
        (NodeRewardsFileNameAtEpoch MerkleRootFacts.testLib)
        (pathJoin MerkleRootFacts.testLib).

Lemma VoteMerkleRootProposalId_unambiguous_witness :
  (VoteMerkleRootProposalId plainLib 225 zero32 "bafy"
   = VoteMerkleRootProposalId plainLib 225 zero32 "bafy"
   -> 225%Z = 225%Z /\ zero32 = zero32 /\ "bafy"%string = "bafy"%string)
  /\ VoteMerkleRootProposalId plainLib (- 225) zero32 "bafy"
     = VoteMerkleRootProposalId plainLib 225 zero32 "bafy".
Proof.
  apply (VoteMerkleRootProposalId_unambiguous plainLib 225 225 zero32 zero32
           "bafy" "bafy").
  - intros a b H. exact H.
  - lia.
  - lia.
  - reflexivity.
  - reflexivity.
Defined.

(** X28. The packed inputs of [DistributeProposalId] and
    [SubmitBalancesProposalId] are unambiguous: for arguments in [0, 2^256),
    two proposals of the same kind with the same id have the same arguments,
    unless the hash collides. *)
Theorem DistributeProposalId_unambiguous (keccak : list (list byte) -> list byte)
        (ty h u n p w ty' h' u' n' p' w' : Z) (b t s b' t' s' : Z) :
  collisionFree keccak ->
  List.Forall (fun z => (0 <= z < 2 ^ 256)%Z)
              [ty; h; u; n; p; w; ty'; h'; u'; n'; p'; w'; b; t; s; b'; t'; s'] ->
  (DistributeProposalId keccak ty h u n p w = DistributeProposalId keccak ty' h' u' n' p' w'
   -> [ty; h; u; n; p; w] = [ty'; h'; u'; n'; p'; w'])
  /\ (SubmitBalancesProposalId keccak b t s = SubmitBalancesProposalId keccak b' t' s'
      -> [b; t; s] = [b'; t'; s']).
Proof.
  intros Hfree Hrange.
  repeat match goal with
         | H : List.Forall _ (_ :: _) |- _ =>
             let Hz := fresh "Hz" in
             apply List.Forall_cons_iff in H; destruct H as [Hz H]
         end.
  assert (Hlen : forall z, (0 <= z < 2 ^ 256)%Z -> length (word z) = 32%nat)
    by (intros z Hz'; apply word_spec; exact Hz').
  split; intros Heq; apply Hfree in Heq; cbn [List.concat] in Heq;
    rewrite !app_nil_r in Heq; apply app_inv_head in Heq;
    repeat match goal with
           | H : LeftPadBytes (BigIntBytes ?a) 32 ++ _
                 = LeftPadBytes (BigIntBytes ?c) 32 ++ _ |- _ =>
               let Hw := fresh "Hw" in
               apply app_same_length in H as [Hw H];
               [apply word_inj in Hw; [subst | assumption | assumption]
               | fold (word a); fold (word c); rewrite !Hlen by assumption; reflexivity]
           end.
  - apply word_inj in Heq; [subst; reflexivity | assumption | assumption].
  - apply word_inj in Heq; [subst; reflexivity | assumption | assumption].
Qed.

Lemma DistributeProposalId_unambiguous_witness :
  (DistributeProposalId (@List.concat byte) 1 100 60 30 10 5
   = DistributeProposalId (@List.concat byte) 1 100 60 30 10 5
   -> [1; 100; 60; 30; 10; 5]%Z = [1; 100; 60; 30; 10; 5]%Z)
  /\ (SubmitBalancesProposalId (@List.concat byte) 7 8 9
      = SubmitBalancesProposalId (@List.concat byte) 7 8 9
      -> [7; 8; 9]%Z = [7; 8; 9]%Z).
Proof.
  apply (DistributeProposalId_unambiguous (@List.concat byte)
           1 100 60 30 10 5 1 100 60 30 10 5 7 8 9 7 8 9).
  - intros a b H. exact H.
  - repeat constructor; lia.
Defined.

End ProposalIdFacts.

(** ** More on the reward split *)

Module RewardMore.
Import Decimal Reward DecimalFacts RewardFacts.
Local Open Scope Z_scope.

Lemma LessThanOrEqual_scaled (m : Z) (a b : Decimal) :
  m <= exp a -> m <= exp b -> scaled m a <= scaled m b ->
  LessThanOrEqual a b = true.
Proof.
  intros Ha Hb Hle. unfold LessThanOrEqual. rewrite (Cmp_scaled m) by assumption.
  unfold cmpZ. destruct (Z.compare_spec (scaled m a) (scaled m b)); try reflexivity.
  lia.
Qed.

(** The share of the node without the platform fee, and the largest one. *)
Definition Percent95Deci : Decimal := New 95 (-2).

(** X29. The shares of a positive reward [r] (a whole number of wei, or
    with at most 15 decimal places) for a deposit [0 <= d <= 32 ether]: the
    platform fee is 5% of [r]; the node reward is at least the platform fee
    and at most 95% of [r]; the user reward is at most 90% of [r]. *)
Theorem GetUserNodePlatformReward_shares (d r u n p : Decimal) :
  IsPositive r = true -> -15 <= exp r ->
  IsNegative d = false ->
  GreaterThan d StandardEffectiveBalanceDeci = false ->
  GetUserNodePlatformReward d r = (u, n, p) ->
  Equal p (Mul r Percent5Deci) = true
  /\ LessThanOrEqual p n = true
  /\ LessThanOrEqual n (Mul r Percent95Deci) = true
  /\ LessThanOrEqual u (Mul r Percent90Deci) = true.
Proof.
  intros Hr He Hd Hgt Hrun.
  apply IsPositive_true_iff in Hr. apply IsNegative_false_iff in Hd.
  set (M := base (exp r)).
  destruct (scaled_wei_amounts r) as (HA & Hsr & Hsp & Hs90).
  fold M in Hsr, Hsp, Hs90.
  set (Y := value r * 9 * 10 ^ (exp r + 15)).
  assert (HY : Y * 10 ^ (-16 - M) = scaled M (Mul r Percent90Deci)).
  { rewrite Hs90. unfold Y.
    assert (Hpow : 10 ^ (exp r + 15) * 10 ^ (-16 - M)
                   = 10 ^ (exp r - 2 - M) * 10).
    { change 10 with (10 ^ 1) at 4.
      rewrite <- !pow10_add by (unfold M, base; lia). f_equal. lia. }
    transitivity (value r * 9 * (10 ^ (exp r + 15) * 10 ^ (-16 - M))); [lia |].
    rewrite Hpow. lia. }
  destruct (split_positive d r Y) as (u' & n' & p' & q & Hrun' & Hu & Hn & Hp
                                       & Hq & Hsp' & Hsn & Hsu);
    [lia | exact Hd | exact Hgt
     | apply (node_share_bound d r); [lia | assumption ..]
     | fold M; lia |].
  fold M in Hu, Hn, Hp, Hq, Hsp', Hsn, Hsu.
  rewrite Hrun in Hrun'. injection Hrun' as -> -> ->.
  assert (HM5 : M <= exp (Mul r Percent5Deci))
    by (unfold Mul, Percent5Deci, New, M, base; cbn [exp]; lia).
  assert (HM90 : M <= exp (Mul r Percent90Deci))
    by (unfold Mul, Percent90Deci, New, M, base; cbn [exp]; lia).
  assert (HM95 : M <= exp (Mul r Percent95Deci))
    by (unfold Mul, Percent95Deci, New, M, base; cbn [exp]; lia).
  assert (Hs95 : scaled M (Mul r Percent95Deci) = value r * 10 ^ (exp r - 2 - M) * 95).
  { unfold scaled, Mul, Percent95Deci, New. cbn [value exp].
    replace (exp r + -2 - M) with (exp r - 2 - M) by lia. lia. }
  split; [apply (Equal_scaled M); assumption |].
  split; [apply (LessThanOrEqual_scaled M); [assumption | assumption | lia] |].
  split; apply (LessThanOrEqual_scaled M); try assumption; lia.
Qed.

Lemma GetUserNodePlatformReward_shares_witness :
  Equal (mkDecimal (5 * 10 ^ 18) (-2)) (Mul (wei ether) Percent5Deci) = true
  /\ LessThanOrEqual (mkDecimal (5 * 10 ^ 18) (-2)) (mkDecimal (5 * 10 ^ 33) (-16)) = true
  /\ LessThanOrEqual (mkDecimal (5 * 10 ^ 33) (-16)) (Mul (wei ether) Percent95Deci) = true
  /\ LessThanOrEqual (mkDecimal (45 * 10 ^ 32) (-16)) (Mul (wei ether) Percent90Deci) = true.
Proof.
  apply (GetUserNodePlatformReward_shares (wei (16 * ether)) (wei ether)).
  - reflexivity.
  - simpl. lia.
  - reflexivity.
  - reflexivity.
  - vm_compute. reflexivity.
Defined.

(** *** A full deposit *)

Lemma Div_lower (t s : Decimal) (Y : Z) :
  0 <= value t -> 0 < value s ->
  (if exp t - exp s + 16 <? 0
   then Y * (value s * 10 ^ (- (exp t - exp s + 16))) <= value t
   else Y * value s <= value t * 10 ^ (exp t - exp s + 16)) ->
  Y <= value (Div t s).
Proof.
  intros Ht Hs Hle.
  unfold Div, DivRound, QuoRem, DivisionPrecision.
  replace (exp t - exp s - - (16)) with (exp t - exp s + 16) by lia.
  set (e := exp t - exp s + 16) in *.
  set (aa := if e <? 0 then value t else value t * 10 ^ e).
  set (bb := if e <? 0 then value s * 10 ^ (- e) else value s).
  assert (Hbb : 0 < bb).
  { unfold bb. destruct (e <? 0) eqn:He; [| lia].
    apply Z.ltb_lt in He. pose proof (pow10_pos (- e)). nia. }
  assert (Haa : 0 <= aa).
  { unfold aa. destruct (e <? 0) eqn:He; [lia |].
    apply Z.ltb_ge in He. pose proof (pow10_pos e He). nia. }
  assert (Hab : Y * bb <= aa).
  { unfold aa, bb. destruct (e <? 0); exact Hle. }
  replace (let '(aa0, bb0, scalerest) :=
             if e <? 0
             then (value t, value s * 10 ^ (- e), exp t)
             else (value t * 10 ^ e, value s, - (16) + exp s) in
           ({| value := aa0 ÷ bb0; exp := - (16) |},
            {| value := Z.rem aa0 bb0; exp := scalerest |}))
    with ({| value := aa ÷ bb; exp := - (16) |},
          {| value := Z.rem aa bb;
             exp := if e <? 0 then exp t else - (16) + exp s |}).
  2:{ unfold aa, bb. destruct (e <? 0); reflexivity. }
  cbn [value exp].
  rewrite Z.quot_div_nonneg by lia.
  assert (HqY : Y <= aa / bb) by (apply Z.div_le_lower_bound; lia).
  destruct (Cmp _ (Abs s) <? 0); [cbn [value]; exact HqY |].
  assert (Hsgn : (Z.sgn (value t) * Z.sgn (value s) <? 0) = false).
  { apply Z.ltb_ge. rewrite (Z.sgn_pos (value s)) by lia.
    destruct (value t); simpl; lia. }
  rewrite Hsgn, Add_spec. cbn [value exp]. unfold scaled, New. cbn [value exp].
  replace (Z.min (- (16)) (- (16))) with (-16) by lia.
  replace (- (16) - -16) with 0 by lia. change (10 ^ 0) with 1. lia.
Qed.

Lemma full_deposit_quotient (d r : Decimal) :
  0 <= value r -> -15 <= exp r ->
  Equal d StandardEffectiveBalanceDeci = true ->
  let t := Mul (Mul r Percent90Deci) d in
  let Y := value r * 9 * 10 ^ (exp r + 15) in
  if exp t - 18 + 16 <? 0
  then value t = Y * (32 * 10 ^ (- (exp t - 18 + 16)))
  else value t * 10 ^ (exp t - 18 + 16) = Y * 32.
Proof.
  intros Hr He Heq. cbn zeta.
  unfold Equal in Heq. apply Z.eqb_eq in Heq.
  rewrite Cmp_spec in Heq.
  unfold StandardEffectiveBalanceDeci, NewFromBigInt, scaled in Heq.
  cbn [value exp] in Heq.
  assert (Hd : value d * 10 ^ (exp d - Z.min (exp d) 18)
               = 32 * 10 ^ (18 - Z.min (exp d) 18)).
  { unfold cmpZ in Heq.
    destruct (Z.compare_spec (value d * 10 ^ (exp d - Z.min (exp d) 18))
                             (32 * 10 ^ (18 - Z.min (exp d) 18)));
      [assumption | discriminate | discriminate]. }
  clear Heq.
  unfold Mul, Percent90Deci, New. cbn [value exp].
  set (e := exp r + -1 + exp d - 18 + 16).
  destruct (e <? 0) eqn:Hneg.
  - apply Z.ltb_lt in Hneg.
    replace (Z.min (exp d) 18) with (exp d) in Hd by lia.
    rewrite Z.sub_diag in Hd. change (10 ^ 0) with 1 in Hd.
    assert (Hpow : 10 ^ (exp r + 15) * 10 ^ (- e) = 10 ^ (18 - exp d)).
    { rewrite <- pow10_add by lia. f_equal. lia. }
    transitivity (value r * 9 * (32 * (10 ^ (exp r + 15) * 10 ^ (- e)))); [| lia].
    rewrite Hpow. nia.
  - apply Z.ltb_ge in Hneg.
    destruct (Z_le_gt_dec (exp d) 18) as [Hde | Hde].
    + replace (Z.min (exp d) 18) with (exp d) in Hd by lia.
      rewrite Z.sub_diag in Hd. change (10 ^ 0) with 1 in Hd.
      assert (Hpow : 10 ^ (exp r + 15) = 10 ^ e * 10 ^ (18 - exp d)).
      { rewrite <- pow10_add by lia. f_equal. lia. }
      rewrite Hpow. nia.
    + replace (Z.min (exp d) 18) with 18 in Hd by lia.
      rewrite Z.sub_diag in Hd. change (10 ^ 0) with 1 in Hd.
      assert (Hpow : 10 ^ e = 10 ^ (exp d - 18) * 10 ^ (exp r + 15)).
      { rewrite <- pow10_add by lia. f_equal. lia. }
      rewrite Hpow. nia.
Qed.

(** X30. A node that deposited the full 32 ether: of a positive reward [r]
    (a whole number of wei, or with at most 15 decimal places) the users get
    nothing, the node gets 95% and the platform 5%, exactly. *)
Theorem GetUserNodePlatformReward_full_deposit (d r u n p : Decimal) :
  IsPositive r = true -> -15 <= exp r ->
  Equal d StandardEffectiveBalanceDeci = true ->
  GetUserNodePlatformReward d r = (u, n, p) ->
  IsZero u = true
  /\ Equal n (Mul r Percent95Deci) = true
  /\ Equal p (Mul r Percent5Deci) = true.
Proof.
  intros Hr He Hd Hrun.
  assert (Hpos := Hr). apply IsPositive_true_iff in Hpos.
  assert (Hgt : GreaterThan d StandardEffectiveBalanceDeci = false).
  { unfold GreaterThan. unfold Equal in Hd. apply Z.eqb_eq in Hd. rewrite Hd. reflexivity. }
  pose proof (full_deposit_quotient d r ltac:(lia) He Hd) as Hexact. cbn zeta in Hexact.
  unfold GetUserNodePlatformReward in Hrun. rewrite Hr, Hgt in Hrun.
  cbn [negb orb] in Hrun. cbv zeta in Hrun.
  set (t := Mul (Mul r Percent90Deci) d) in *.
  set (Y := value r * 9 * 10 ^ (exp r + 15)) in *.
  assert (Hdv : 0 <= value d).
  { unfold Equal in Hd. apply Z.eqb_eq in Hd. rewrite Cmp_spec in Hd.
    unfold StandardEffectiveBalanceDeci, NewFromBigInt, scaled in Hd.
    cbn [value exp] in Hd. unfold cmpZ in Hd.
    set (m := Z.min (exp d) 18) in Hd.
    pose proof (pow10_pos (exp d - m) ltac:(lia)).
    pose proof (pow10_pos (18 - m) ltac:(lia)).
    destruct (Z.compare_spec (value d * 10 ^ (exp d - m)) (32 * 10 ^ (18 - m)));
      try discriminate. nia. }
  assert (Ht0 : 0 <= value t)
    by (unfold t, Mul, Percent90Deci, New; cbn [value]; nia).
  assert (Hs0 : 0 < value StandardEffectiveBalanceDeci) by reflexivity.
  change (exp StandardEffectiveBalanceDeci) with 18 in *.
  destruct (Div_bound t StandardEffectiveBalanceDeci Y Ht0 Hs0) as (Hqe & _ & HqY).
  { change (exp StandardEffectiveBalanceDeci) with 18.
    change (value StandardEffectiveBalanceDeci) with 32.
    destruct (exp t - 18 + 16 <? 0); rewrite Hexact; lia. }
  pose proof (Div_lower t StandardEffectiveBalanceDeci Y Ht0 Hs0) as HqL.
  assert (HqL' : Y <= value (Div t StandardEffectiveBalanceDeci)).
  { apply HqL. change (exp StandardEffectiveBalanceDeci) with 18.
    change (value StandardEffectiveBalanceDeci) with 32.
    destruct (exp t - 18 + 16 <? 0); rewrite Hexact; lia. }
  set (q := Div t StandardEffectiveBalanceDeci) in *.
  assert (Hqv : value q = Y) by lia.
  set (M := base (exp r)).
  destruct (scaled_wei_amounts r) as (HA & Hsr & Hsp & Hs90).
  fold M in Hsr, Hsp, Hs90.
  set (pf := Mul r Percent5Deci) in *.
  assert (HMp : M <= exp pf)
    by (unfold pf, Mul, Percent5Deci, New, M, base; cbn [exp]; lia).
  assert (HMq : M <= exp q) by (rewrite Hqe; unfold M, base; lia).
  assert (HMr : M <= exp r) by (unfold M, base; lia).
  assert (Hsq : scaled M q = value r * 10 ^ (exp r - 2 - M) * 90).
  { unfold scaled. rewrite Hqe, Hqv. unfold Y.
    assert (Hpow : 10 ^ (exp r + 15) * 10 ^ (-16 - M) = 10 ^ (exp r - 2 - M) * 10).
    { change 10 with (10 ^ 1) at 4.
      rewrite <- !pow10_add by (unfold M, base; lia). f_equal. lia. }
    transitivity (value r * 9 * (10 ^ (exp r + 15) * 10 ^ (-16 - M))); [lia |].
    rewrite Hpow. lia. }
  destruct (Add_scaled M pf q HMp HMq) as (HMn & Hsn).
  destruct (Sub_scaled M r pf HMr HMp) as (HMrp & Hsrp).
  destruct (Sub_scaled M (Sub r pf) (Add pf q) HMrp HMn) as (HMu & Hsu).
  set (u0 := Sub (Sub r pf) (Add pf q)) in *.
  assert (Hu0 : scaled M u0 = 0) by (rewrite Hsu, Hsrp, Hsn, Hsr, Hsp, Hsq; lia).
  assert (Hneg : IsNegative u0 = false)
    by (apply (IsNegative_scaled M); [exact HMu | lia]).
  rewrite Hneg in Hrun. injection Hrun as <- <- <-.
  assert (HM95 : M <= exp (Mul r Percent95Deci))
    by (unfold Mul, Percent95Deci, New, M, base; cbn [exp]; lia).
  split; [| split].
  - unfold IsZero. rewrite (Sign_scaled M u0 HMu), Hu0. reflexivity.
  - apply (Equal_scaled M); [exact HMn | exact HM95 |].
    rewrite Hsn, Hsp, Hsq. unfold scaled, Mul, Percent95Deci, New. cbn [value exp].
    replace (exp r + -2 - M) with (exp r - 2 - M) by lia. lia.
  - apply (Equal_scaled M); [exact HMp | exact HMp | reflexivity].
Qed.

Lemma GetUserNodePlatformReward_full_deposit_witness :
  IsZero (mkDecimal 0 (-16)) = true
  /\ Equal (mkDecimal (95 * 10 ^ 32) (-16)) (Mul (wei ether) Percent95Deci) = true
  /\ Equal (mkDecimal (5 * 10 ^ 18) (-2)) (Mul (wei ether) Percent5Deci) = true.
Proof.
  apply (GetUserNodePlatformReward_full_deposit (wei (32 * ether)) (wei ether)).
  - reflexivity.
  - simpl. lia.
  - reflexivity.
  - vm_compute. reflexivity.
Defined.

End RewardMore.
